(** * Idle coding game: the game state manager

    A shallow embedding of [GameStateManager] (the second unit of
    [src/editorListener.ts]) and of the save migration performed by
    [loadGameState], of the document-change listener of [EditorListener]
    and of the figures the game panel and the status bar compute, followed
    by the properties of the engine.

    Modelling conventions.
    - A TypeScript [number] is a rational ([Q]).  The engine is embedded
      twice.  The first embedding computes with the mathematical
      operations; it is what the machine computes as long as every number
      is whole and below [2^53], and it carries the properties of the
      structure of the engine: the order of the phases, the battle slot,
      the counters, the frames.  The second one ([Module Double]) rounds
      every arithmetic result to the nearest IEEE 754 double, as the
      machine does; it carries the properties of the values computed.
      [Math.floor] is [Qfloor], [Math.max] is [Qmax].
    - The manager's mutable fields, the extension's persistent store, the
      notifications handed to the editor and the stream behind
      [Math.random] are gathered in a [World]; every method is a
      state-passing function on it (monad [M]).
    - A persisted blob is a JSON value whose objects are finite maps. *)

From Stdlib Require Import QArith Qround Qminmax Qpower Qabs Lqa ZArith Lia String List Bool
  Permutation.
From stdpp Require Import gmap strings.

Local Open Scope Q_scope.

(** [x < y] on numbers, as a boolean. *)
Definition Qltb (x y : Q) : bool := negb (Qle_bool y x).

(** ** Data model *)

Inductive BugType :=
| NullPointerException | MemoryLeak | InfiniteLoop | SyntaxError | RuntimeError.

Inductive UpgradeType := HandSpeed | Algorithm | Iteration.

Inductive InteractionType := Keystroke | FileOpen | FileSave.

Module Character.
Record t := mk { name : string; level : Q; experience : Q; experienceToNext : Q }.
Definition with_level (v : Q) (c : t) : t := mk (name c) v (experience c) (experienceToNext c).
Definition with_experience (v : Q) (c : t) : t := mk (name c) (level c) v (experienceToNext c).
Definition with_experienceToNext (v : Q) (c : t) : t := mk (name c) (level c) (experience c) v.
End Character.

Module Resources.
Record t := mk { linesOfCode : Q; bugFragments : Q }.
Definition with_linesOfCode (v : Q) (r : t) : t := mk v (bugFragments r).
Definition with_bugFragments (v : Q) (r : t) : t := mk (linesOfCode r) v.
End Resources.

(** The shape [{handSpeed, algorithm, iteration}] is shared by [stats] and
    [upgradeCosts]; [get] and [set] are the indexed accesses
    [stats[upgradeType]]. *)
Module Stats.
Record t := mk { handSpeed : Q; algorithm : Q; iteration : Q }.
Definition get (k : UpgradeType) (s : t) : Q :=
  match k with
  | HandSpeed => handSpeed s
  | Algorithm => algorithm s
  | Iteration => iteration s
  end.
Definition set (k : UpgradeType) (v : Q) (s : t) : t :=
  match k with
  | HandSpeed => mk v (algorithm s) (iteration s)
  | Algorithm => mk (handSpeed s) v (iteration s)
  | Iteration => mk (handSpeed s) (algorithm s) v
  end.
End Stats.

Module Item.
Record t := mk { level : Q; owned : bool }.
End Item.

Module Equipment.
Record t := mk { keyboard : Item.t; ideExtension : Item.t; debugger : Item.t; coffeeMachine : Item.t }.
End Equipment.

Module Statistics.
Record t := mk {
  totalLinesGenerated : Q;
  totalBugsDefeated : Q;
  totalPlayTime : Q;
  keystrokes : Q;
  filesOpened : Q;
  filesSaved : Q }.
Definition with_totalLinesGenerated (v : Q) (s : t) : t :=
  mk v (totalBugsDefeated s) (totalPlayTime s) (keystrokes s) (filesOpened s) (filesSaved s).
Definition with_totalBugsDefeated (v : Q) (s : t) : t :=
  mk (totalLinesGenerated s) v (totalPlayTime s) (keystrokes s) (filesOpened s) (filesSaved s).
Definition with_totalPlayTime (v : Q) (s : t) : t :=
  mk (totalLinesGenerated s) (totalBugsDefeated s) v (keystrokes s) (filesOpened s) (filesSaved s).
Definition with_keystrokes (v : Q) (s : t) : t :=
  mk (totalLinesGenerated s) (totalBugsDefeated s) (totalPlayTime s) v (filesOpened s) (filesSaved s).
Definition with_filesOpened (v : Q) (s : t) : t :=
  mk (totalLinesGenerated s) (totalBugsDefeated s) (totalPlayTime s) (keystrokes s) v (filesSaved s).
Definition with_filesSaved (v : Q) (s : t) : t :=
  mk (totalLinesGenerated s) (totalBugsDefeated s) (totalPlayTime s) (keystrokes s) (filesOpened s) v.
End Statistics.

Module Reward.
Record t := mk { linesOfCode : Q; bugFragments : Q; experience : Q }.
End Reward.

Module Bug.
Record t := mk {
  name : string;
  type : BugType;
  health : Q;
  maxHealth : Q;
  algorithm : Q;
  iteration : Q;
  reward : Reward.t }.
Definition with_health (v : Q) (b : t) : t :=
  mk (name b) (type b) v (maxHealth b) (algorithm b) (iteration b) (reward b).
End Bug.

Module Battle.
Record t := mk { currentBug : option Bug.t; isInBattle : bool }.
End Battle.

Module Settings.
Record t := mk { autoSave : bool; showNotifications : bool }.
End Settings.

Record GameState := mkGameState {
  character : Character.t;
  resources : Resources.t;
  stats : Stats.t;
  upgradeCosts : Stats.t;
  equipment : Equipment.t;
  statistics : Statistics.t;
  battle : Battle.t;
  settings : Settings.t }.

Definition upd_character (f : Character.t -> Character.t) (s : GameState) : GameState :=
  mkGameState (f (character s)) (resources s) (stats s) (upgradeCosts s)
    (equipment s) (statistics s) (battle s) (settings s).
Definition upd_resources (f : Resources.t -> Resources.t) (s : GameState) : GameState :=
  mkGameState (character s) (f (resources s)) (stats s) (upgradeCosts s)
    (equipment s) (statistics s) (battle s) (settings s).
Definition upd_stats (f : Stats.t -> Stats.t) (s : GameState) : GameState :=
  mkGameState (character s) (resources s) (f (stats s)) (upgradeCosts s)
    (equipment s) (statistics s) (battle s) (settings s).
Definition upd_upgradeCosts (f : Stats.t -> Stats.t) (s : GameState) : GameState :=
  mkGameState (character s) (resources s) (stats s) (f (upgradeCosts s))
    (equipment s) (statistics s) (battle s) (settings s).
Definition upd_statistics (f : Statistics.t -> Statistics.t) (s : GameState) : GameState :=
  mkGameState (character s) (resources s) (stats s) (upgradeCosts s)
    (equipment s) (f (statistics s)) (battle s) (settings s).
Definition set_battle (b : Battle.t) (s : GameState) : GameState :=
  mkGameState (character s) (resources s) (stats s) (upgradeCosts s)
    (equipment s) (statistics s) b (settings s).

(** Field-level assignments, named after the path they write. *)
Definition set_experience (v : Q) : GameState -> GameState :=
  upd_character (Character.with_experience v).
Definition set_level (v : Q) : GameState -> GameState :=
  upd_character (Character.with_level v).
Definition set_experienceToNext (v : Q) : GameState -> GameState :=
  upd_character (Character.with_experienceToNext v).
Definition set_linesOfCode (v : Q) : GameState -> GameState :=
  upd_resources (Resources.with_linesOfCode v).
Definition set_bugFragments (v : Q) : GameState -> GameState :=
  upd_resources (Resources.with_bugFragments v).
Definition set_currentBug (b : option Bug.t) (s : GameState) : GameState :=
  set_battle (Battle.mk b (Battle.isInBattle (battle s))) s.
Definition set_isInBattle (b : bool) (s : GameState) : GameState :=
  set_battle (Battle.mk (Battle.currentBug (battle s)) b) s.

(** Read paths. *)
Definition level_of (s : GameState) : Q := Character.level (character s).
Definition experience_of (s : GameState) : Q := Character.experience (character s).
Definition experienceToNext_of (s : GameState) : Q := Character.experienceToNext (character s).
Definition linesOfCode_of (s : GameState) : Q := Resources.linesOfCode (resources s).
Definition bugFragments_of (s : GameState) : Q := Resources.bugFragments (resources s).
Definition currentBug_of (s : GameState) : option Bug.t := Battle.currentBug (battle s).
Definition isInBattle_of (s : GameState) : bool := Battle.isInBattle (battle s).

(** ** The world a method runs in *)

(** What [vscode.window.showInformationMessage] is called with: the values
    interpolated into the message text. *)
Inductive Notification :=
| BugDefeated (bugName : string) (loc fragments : Q)
| LevelReached (newLevel : Q).

(** A value returned by [Math.random()]: a number in [0, 1). *)
Definition inUnit (q : Q) : bool := Qle_bool 0 q && Qltb q 1.
Record Rand := mkRand { rval : Q; rval_unit : inUnit rval = true }.

Record World := mkWorld {
  gameState : GameState;                 (* this.gameState *)
  globalState : option GameState;        (* context.globalState under saveKey *)
  shown : list Notification;             (* notifications, oldest first *)
  randomSource : nat -> Rand;            (* the sequence Math.random() yields *)
  randomsDrawn : nat }.                  (* how many of them were consumed *)

Definition M (A : Type) : Type := World -> A * World.

Definition ret {A} (x : A) : M A := fun w => (x, w).
Definition bind {A B} (m : M A) (k : A -> M B) : M B :=
  fun w => let (x, w') := m w in k x w'.
Definition exec {A} (m : M A) (w : World) : World := snd (m w).
Definition result {A} (m : M A) (w : World) : A := fst (m w).

Declare Scope m_scope.
Delimit Scope m_scope with M.
Notation "x <- m ;; k" := (bind m (fun x => k))
  (at level 20, m at level 99, k at level 200, only parsing) : m_scope.
Notation "m ;; k" := (bind m (fun _ => k))
  (at level 100, k at level 200, only parsing) : m_scope.

Definition getState : M GameState := fun w => (gameState w, w).
Definition modify (f : GameState -> GameState) : M unit :=
  fun w => (tt, mkWorld (f (gameState w)) (globalState w) (shown w)
                  (randomSource w) (randomsDrawn w)).
Definition Math_random : M Q :=
  fun w => (rval (randomSource w (randomsDrawn w)),
            mkWorld (gameState w) (globalState w) (shown w)
              (randomSource w) (S (randomsDrawn w))).
Definition showInformationMessage (n : Notification) : M unit :=
  fun w => (tt, mkWorld (gameState w) (globalState w) (shown w ++ [n])
                  (randomSource w) (randomsDrawn w)).
Definition when (b : bool) (m : M unit) : M unit := if b then m else ret tt.

(** A [while] loop: [None] when [fuel] iterations did not reach a state
    in which the condition is false. *)
Fixpoint while (fuel : nat) (cond : World -> bool) (body : M unit) (w : World)
  : option World :=
  if cond w then
    match fuel with
    | O => None
    | S fuel' => while fuel' cond body (exec body w)
    end
  else Some w.

Local Open Scope m_scope.

(** ** GameStateManager *)

Definition createDefaultGameState : GameState :=
  {| character := Character.mk "代码勇者" 1 0 100;
     resources := Resources.mk 0 0;
     stats := Stats.mk 1 5 3;
     upgradeCosts := Stats.mk 50 30 40;
     equipment := Equipment.mk (Item.mk 1 false) (Item.mk 1 false)
                    (Item.mk 1 false) (Item.mk 1 false);
     statistics := Statistics.mk 0 0 0 0 0 0;
     battle := Battle.mk None false;
     settings := Settings.mk true true |}.

(** [globalState.update(saveKey, this.gameState)]: the store holds the
    state as it is at the call. *)
Definition saveGameState : M unit :=
  fun w => (tt, mkWorld (gameState w) (Some (gameState w)) (shown w)
                  (randomSource w) (randomsDrawn w)).

Definition resetGame : M unit :=
  modify (fun _ => createDefaultGameState) ;;
  saveGameState.

Definition calculateLocPerSecond : M Q :=
  s <- getState ;;
  let baseRate := Stats.handSpeed (stats s) in
  let ide := Equipment.ideExtension (equipment s) in
  let baseRate :=
    if Item.owned ide then baseRate * (1 + Item.level ide * 0.1) else baseRate in
  ret baseRate.

Definition calculateFragmentsPerBug (baseBugFragments : Q) : M Q :=
  s <- getState ;;
  let fragmentBonus :=
    inject_Z (Qfloor (baseBugFragments * Stats.iteration (stats s) * 0.1)) in
  ret (baseBugFragments + fragmentBonus).

Definition defeatBug (bug : Bug.t) : M unit :=
  modify (fun s => set_linesOfCode
            (linesOfCode_of s + Reward.linesOfCode (Bug.reward bug)) s) ;;
  s <- getState ;;
  let fragmentBonus :=
    inject_Z (Qfloor (Reward.bugFragments (Bug.reward bug)
                      * Stats.iteration (stats s) * 0.1)) in
  let totalFragments := Reward.bugFragments (Bug.reward bug) + fragmentBonus in
  modify (fun s => set_bugFragments (bugFragments_of s + totalFragments) s) ;;
  modify (fun s => set_experience
            (experience_of s + Reward.experience (Bug.reward bug)) s) ;;
  modify (upd_statistics (fun st =>
            Statistics.with_totalBugsDefeated (Statistics.totalBugsDefeated st + 1) st)) ;;
  modify (set_currentBug None) ;;
  modify (set_isInBattle false) ;;
  s <- getState ;;
  when (Settings.showNotifications (settings s))
    (showInformationMessage
       (BugDefeated (Bug.name bug) (Reward.linesOfCode (Bug.reward bug)) totalFragments)).

(** [bug] is the object held in [battle.currentBug]: the assignment to
    [bug.health] is written back to the slot. *)
Definition processBattle : M unit :=
  s <- getState ;;
  match negb (isInBattle_of s), currentBug_of s with
  | false, Some bug =>
      let playerAlgorithm := Stats.algorithm (stats s) in
      let damage := Qmax 1 (playerAlgorithm - Bug.iteration bug) in
      let bug := Bug.with_health (Bug.health bug - damage) bug in
      modify (set_currentBug (Some bug)) ;;
      if Qle_bool (Bug.health bug) 0 then defeatBug bug else ret tt
  | _, _ => ret tt
  end.

Definition getBugDisplayName (type : BugType) : string :=
  match type with
  | NullPointerException => "空指针异常怪"
  | MemoryLeak => "内存泄漏虫"
  | InfiniteLoop => "死循环魔"
  | SyntaxError => "语法错误精"
  | RuntimeError => "运行时异常兽"
  end.

Definition createBug (type : BugType) : M Bug.t :=
  s <- getState ;;
  let baseHealth := 10 + level_of s * 5 in
  let baseAlgorithm := 5 + level_of s * 2 in
  let baseReward := Qmax 1 (inject_Z (Qfloor (level_of s / 2))) in
  ret {| Bug.name := getBugDisplayName type;
         Bug.type := type;
         Bug.health := baseHealth;
         Bug.maxHealth := baseHealth;
         Bug.algorithm := baseAlgorithm;
         Bug.iteration := inject_Z (Qfloor (baseAlgorithm * 0.2));
         Bug.reward := Reward.mk (baseReward * 10) baseReward (baseReward * 5) |}.

Definition bugTypes : list BugType :=
  [NullPointerException; MemoryLeak; InfiniteLoop; SyntaxError; RuntimeError].

(** [bugTypes[i]]; the index is in range for every value of [Math.random]
    (lemma [bugTypes_index_in_range]). *)
Definition bugTypes_at (i : Z) : BugType := nth (Z.to_nat i) bugTypes RuntimeError.

Definition spawnRandomBug : M unit :=
  r <- Math_random ;;
  let randomType :=
    bugTypes_at (Qfloor (r * inject_Z (Z.of_nat (length bugTypes)))) in
  bug <- createBug randomType ;;
  modify (set_currentBug (Some bug)) ;;
  modify (set_isInBattle true).

Definition calculateExperienceForNextLevel : M Q :=
  s <- getState ;;
  ret (100 + (level_of s - 1) * 50).

Definition levelUpCondition (w : World) : bool :=
  Qle_bool (experienceToNext_of (gameState w)) (experience_of (gameState w)).

Definition levelUpBody : M unit :=
  modify (fun s => set_experience (experience_of s - experienceToNext_of s) s) ;;
  modify (fun s => set_level (level_of s + 1) s) ;;
  next <- calculateExperienceForNextLevel ;;
  modify (set_experienceToNext next) ;;
  modify (upd_stats (fun st => Stats.set HandSpeed (Stats.handSpeed st + 1) st)) ;;
  modify (upd_stats (fun st => Stats.set Algorithm (Stats.algorithm st + 2) st)) ;;
  modify (upd_stats (fun st => Stats.set Iteration (Stats.iteration st + 1) st)) ;;
  s <- getState ;;
  when (Settings.showNotifications (settings s))
    (showInformationMessage (LevelReached (level_of s))).

(** The threshold is the one [calculateExperienceForNextLevel] gives for
    the level: true of the default state and after every level-up. *)
Definition thresholdFromLevel (s : GameState) : Prop :=
  experienceToNext_of s == 100 + (level_of s - 1) * 50.

(** An upper bound on the number of iterations of the loop of
    [checkLevelUp] from a state whose threshold was computed from its
    level: the levels still to gain before the level is non-negative,
    squared, plus the number of fifties in the experience. *)
Definition levelUpPotential (s : GameState) : Z :=
  let k := Z.max 0 (Qceiling (- level_of s)) in
  (Z.max 0 (Qceiling (experience_of s * (1 # 50))) + k * k)%Z.

Definition levelUpFuel (w : World) : nat :=
  S (S (Z.to_nat (levelUpPotential (gameState (exec levelUpBody w))))).

(** The loop runs on [levelUpFuel] iterations, which is enough from every
    state (lemma [checkLevelUp_loop_terminates]): the second branch is
    never taken. *)
Definition checkLevelUp : M unit :=
  fun w =>
    match while (levelUpFuel w) levelUpCondition levelUpBody w with
    | Some w' => (tt, w')
    | None => (tt, w)
    end.

Definition updateGameState : M unit :=
  locPerSecond <- calculateLocPerSecond ;;
  modify (fun s => set_linesOfCode (linesOfCode_of s + locPerSecond) s) ;;
  modify (upd_statistics (fun st =>
    Statistics.with_totalLinesGenerated (Statistics.totalLinesGenerated st + locPerSecond) st)) ;;
  modify (upd_statistics (fun st =>
    Statistics.with_totalPlayTime (Statistics.totalPlayTime st + 1) st)) ;;
  processBattle ;;
  s <- getState ;;
  (if negb (isInBattle_of s)
   then r <- Math_random ;; when (Qltb r 0.1) spawnRandomBug
   else ret tt) ;;
  checkLevelUp ;;
  s <- getState ;;
  when (Settings.autoSave (settings s)) saveGameState.

Definition buyUpgrade (upgradeType : UpgradeType) : M bool :=
  s <- getState ;;
  let cost := Stats.get upgradeType (upgradeCosts s) in
  if Qle_bool cost (linesOfCode_of s) then
    modify (fun s => set_linesOfCode (linesOfCode_of s - cost) s) ;;
    modify (upd_stats (fun st =>
      Stats.set upgradeType
        (Stats.get upgradeType st
         + match upgradeType with HandSpeed => 1 | _ => 2 end) st)) ;;
    modify (upd_upgradeCosts (Stats.set upgradeType (inject_Z (Qfloor (cost * 1.5))))) ;;
    ret true
  else ret false.

Definition onEditorInteraction (type : InteractionType) : M unit :=
  match type with
  | Keystroke =>
      modify (upd_statistics (fun st =>
        Statistics.with_keystrokes (Statistics.keystrokes st + 1) st)) ;;
      r <- Math_random ;;
      if Qltb r 0.1 then
        s <- getState ;;
        let bonus := 1 in
        let kb := Equipment.keyboard (equipment s) in
        let bonus := if Item.owned kb then bonus * (1 + Item.level kb * 0.2) else bonus in
        modify (fun s => set_linesOfCode (linesOfCode_of s + bonus) s)
      else ret tt
  | FileOpen =>
      modify (upd_statistics (fun st =>
        Statistics.with_filesOpened (Statistics.filesOpened st + 1) st))
  | FileSave =>
      modify (upd_statistics (fun st =>
        Statistics.with_filesSaved (Statistics.filesSaved st + 1) st)) ;;
      r <- Math_random ;;
      let saveBonus := 5 + inject_Z (Qfloor (r * 10)) in
      modify (fun s => set_linesOfCode (linesOfCode_of s + saveBonus) s) ;;
      modify (fun s => set_experience (experience_of s + 2) s)
  end.

(** ** Sequences of public operations *)

Inductive Op :=
| Tick
| Buy (upgradeType : UpgradeType)
| Interact (type : InteractionType)
| Reset
| Save.

Definition runOp (o : Op) : M unit :=
  match o with
  | Tick => updateGameState
  | Buy t => _ <- buyUpgrade t ;; ret tt
  | Interact k => onEditorInteraction k
  | Reset => resetGame
  | Save => saveGameState
  end.

Fixpoint runOps (ops : list Op) (w : World) : World :=
  match ops with
  | [] => w
  | o :: rest => runOps rest (exec (runOp o) w)
  end.

Definition UpgradeType_eqb (a b : UpgradeType) : bool :=
  match a, b with
  | HandSpeed, HandSpeed | Algorithm, Algorithm | Iteration, Iteration => true
  | _, _ => false
  end.

(** The number of purchases of [t] that succeeded while running [ops] from
    [w], counted from the last reset ([n] is the count so far). *)
Fixpoint purchasesOf (t : UpgradeType) (ops : list Op) (w : World) (n : nat) : nat :=
  match ops with
  | [] => n
  | o :: rest =>
      let n' :=
        match o with
        | Buy t' => if UpgradeType_eqb t t' && result (buyUpgrade t') w then S n else n
        | Reset => O
        | _ => n
        end in
      purchasesOf t rest (exec (runOp o) w) n'
  end.

(** One purchase's effect on a cost, [Math.floor(cost * 1.5)], and its
    [n]-fold iteration. *)
Definition scaleCost (cost : Q) : Q := inject_Z (Qfloor (cost * 1.5)).
Definition costAfter (n : nat) (initialCost : Q) : Q := Nat.iter n scaleCost initialCost.

(** The closed form of the specification, [floor(initialCost * 1.5^n)]. *)
Definition closedFormCost (n : nat) (initialCost : Q) : Q :=
  inject_Z (Qfloor (initialCost * 1.5 ^ Z.of_nat n)).

(** ** The tick as the specification phrases it

    Accrual, combat resolution, spawn check, level-up check, conditional
    autosave.  The accrual is written from the specification's words:
    production is [productionStat * (1 + equipmentBonus)], the bonus being
    [level * 0.1] of the IDE extension when owned and [0] otherwise. *)

Definition accrualPhase : M unit :=
  s <- getState ;;
  let ide := Equipment.ideExtension (equipment s) in
  let equipmentBonus := if Item.owned ide then Item.level ide * 0.1 else 0 in
  let production := Stats.handSpeed (stats s) * (1 + equipmentBonus) in
  modify (fun s => set_linesOfCode (linesOfCode_of s + production) s) ;;
  modify (upd_statistics (fun st =>
    Statistics.with_totalLinesGenerated (Statistics.totalLinesGenerated st + production) st)) ;;
  modify (upd_statistics (fun st =>
    Statistics.with_totalPlayTime (Statistics.totalPlayTime st + 1) st)).

(** The specification leaves the spawn probability open between 5% and
    10%; the tick uses 10%. *)
Definition spawnProbability : Q := 0.1.

Definition spawnPhase : M unit :=
  s <- getState ;;
  if isInBattle_of s then ret tt
  else
    r <- Math_random ;;
    if Qltb r spawnProbability then spawnRandomBug else ret tt.

Definition autosavePhase : M unit :=
  s <- getState ;;
  if Settings.autoSave (settings s) then saveGameState else ret tt.

Definition tickPhases : M unit :=
  accrualPhase ;; processBattle ;; spawnPhase ;; checkLevelUp ;; autosavePhase.

(** ** Persisted blobs and the migration of [loadGameState] *)

#[warnings="-register-all"]
Inductive JSValue :=
| JNull
| JBool (b : bool)
| JNum (q : Q)
| JStr (s : string)
| JArr (items : list JSValue)
| JObj (props : gmap string JSValue).

(** [if (v)]. *)
Definition truthy (v : JSValue) : bool :=
  match v with
  | JNull => false
  | JBool b => b
  | JNum q => negb (Qeq_bool q 0)
  | JStr s => negb (String.eqb s "")
  | JArr _ | JObj _ => true
  end.

(** [o.k]: [None] is [undefined].  Only objects carry the keys of the
    schema. *)
Definition getProp (k : string) (o : JSValue) : option JSValue :=
  match o with
  | JObj props => props !! k
  | _ => None
  end.

(** [o.k = v] and [delete o.k]. *)
Definition setProp (k : string) (v : JSValue) (o : JSValue) : JSValue :=
  match o with
  | JObj props => JObj (<[k := v]> props)
  | _ => o
  end.
Definition deleteProp (k : string) (o : JSValue) : JSValue :=
  match o with
  | JObj props => JObj (delete k props)
  | _ => o
  end.

(** [if (o.old !== undefined) { o.new = o.old; delete o.old; }] *)
Definition renameProp (old new : string) (o : JSValue) : JSValue :=
  match getProp old o with
  | Some v => deleteProp old (setProp new v o)
  | None => o
  end.

(** The body of [if (savedState) { ... }].  The nested objects are
    mutated in place, so each block writes its object back under the key
    it was read from. *)
Definition migrateSavedState (savedState : JSValue) : JSValue :=
  let savedState :=
    match getProp "stats" savedState with
    | Some stats =>
        if truthy stats then
          let stats := renameProp "computingPower" "handSpeed" stats in
          let stats := renameProp "attack" "algorithm" stats in
          let stats := renameProp "defense" "iteration" stats in
          setProp "stats" stats savedState
        else savedState
    | None => savedState
    end in
  let savedState :=
    match getProp "upgradeCosts" savedState with
    | Some costs =>
        if truthy costs then
          let costs := renameProp "computingPower" "handSpeed" costs in
          let costs := renameProp "attack" "algorithm" costs in
          let costs := renameProp "defense" "iteration" costs in
          setProp "upgradeCosts" costs savedState
        else savedState
    | None => savedState
    end in
  match getProp "battle" savedState with
  | Some battle =>
      match getProp "currentBug" battle with
      | Some bug =>
          if truthy bug then
            let bug := renameProp "attack" "algorithm" bug in
            let bug := renameProp "defense" "iteration" bug in
            setProp "battle" (setProp "currentBug" bug battle) savedState
          else savedState
      | None => savedState
      end
  | None => savedState
  end.

(** [loadGameState] returns the migrated blob, cast to [GameState] without
    any check, or the default state when nothing usable was stored. *)
Inductive Loaded :=
| FromSave (blob : JSValue)
| Fresh (state : GameState).

Definition loadGameState (stored : option JSValue) : Loaded :=
  match stored with
  | Some savedState =>
      if truthy savedState then FromSave (migrateSavedState savedState)
      else Fresh createDefaultGameState
  | None => Fresh createDefaultGameState
  end.

(** The object found by following [path] from [v]. *)
Fixpoint getPath (path : list string) (v : JSValue) : option JSValue :=
  match path with
  | [] => Some v
  | k :: rest =>
      match getProp k v with
      | Some child => getPath rest child
      | None => None
      end
  end.

(** Apply [f] to the object found by following [path], in place. *)
Fixpoint updatePath (path : list string) (f : JSValue -> JSValue) (v : JSValue) : JSValue :=
  match path with
  | [] => f v
  | k :: rest =>
      match getProp k v with
      | Some child => setProp k (updatePath rest f child) v
      | None => v
      end
  end.

(** The deprecated keys: where they live, their old and current names. *)
Record Rename := mkRename { location : list string; oldKey : string; newKey : string }.

Definition statsRenames : list Rename :=
  [ mkRename ["stats"] "computingPower" "handSpeed";
    mkRename ["stats"] "attack" "algorithm";
    mkRename ["stats"] "defense" "iteration" ].
Definition costRenames : list Rename :=
  [ mkRename ["upgradeCosts"] "computingPower" "handSpeed";
    mkRename ["upgradeCosts"] "attack" "algorithm";
    mkRename ["upgradeCosts"] "defense" "iteration" ].
Definition bugRenames : list Rename :=
  [ mkRename ["battle"; "currentBug"] "attack" "algorithm";
    mkRename ["battle"; "currentBug"] "defense" "iteration" ].
Definition renames : list Rename := statsRenames ++ costRenames ++ bugRenames.

Definition applyRename (r : Rename) (v : JSValue) : JSValue :=
  updatePath (location r) (renameProp (oldKey r) (newKey r)) v.

(** The renames of [rs], the first of the list applied first. *)
Definition applyRenames (rs : list Rename) (v : JSValue) : JSValue :=
  fold_left (fun u r => applyRename r u) rs v.

(** Two renames that cannot interfere: they work under different
    top-level keys, or on the same object with four different keys. *)
Definition independentb (r r' : Rename) : bool :=
  match location r, location r' with
  | k :: _, k' :: _ =>
      negb (String.eqb k k')
      || (if decide (location r = location r') then
            negb (String.eqb (oldKey r) (oldKey r'))
            && negb (String.eqb (oldKey r) (newKey r'))
            && negb (String.eqb (newKey r) (oldKey r'))
            && negb (String.eqb (newKey r) (newKey r'))
          else false)
  | _, _ => false
  end.

(** [valueAt path k v] is the value of key [k] of the object at [path]. *)
Definition valueAt (path : list string) (k : string) (v : JSValue) : option JSValue :=
  match getPath path v with
  | Some o => getProp k o
  | None => None
  end.

Definition hasDeprecated (r : Rename) (v : JSValue) : bool :=
  match valueAt (location r) (oldKey r) v with
  | Some _ => true
  | None => false
  end.

(** The deprecated keys present in a blob. *)
Definition deprecatedKeys (v : JSValue) : list Rename :=
  List.filter (fun r => hasDeprecated r v) renames.

(** ** The experience scenario *)

Definition grantExperience (amount : Q) : M unit :=
  modify (fun s => set_experience (experience_of s + amount) s).

Definition scenarioWorld (rs : nat -> Rand) : World :=
  mkWorld (set_experience 95 createDefaultGameState) None [] rs 0.

(** Sample values of [Math.random] and constant random sources. *)
Definition half : Rand := mkRand 0.5 eq_refl.
Definition low : Rand := mkRand 0.05 eq_refl.
Definition high : Rand := mkRand 0.9 eq_refl.
Definition always (r : Rand) : nat -> Rand := fun _ => r.

(** Two samples that are doubles: a sixteenth, below the spawn
    probability, and three quarters, above it ([half] is a double too). *)
Definition lowDouble : Rand := mkRand 0.0625 eq_refl.
Definition highDouble : Rand := mkRand 0.75 eq_refl.

(** ** Frames: what an operation leaves alone *)

(** Nothing but the game state differs between [w] and [w']. *)
Definition sameOutsideState (w w' : World) : Prop :=
  globalState w' = globalState w /\ shown w' = shown w
  /\ randomSource w' = randomSource w /\ randomsDrawn w' = randomsDrawn w.

(** What the level-up loop never writes. *)
Definition sameOutsideLevelUp (w w' : World) : Prop :=
  resources (gameState w') = resources (gameState w)
  /\ upgradeCosts (gameState w') = upgradeCosts (gameState w)
  /\ equipment (gameState w') = equipment (gameState w)
  /\ statistics (gameState w') = statistics (gameState w)
  /\ battle (gameState w') = battle (gameState w)
  /\ settings (gameState w') = settings (gameState w)
  /\ globalState w' = globalState w
  /\ randomSource w' = randomSource w
  /\ randomsDrawn w' = randomsDrawn w.

(** What the spawn check never writes. *)
Definition sameOutsideBattle (w w' : World) : Prop :=
  character (gameState w') = character (gameState w)
  /\ resources (gameState w') = resources (gameState w)
  /\ stats (gameState w') = stats (gameState w)
  /\ upgradeCosts (gameState w') = upgradeCosts (gameState w)
  /\ equipment (gameState w') = equipment (gameState w)
  /\ statistics (gameState w') = statistics (gameState w)
  /\ settings (gameState w') = settings (gameState w)
  /\ globalState w' = globalState w
  /\ shown w' = shown w
  /\ randomSource w' = randomSource w.

(** The battle flag agrees with the encounter slot. *)
Definition battleConsistent (s : GameState) : Prop :=
  isInBattle_of s = true <-> currentBug_of s <> None.

(** The combat scenario: an encounter with 4 health and a defence of 1
    faces the default player, whose [algorithm] is 5. *)
Definition scenarioBug : Bug.t :=
  Bug.mk (getBugDisplayName SyntaxError) SyntaxError 4 15 7 1 (Reward.mk 10 1 5).

Definition battleWorld (rs : nat -> Rand) : World :=
  mkWorld (set_battle (Battle.mk (Some scenarioBug) true) createDefaultGameState)
    None [] rs 0.

(** The same encounter met with 99 experience: its 5 experience points
    carry the player over the threshold of 100. *)
Definition killLevelUpWorld (rs : nat -> Rand) : World :=
  mkWorld (set_experience 99
             (set_battle (Battle.mk (Some scenarioBug) true) createDefaultGameState))
    None [] rs 0.

(** ** A ledger of encounters

    [tickDefeats w] and [tickSpawns w] tell whether the tick started in
    [w] calls [defeatBug], respectively [spawnRandomBug]: they are the
    guards of [processBattle] and of the spawn check, read where the tick
    evaluates them. *)

Definition afterCombat (w : World) : World :=
  exec processBattle (exec accrualPhase w).

Definition tickDefeats (w : World) : bool :=
  let s := gameState (exec accrualPhase w) in
  match isInBattle_of s, currentBug_of s with
  | true, Some bug =>
      Qle_bool
        (Bug.health bug - Qmax 1 (Stats.algorithm (stats s) - Bug.iteration bug)) 0
  | _, _ => false
  end.

Definition tickSpawns (w : World) : bool :=
  let wb := afterCombat w in
  negb (isInBattle_of (gameState wb))
  && Qltb (rval (randomSource wb (randomsDrawn wb))) 0.1.

Definition count (b : bool) : Z := if b then 1%Z else 0%Z.

(** Encounters spawned and not yet defeated (or wiped by a reset) after
    running [ops] from [w], [alive] of them being there at the start. *)
Fixpoint encountersAlive (ops : list Op) (w : World) (alive : Z) : Z :=
  match ops with
  | [] => alive
  | o :: rest =>
      let alive' :=
        match o with
        | Tick => (alive - count (tickDefeats w) + count (tickSpawns w))%Z
        | Reset => 0%Z
        | _ => alive
        end in
      encountersAlive rest (exec (runOp o) w) alive'
  end.

(** Encounters held by the state: the content of its single slot. *)
Definition activeEncounters (s : GameState) : Z :=
  match currentBug_of s with Some _ => 1%Z | None => 0%Z end.

(** The cost of each stat in the default state. *)
Definition initialCost (t : UpgradeType) : Q :=
  Stats.get t (upgradeCosts createDefaultGameState).

(** Eleven file saves earn the lines of code for three purchases. *)
Definition threePurchases : list Op :=
  repeat (Interact FileSave) 11 ++ [Buy Algorithm; Buy Algorithm; Buy Algorithm].

(** A blob saved by an old version, and the same blob in the current
    schema. *)
Definition obj (fields : list (string * JSValue)) : JSValue :=
  JObj (list_to_map fields).

Definition legacyBlob : JSValue :=
  obj [("stats", obj [("computingPower", JNum 2); ("attack", JNum 7)]);
       ("upgradeCosts", obj [("defense", JNum 60); ("handSpeed", JNum 50)]);
       ("battle", obj [("currentBug", obj [("attack", JNum 7); ("defense", JNum 1);
                                           ("health", JNum 4)]);
                       ("isInBattle", JBool true)]);
       ("extra", JStr "kept")].

Definition currentBlob : JSValue :=
  obj [("stats", obj [("handSpeed", JNum 2); ("algorithm", JNum 7)]);
       ("upgradeCosts", obj [("iteration", JNum 60); ("handSpeed", JNum 50)]);
       ("battle", obj [("currentBug", obj [("algorithm", JNum 7); ("iteration", JNum 1);
                                           ("health", JNum 4)]);
                       ("isInBattle", JBool true)]);
       ("extra", JStr "kept")].

(** ** Further vocabulary for runs of the engine *)

(** What a level-up adds to each stat, what a purchase adds, and the
    stat's value in the default state. *)
Definition statPerLevel (t : UpgradeType) : Q :=
  match t with HandSpeed => 1 | Algorithm => 2 | Iteration => 1 end.
Definition statPerPurchase (t : UpgradeType) : Q :=
  match t with HandSpeed => 1 | _ => 2 end.
Definition initialStat (t : UpgradeType) : Q :=
  Stats.get t (stats createDefaultGameState).


(** The levels announced by [k] successive level-ups from [level]. *)
Fixpoint levelsReached (k : nat) (level : Q) : list Q :=
  match k with
  | O => []
  | S k' => (level + 1) :: levelsReached k' (level + 1)
  end.

(** Ticks, and interactions of a kind, since the last reset of [ops]
    ([n] is the count so far). *)
Fixpoint ticksOf (ops : list Op) (n : nat) : nat :=
  match ops with
  | [] => n
  | Tick :: rest => ticksOf rest (S n)
  | Reset :: rest => ticksOf rest O
  | _ :: rest => ticksOf rest n
  end.

Definition InteractionType_eqb (a b : InteractionType) : bool :=
  match a, b with
  | Keystroke, Keystroke | FileOpen, FileOpen | FileSave, FileSave => true
  | _, _ => false
  end.

Fixpoint interactionsOf (k : InteractionType) (ops : list Op) (n : nat) : nat :=
  match ops with
  | [] => n
  | Interact k' :: rest => interactionsOf k rest (if InteractionType_eqb k k' then S n else n)
  | Reset :: rest => interactionsOf k rest O
  | _ :: rest => interactionsOf k rest n
  end.

(** Ticks of [ops], run from [w], that defeated an encounter, since the
    last reset. *)
Fixpoint defeatsOf (ops : list Op) (w : World) (n : nat) : nat :=
  match ops with
  | [] => n
  | o :: rest =>
      let n' :=
        match o with
        | Tick => if tickDefeats w then S n else n
        | Reset => O
        | _ => n
        end in
      defeatsOf rest (exec (runOp o) w) n'
  end.

(** The guard of [processBattle]: the blow of this call defeats the
    active encounter. *)
Definition combatDefeats (w : World) : bool :=
  let s := gameState w in
  match isInBattle_of s, currentBug_of s with
  | true, Some bug =>
      Qle_bool
        (Bug.health bug - Qmax 1 (Stats.algorithm (stats s) - Bug.iteration bug)) 0
  | _, _ => false
  end.

(** The numbers an operation takes from [Math.random]. *)
Definition drawsOf (o : Op) (w : World) : nat :=
  match o with
  | Tick =>
      if isInBattle_of (gameState (afterCombat w)) then 0
      else if tickSpawns w then 2 else 1
  | Interact Keystroke | Interact FileSave => 1
  | _ => 0
  end%nat.

(** The state a run from the default state must be in. *)
Definition rewardAtLeastBase (b : Bug.t) : Prop :=
  10 <= Reward.linesOfCode (Bug.reward b)
  /\ 1 <= Reward.bugFragments (Bug.reward b)
  /\ 5 <= Reward.experience (Bug.reward b).

Definition wellFormed (s : GameState) : Prop :=
  1 <= level_of s
  /\ 0 <= experience_of s
  /\ thresholdFromLevel s
  /\ 0 <= linesOfCode_of s
  /\ Statistics.totalBugsDefeated (statistics s) <= bugFragments_of s
  /\ 1 <= Stats.handSpeed (stats s)
  /\ 5 <= Stats.algorithm (stats s)
  /\ 3 <= Stats.iteration (stats s)
  /\ 50 <= Stats.handSpeed (upgradeCosts s)
  /\ 30 <= Stats.algorithm (upgradeCosts s)
  /\ 40 <= Stats.iteration (upgradeCosts s)
  /\ 0 <= Statistics.totalLinesGenerated (statistics s)
  /\ 0 <= Statistics.totalBugsDefeated (statistics s)
  /\ 0 <= Statistics.totalPlayTime (statistics s)
  /\ 0 <= Statistics.keystrokes (statistics s)
  /\ 0 <= Statistics.filesOpened (statistics s)
  /\ 0 <= Statistics.filesSaved (statistics s)
  /\ equipment s = equipment createDefaultGameState
  /\ settings s = settings createDefaultGameState
  /\ match currentBug_of s with Some b => rewardAtLeastBase b | None => True end.

(** ** What the game panel computes

    From [getWebviewContent] of the view provider: the play time shown as
    minutes and seconds. *)

(** [getGameState] hands out a copy of the state. *)
Definition getGameState : M GameState := getState.

(** [a % b] on numbers: the remainder has the sign of [a]. *)
Definition Qtruncate (q : Q) : Z := if Qle_bool 0 q then Qfloor q else Qceiling q.
Definition jsRemainder (a b : Q) : Q := a - b * inject_Z (Qtruncate (a / b)).

Definition displayedMinutes (s : GameState) : Q :=
  inject_Z (Qfloor (Statistics.totalPlayTime (statistics s) / 60)).
Definition displayedSeconds (s : GameState) : Q :=
  jsRemainder (Statistics.totalPlayTime (statistics s)) 60.

(** ** EditorListener

    The listener of document changes.  Of a change only the length of the
    inserted text and the length of the replaced range are read; of the
    document, whether each of the four risky patterns occurs in its text
    (the outcome of [pattern.test(content)], given with the event).  The
    file extension and its multiplier are computed and handed to
    [onEditorInteraction] as its [data] argument, which that method never
    reads.  A warning shown by [triggerSpecialBugEvent] is recorded beside
    the manager's world. *)

Record ContentChange := mkChange {
  textLength : Z;       (* change.text.length *)
  rangeLength : Z }.    (* change.rangeLength *)

Record ChangeEvent := mkChangeEvent {
  contentChanges : list ContentChange;
  patternFound : BugType -> bool }.

Record EditorWorld := mkEditorWorld {
  game : World;
  warnings : list BugType }.

Definition totalCharactersAdded (changes : list ContentChange) : Z :=
  fold_left
    (fun total change =>
       let netChange := (textLength change - rangeLength change)%Z in
       if (0 <? netChange)%Z then (total + netChange)%Z else total)
    changes 0%Z.

Definition keystroke (e : EditorWorld) : EditorWorld :=
  mkEditorWorld (exec (onEditorInteraction Keystroke) (game e)) (warnings e).

(** The bug types of the patterns, in the order they are tried. *)
Definition specialPatterns : list BugType :=
  [NullPointerException; InfiniteLoop; MemoryLeak; RuntimeError].

Definition triggerSpecialBugEvent (bugType : BugType) (e : EditorWorld) : EditorWorld :=
  mkEditorWorld (game e) (warnings e ++ [bugType]).

(** One turn of the loop over the patterns. *)
Definition checkPattern (found : BugType -> bool) (e : EditorWorld) (bugType : BugType)
  : EditorWorld :=
  if found bugType then
    let (r, g) := Math_random (game e) in
    let e' := mkEditorWorld g (warnings e) in
    if Qltb r 0.05 then triggerSpecialBugEvent bugType e' else e'
  else e.

Definition checkSpecialEvents (found : BugType -> bool) (e : EditorWorld) : EditorWorld :=
  fold_left (checkPattern found) specialPatterns e.

Definition onTextDocumentChange (event : ChangeEvent) (e : EditorWorld) : EditorWorld :=
  match contentChanges event with
  | [] => e
  | _ =>
      let total := totalCharactersAdded (contentChanges event) in
      let e := Nat.iter (Z.to_nat total) keystroke e in
      checkSpecialEvents (patternFound event) e
  end.

(** The sum of a list of integers. *)
Definition list_sum_Z (l : list Z) : Z := fold_right Z.add 0%Z l.

(** ** Whole numbers

    [whole q]: the number [q] is an integer.  The status bar and the tree
    view show [Math.floor(linesOfCode)]. *)

Definition whole (q : Q) : Prop := exists z : Z, q == inject_Z z.

Definition shownLinesOfCode (s : GameState) : Q :=
  inject_Z (Qfloor (linesOfCode_of s)).

Definition wholeNumbers (s : GameState) : Prop :=
  whole (level_of s) /\ whole (experience_of s) /\ whole (experienceToNext_of s)
  /\ whole (linesOfCode_of s) /\ whole (bugFragments_of s)
  /\ whole (Stats.handSpeed (stats s)) /\ whole (Stats.algorithm (stats s))
  /\ whole (Stats.iteration (stats s))
  /\ whole (Stats.handSpeed (upgradeCosts s)) /\ whole (Stats.algorithm (upgradeCosts s))
  /\ whole (Stats.iteration (upgradeCosts s))
  /\ whole (Statistics.totalLinesGenerated (statistics s))
  /\ equipment s = equipment createDefaultGameState
  /\ match currentBug_of s with
     | Some b =>
         whole (Reward.linesOfCode (Bug.reward b))
         /\ whole (Reward.bugFragments (Bug.reward b))
         /\ whole (Reward.experience (Bug.reward b))
     | None => True
     end.

(** ** Numbers as the machine holds them: IEEE 754 doubles

    A TypeScript [number] is a binary64 floating-point number: a
    significand of 53 bits, exponents down to [-1074], and every
    arithmetic result rounded to the nearest such number, ties to the one
    with the even significand.  [round64] is that rounding on the
    rationals.  It covers the finite doubles: a result of magnitude
    [2^1024] or more, which the machine replaces by [Infinity], is outside
    it, and so are [NaN] and the sign of zero.  A statement about the
    machine's arithmetic that leaves the numbers of the state free keeps
    them at most [2^500] in magnitude ([finiteState]), so that no operation
    of a call comes near that limit. *)

Definition pow2 (k : Z) : Q := 2 ^ k.

(** The binary order of magnitude of a positive number: the [L] with
    [2^L <= x < 2^(L+1)] (lemma [magnitude_spec]). *)
Definition magnitude (x : Q) : Z :=
  let a := (Z.log2 (Qnum x) - Z.log2 (Zpos (Qden x)))%Z in
  if Qle_bool (pow2 a) x then a else (a - 1)%Z.

(** The nearest integer, the even one of two equally near. *)
Definition roundHalfEven (q : Q) : Z :=
  let f := Qfloor q in
  match Qcompare (q - inject_Z f) (1 # 2) with
  | Lt => f
  | Gt => (f + 1)%Z
  | Eq => if Z.even f then f else (f + 1)%Z
  end.

(** The exponent of the last place of the double nearest to [x]. *)
Definition ulpExponent (x : Q) : Z := Z.max (-1074) (magnitude x - 52).

Definition roundPositive (x : Q) : Q :=
  let e := ulpExponent x in
  inject_Z (roundHalfEven (x / pow2 e)) * pow2 e.

(** The double nearest to [x], in lowest terms. *)
Definition round64 (x : Q) : Q :=
  Qred (match Qcompare x 0 with
        | Gt => roundPositive x
        | Lt => - roundPositive (- x)
        | Eq => 0
        end).

(** [x + y], [x - y], [x * y] and [x / y] on doubles ([y] not zero). *)
Definition add64 (x y : Q) : Q := round64 (x + y).
Definition sub64 (x y : Q) : Q := round64 (x - y).
Definition mul64 (x y : Q) : Q := round64 (x * y).
Definition div64 (x y : Q) : Q := round64 (x / y).

(** A decimal literal of the source denotes the double nearest to it. *)
Definition lit (d : Q) : Q := round64 d.

(** [x] is a double. *)
Definition isDouble (x : Q) : Prop := round64 x == x.

(** [Number.MAX_SAFE_INTEGER + 1]: up to [2^53] every integer is a
    double. *)
Definition two53 : Q := 9007199254740992.

(** A number far from the overflow threshold. *)
Definition small (x : Q) : bool := Qle_bool (Qabs x) (pow2 500).

Definition smallStats (s : Stats.t) : bool :=
  small (Stats.handSpeed s) && small (Stats.algorithm s) && small (Stats.iteration s).

Definition smallEquipment (e : Equipment.t) : bool :=
  small (Item.level (Equipment.keyboard e))
  && small (Item.level (Equipment.ideExtension e))
  && small (Item.level (Equipment.debugger e))
  && small (Item.level (Equipment.coffeeMachine e)).

Definition smallStatistics (s : Statistics.t) : bool :=
  small (Statistics.totalLinesGenerated s) && small (Statistics.totalBugsDefeated s)
  && small (Statistics.totalPlayTime s) && small (Statistics.keystrokes s)
  && small (Statistics.filesOpened s) && small (Statistics.filesSaved s).

Definition smallBug (b : Bug.t) : bool :=
  small (Bug.health b) && small (Bug.maxHealth b)
  && small (Bug.algorithm b) && small (Bug.iteration b)
  && small (Reward.linesOfCode (Bug.reward b))
  && small (Reward.bugFragments (Bug.reward b))
  && small (Reward.experience (Bug.reward b)).

(** Every number of the state is at most [2^500] in magnitude. *)
Definition finiteState (s : GameState) : bool :=
  small (level_of s) && small (experience_of s) && small (experienceToNext_of s)
  && small (linesOfCode_of s) && small (bugFragments_of s)
  && smallStats (stats s) && smallStats (upgradeCosts s)
  && smallEquipment (equipment s) && smallStatistics (statistics s)
  && match currentBug_of s with Some b => smallBug b | None => true end.

(** ** GameStateManager on doubles

    The methods again, every arithmetic operation rounded as the machine
    rounds it.  Comparisons, [Math.floor] and [Math.max] are exact on
    doubles.  The loop of [checkLevelUp] need not end on doubles, so it
    and the tick take the number of iterations they may run and return
    [None] when these do not suffice. *)

Module Double.

Definition calculateLocPerSecond : M Q :=
  s <- getState ;;
  let baseRate := Stats.handSpeed (stats s) in
  let ide := Equipment.ideExtension (equipment s) in
  let baseRate :=
    if Item.owned ide
    then mul64 baseRate (add64 1 (mul64 (Item.level ide) (lit 0.1)))
    else baseRate in
  ret baseRate.

Definition calculateFragmentsPerBug (baseBugFragments : Q) : M Q :=
  s <- getState ;;
  let fragmentBonus :=
    inject_Z (Qfloor (mul64 (mul64 baseBugFragments (Stats.iteration (stats s)))
                        (lit 0.1))) in
  ret (add64 baseBugFragments fragmentBonus).

Definition defeatBug (bug : Bug.t) : M unit :=
  modify (fun s => set_linesOfCode
            (add64 (linesOfCode_of s) (Reward.linesOfCode (Bug.reward bug))) s) ;;
  s <- getState ;;
  let fragmentBonus :=
    inject_Z (Qfloor (mul64 (mul64 (Reward.bugFragments (Bug.reward bug))
                               (Stats.iteration (stats s)))
                        (lit 0.1))) in
  let totalFragments := add64 (Reward.bugFragments (Bug.reward bug)) fragmentBonus in
  modify (fun s => set_bugFragments (add64 (bugFragments_of s) totalFragments) s) ;;
  modify (fun s => set_experience
            (add64 (experience_of s) (Reward.experience (Bug.reward bug))) s) ;;
  modify (upd_statistics (fun st =>
            Statistics.with_totalBugsDefeated
              (add64 (Statistics.totalBugsDefeated st) 1) st)) ;;
  modify (set_currentBug None) ;;
  modify (set_isInBattle false) ;;
  s <- getState ;;
  when (Settings.showNotifications (settings s))
    (showInformationMessage
       (BugDefeated (Bug.name bug) (Reward.linesOfCode (Bug.reward bug)) totalFragments)).

Definition processBattle : M unit :=
  s <- getState ;;
  match negb (isInBattle_of s), currentBug_of s with
  | false, Some bug =>
      let playerAlgorithm := Stats.algorithm (stats s) in
      let damage := Qmax 1 (sub64 playerAlgorithm (Bug.iteration bug)) in
      let bug := Bug.with_health (sub64 (Bug.health bug) damage) bug in
      modify (set_currentBug (Some bug)) ;;
      if Qle_bool (Bug.health bug) 0 then defeatBug bug else ret tt
  | _, _ => ret tt
  end.

Definition createBug (type : BugType) : M Bug.t :=
  s <- getState ;;
  let baseHealth := add64 10 (mul64 (level_of s) 5) in
  let baseAlgorithm := add64 5 (mul64 (level_of s) 2) in
  let baseReward := Qmax 1 (inject_Z (Qfloor (div64 (level_of s) 2))) in
  ret {| Bug.name := getBugDisplayName type;
         Bug.type := type;
         Bug.health := baseHealth;
         Bug.maxHealth := baseHealth;
         Bug.algorithm := baseAlgorithm;
         Bug.iteration := inject_Z (Qfloor (mul64 baseAlgorithm (lit 0.2)));
         Bug.reward := Reward.mk (mul64 baseReward 10) baseReward (mul64 baseReward 5) |}.

Definition spawnRandomBug : M unit :=
  r <- Math_random ;;
  let randomType :=
    bugTypes_at (Qfloor (mul64 r (inject_Z (Z.of_nat (length bugTypes))))) in
  bug <- createBug randomType ;;
  modify (set_currentBug (Some bug)) ;;
  modify (set_isInBattle true).

Definition calculateExperienceForNextLevel : M Q :=
  s <- getState ;;
  ret (add64 100 (mul64 (sub64 (level_of s) 1) 50)).

Definition levelUpBody : M unit :=
  modify (fun s => set_experience (sub64 (experience_of s) (experienceToNext_of s)) s) ;;
  modify (fun s => set_level (add64 (level_of s) 1) s) ;;
  next <- calculateExperienceForNextLevel ;;
  modify (set_experienceToNext next) ;;
  modify (upd_stats (fun st => Stats.set HandSpeed (add64 (Stats.handSpeed st) 1) st)) ;;
  modify (upd_stats (fun st => Stats.set Algorithm (add64 (Stats.algorithm st) 2) st)) ;;
  modify (upd_stats (fun st => Stats.set Iteration (add64 (Stats.iteration st) 1) st)) ;;
  s <- getState ;;
  when (Settings.showNotifications (settings s))
    (showInformationMessage (LevelReached (level_of s))).

Definition checkLevelUp (fuel : nat) (w : World) : option World :=
  while fuel levelUpCondition levelUpBody w.

(** The tick, block by block: the accrual, the combat resolution
    ([processBattle]), the spawn check, the level-up check and the
    autosave. *)
Definition accrual : M unit :=
  locPerSecond <- calculateLocPerSecond ;;
  modify (fun s => set_linesOfCode (add64 (linesOfCode_of s) locPerSecond) s) ;;
  modify (upd_statistics (fun st =>
    Statistics.with_totalLinesGenerated
      (add64 (Statistics.totalLinesGenerated st) locPerSecond) st)) ;;
  modify (upd_statistics (fun st =>
    Statistics.with_totalPlayTime (add64 (Statistics.totalPlayTime st) 1) st)).

Definition spawnCheck : M unit :=
  s <- getState ;;
  if negb (isInBattle_of s)
  then r <- Math_random ;; when (Qltb r (lit 0.1)) spawnRandomBug
  else ret tt.

Definition beforeLevelUp : M unit :=
  accrual ;; processBattle ;; spawnCheck.

Definition afterLevelUp : M unit :=
  s <- getState ;;
  when (Settings.autoSave (settings s)) saveGameState.

Definition updateGameState (fuel : nat) (w : World) : option World :=
  match checkLevelUp fuel (exec beforeLevelUp w) with
  | Some w' => Some (exec afterLevelUp w')
  | None => None
  end.

Definition buyUpgrade (upgradeType : UpgradeType) : M bool :=
  s <- getState ;;
  let cost := Stats.get upgradeType (upgradeCosts s) in
  if Qle_bool cost (linesOfCode_of s) then
    modify (fun s => set_linesOfCode (sub64 (linesOfCode_of s) cost) s) ;;
    modify (upd_stats (fun st =>
      Stats.set upgradeType
        (add64 (Stats.get upgradeType st)
           match upgradeType with HandSpeed => 1 | _ => 2 end) st)) ;;
    modify (upd_upgradeCosts
              (Stats.set upgradeType (inject_Z (Qfloor (mul64 cost 1.5))))) ;;
    ret true
  else ret false.

Definition onEditorInteraction (type : InteractionType) : M unit :=
  match type with
  | Keystroke =>
      modify (upd_statistics (fun st =>
        Statistics.with_keystrokes (add64 (Statistics.keystrokes st) 1) st)) ;;
      r <- Math_random ;;
      if Qltb r (lit 0.1) then
        s <- getState ;;
        let bonus := 1 in
        let kb := Equipment.keyboard (equipment s) in
        let bonus :=
          if Item.owned kb
          then mul64 bonus (add64 1 (mul64 (Item.level kb) (lit 0.2)))
          else bonus in
        modify (fun s => set_linesOfCode (add64 (linesOfCode_of s) bonus) s)
      else ret tt
  | FileOpen =>
      modify (upd_statistics (fun st =>
        Statistics.with_filesOpened (add64 (Statistics.filesOpened st) 1) st))
  | FileSave =>
      modify (upd_statistics (fun st =>
        Statistics.with_filesSaved (add64 (Statistics.filesSaved st) 1) st)) ;;
      r <- Math_random ;;
      let saveBonus := add64 5 (inject_Z (Qfloor (mul64 r 10))) in
      modify (fun s => set_linesOfCode (add64 (linesOfCode_of s) saveBonus) s) ;;
      modify (fun s => set_experience (add64 (experience_of s) 2) s)
  end.

(** One purchase's effect on a cost, and its [n]-fold iteration. *)
Definition scaleCost (cost : Q) : Q := inject_Z (Qfloor (mul64 cost 1.5)).
Definition costAfter (n : nat) (initialCost : Q) : Q := Nat.iter n scaleCost initialCost.

(** The fragments one victory brings at the current level, as the panel
    shows them: [panelFragmentsPerBug] is the figure [getWebviewContent]
    puts into the page it builds, [scriptFragmentsPerBug] the one the
    page's own update script writes over it at every update. *)
Definition panelFragmentsPerBug : M Q :=
  gameState <- getGameState ;;
  let baseReward := Qmax 1 (inject_Z (Qfloor (div64 (level_of gameState) 2))) in
  let baseBugFragments := baseReward in
  calculateFragmentsPerBug baseBugFragments.

Definition scriptFragmentsPerBug (gameState : GameState) : Q :=
  let baseReward := Qmax 1 (inject_Z (Qfloor (div64 (level_of gameState) 2))) in
  let algorithmBonus :=
    inject_Z (Qfloor (mul64 (mul64 baseReward (Stats.algorithm (stats gameState)))
                        (lit 0.1))) in
  let iterationBonus :=
    inject_Z (Qfloor (mul64 (mul64 baseReward (Stats.iteration (stats gameState)))
                        (lit 0.1))) in
  add64 (add64 baseReward algorithmBonus) iterationBonus.

End Double.

(** The purchases of a stat, counted from the default state, up to which
    [cost * 1.5] is computed exactly by the machine. *)
Definition exactPurchases (t : UpgradeType) : nat :=
  match t with HandSpeed => 80 | Algorithm => 83 | Iteration => 82 end.

(** The states on which the level-up loop computes exactly: level,
    experience and threshold are whole numbers, the threshold is positive
    and stays so (the level is at least -1), and the level and the
    experience are small enough for every threshold the loop computes to
    stay below [2^53]. *)
Definition levelUpExact (s : GameState) : Prop :=
  whole (level_of s) /\ whole (experience_of s) /\ whole (experienceToNext_of s)
  /\ -1 <= level_of s
  /\ 1 <= experienceToNext_of s /\ experienceToNext_of s <= two53
  /\ level_of s <= 140737488355328
  /\ level_of s + experience_of s <= 140737488355328.

(** The default state after a grant of [1e40] experience points. *)
Definition hugeGrantWorld : World :=
  mkWorld (set_experience (lit (inject_Z (10 ^ 40))) createDefaultGameState)
    None [] (always half) 0.

(** * Properties *)

(** ** Numbers *)

Lemma Qltb_lt (x y : Q) : Qltb x y = true <-> x < y.
Proof.
  unfold Qltb. rewrite negb_true_iff. split.
  - intros H. apply Qnot_le_lt. intros Hle.
    apply Qle_bool_iff in Hle. congruence.
  - intros H. destruct (Qle_bool y x) eqn:E; [|reflexivity].
    apply Qle_bool_iff in E. exfalso. apply (Qlt_not_le _ _ H E).
Qed.

Lemma Qle_bool_false (x y : Q) : Qle_bool x y = false <-> y < x.
Proof.
  rewrite <- Qltb_lt. unfold Qltb. symmetry. apply negb_true_iff.
Qed.

Lemma Qmult_1_r_eq (q : Q) : q * 1 = q.
Proof.
  destruct q as [n d]. unfold Qmult. simpl. f_equal; lia.
Qed.

(** Integers compared through their injection into the rationals. *)
Lemma inject_Z_lt_inv (a b : Z) : inject_Z a < inject_Z b -> (a < b)%Z.
Proof. intros H. now rewrite Zlt_Qlt. Qed.

(** Prove an order between integers from linear facts on rationals. *)
Ltac z_from_q :=
  apply inject_Z_lt_inv; rewrite ?inject_Z_plus;
  change (inject_Z 0) with 0; change (inject_Z 1) with 1;
  change (inject_Z 2) with 2; lra.

Lemma ceiling_bounds (x : Q) :
  inject_Z (Qceiling x) - 1 < x /\ x <= inject_Z (Qceiling x).
Proof.
  split; [|apply Qle_ceiling].
  pose proof (Qceiling_lt x) as H.
  unfold Z.sub in H. rewrite inject_Z_plus, inject_Z_opp in H.
  change (inject_Z 1) with 1 in H. lra.
Qed.

Lemma floor_bounds (x : Q) :
  inject_Z (Qfloor x) <= x /\ x < inject_Z (Qfloor x) + 1.
Proof.
  split; [apply Qfloor_le|].
  pose proof (Qlt_floor x) as H.
  rewrite inject_Z_plus in H. change (inject_Z 1) with 1 in H. lra.
Qed.

(** ** Running an operation on an explicit world *)

(** Split a world into its fields, down to the battle slot. *)
Ltac destruct_world w :=
  let c := fresh "c" in let r := fresh "r" in let st := fresh "st" in
  let uc := fresh "uc" in let eq := fresh "eq" in let stt := fresh "stt" in
  let cb := fresh "cb" in let ib := fresh "ib" in let se := fresh "se" in
  let g := fresh "g" in let sh := fresh "sh" in let rs := fresh "rs" in
  let n := fresh "n" in
  destruct w as [[c r st uc eq stt [cb ib] se] g sh rs n].

(** Evaluate the state passing, leaving the arithmetic alone. *)
Ltac run :=
  cbv -[Qplus Qminus Qmult Qopp Qdiv Qinv Qle_bool Qltb Qmax Qfloor Qceiling
        inject_Z Qeq Qle Qlt app Z.of_nat Z.to_nat].
Ltac run_in H :=
  cbv -[Qplus Qminus Qmult Qopp Qdiv Qinv Qle_bool Qltb Qmax Qfloor Qceiling
        inject_Z Qeq Qle Qlt app Z.of_nat Z.to_nat] in H.

(** ** Random numbers *)

Lemma Rand_range (r : Rand) : 0 <= rval r /\ rval r < 1.
Proof.
  destruct r as [q Hq]. simpl. unfold inUnit in Hq.
  apply andb_true_iff in Hq. destruct Hq as [H0 H1].
  split; [now apply Qle_bool_iff|now apply Qltb_lt].
Qed.

(** [Math.floor(Math.random() * bugTypes.length)] indexes [bugTypes]. *)
Lemma bugTypes_index_in_range (r : Rand) :
  let i := Qfloor (rval r * inject_Z (Z.of_nat (length bugTypes))) in
  (0 <= i)%Z /\ (Z.to_nat i < length bugTypes)%nat.
Proof.
  cbv zeta. change (inject_Z (Z.of_nat (length bugTypes))) with 5.
  destruct (Rand_range r) as [H0 H1].
  destruct (floor_bounds (rval r * 5)) as [F1 F2].
  set (i := Qfloor (rval r * 5)) in *.
  assert (-1 < i)%Z.
  { apply inject_Z_lt_inv. change (inject_Z (-1)) with (-1). lra. }
  assert (i < 5)%Z.
  { apply inject_Z_lt_inv. change (inject_Z 5) with 5. lra. }
  simpl length. lia.
Qed.

(** ** Loops *)

Section While.
Variables (cond : World -> bool) (body : M unit).

Lemma while_S (fuel : nat) (w : World) :
  while (S fuel) cond body w
  = if cond w then while fuel cond body (exec body w) else Some w.
Proof. reflexivity. Qed.

Lemma while_exit (fuel : nat) (w w' : World) :
  while fuel cond body w = Some w' -> cond w' = false.
Proof.
  revert w. induction fuel as [|n IH]; intros w; simpl;
    destruct (cond w) eqn:E; try discriminate; eauto; congruence.
Qed.

Lemma while_invariant (P : World -> Prop) (fuel : nat) (w w' : World) :
  (forall v, P v -> cond v = true -> P (exec body v)) ->
  P w -> while fuel cond body w = Some w' -> P w'.
Proof.
  intros Hstep. revert w. induction fuel as [|n IH]; intros w Hw; simpl;
    destruct (cond w) eqn:E; try discriminate; eauto; congruence.
Qed.

Lemma while_iterates (fuel : nat) (w w' : World) :
  while fuel cond body w = Some w' ->
  exists k : nat,
    w' = Nat.iter k (exec body) w /\
    forall j : nat, (j < k)%nat -> cond (Nat.iter j (exec body) w) = true.
Proof.
  revert w. induction fuel as [|n IH]; intros w; simpl;
    destruct (cond w) eqn:E; try discriminate.
  - intros [= <-]. exists O. split; [reflexivity|]. intros j Hj. lia.
  - intros H. destruct (IH _ H) as (k & -> & Hk).
    exists (S k). split.
    + now rewrite Nat.iter_succ_r.
    + intros [|j] Hj; [exact E|].
      rewrite Nat.iter_succ_r. apply Hk. lia.
  - intros [= <-]. exists O. split; [reflexivity|]. intros j Hj. lia.
Qed.
End While.

(** ** Level-up: the loop terminates *)

Lemma levelUpBody_level (w : World) :
  level_of (gameState (exec levelUpBody w)) = level_of (gameState w) + 1.
Proof.
  unfold levelUpBody, exec, bind, modify, getState, when; simpl.
  destruct (Settings.showNotifications _); reflexivity.
Qed.

Lemma levelUpBody_experience (w : World) :
  experience_of (gameState (exec levelUpBody w))
  = experience_of (gameState w) - experienceToNext_of (gameState w).
Proof.
  unfold levelUpBody, exec, bind, modify, getState, when; simpl.
  destruct (Settings.showNotifications _); reflexivity.
Qed.

Lemma levelUpBody_experienceToNext (w : World) :
  experienceToNext_of (gameState (exec levelUpBody w))
  = 100 + (level_of (gameState w) + 1 - 1) * 50.
Proof.
  unfold levelUpBody, exec, bind, modify, getState, when; simpl.
  destruct (Settings.showNotifications _); reflexivity.
Qed.

Lemma levelUpBody_thresholdFromLevel (w : World) :
  thresholdFromLevel (gameState (exec levelUpBody w)).
Proof.
  unfold thresholdFromLevel.
  rewrite levelUpBody_experienceToNext, levelUpBody_level. reflexivity.
Qed.

Lemma levelUpPotential_nonneg (s : GameState) : (0 <= levelUpPotential s)%Z.
Proof. unfold levelUpPotential. nia. Qed.

Lemma levelUpPotential_decreases (w : World) :
  thresholdFromLevel (gameState w) ->
  levelUpCondition w = true ->
  (levelUpPotential (gameState (exec levelUpBody w)) < levelUpPotential (gameState w))%Z.
Proof.
  unfold thresholdFromLevel, levelUpCondition, levelUpPotential.
  rewrite levelUpBody_level, levelUpBody_experience.
  set (l := level_of (gameState w)). set (e := experience_of (gameState w)).
  set (t := experienceToNext_of (gameState w)).
  intros Ht Hc. apply Qle_bool_iff in Hc.
  destruct (ceiling_bounds (- l)) as [L1 L2].
  destruct (ceiling_bounds (- (l + 1))) as [L1' L2'].
  destruct (ceiling_bounds (e * (1 # 50))) as [E1 E2].
  destruct (ceiling_bounds ((e - t) * (1 # 50))) as [E1' E2'].
  set (c1 := Qceiling (- l)) in *. set (c1' := Qceiling (- (l + 1))) in *.
  set (c2 := Qceiling (e * (1 # 50))) in *.
  set (c2' := Qceiling ((e - t) * (1 # 50))) in *.
  assert (Hc1 : (c1' = c1 - 1)%Z).
  { assert (c1' < c1)%Z by z_from_q.
    assert (c1 < c1' + 2)%Z by z_from_q.
    lia. }
  destruct (Qlt_le_dec l 0) as [Hneg|Hpos].
  - assert (0 < c1)%Z by z_from_q.
    assert (c2' < c2 + c1)%Z by z_from_q.
    nia.
  - assert (c1 < 1)%Z by z_from_q.
    assert (c2' < c2)%Z by z_from_q.
    assert (0 < c2)%Z by z_from_q.
    replace (Z.max 0 c1) with 0%Z by lia.
    replace (Z.max 0 c1') with 0%Z by lia. lia.
Qed.

Lemma levelUp_loop_enough (fuel : nat) (w : World) :
  thresholdFromLevel (gameState w) ->
  (levelUpPotential (gameState w) < Z.of_nat fuel)%Z ->
  exists w', while fuel levelUpCondition levelUpBody w = Some w'.
Proof.
  revert w. induction fuel as [|n IH]; intros w Hreg Hpot.
  - pose proof (levelUpPotential_nonneg (gameState w)). lia.
  - simpl. destruct (levelUpCondition w) eqn:E; [|eauto].
    apply IH; [apply levelUpBody_thresholdFromLevel|].
    pose proof (levelUpPotential_decreases w Hreg E). lia.
Qed.

Lemma checkLevelUp_loop_terminates (w : World) :
  exists w', while (levelUpFuel w) levelUpCondition levelUpBody w = Some w'.
Proof.
  unfold levelUpFuel. rewrite while_S.
  destruct (levelUpCondition w) eqn:E; [|eauto].
  apply levelUp_loop_enough; [apply levelUpBody_thresholdFromLevel|lia].
Qed.

Lemma checkLevelUp_exec (w w' : World) :
  while (levelUpFuel w) levelUpCondition levelUpBody w = Some w' ->
  exec checkLevelUp w = w'.
Proof. intros H. unfold exec, checkLevelUp. now rewrite H. Qed.

(** What [checkLevelUp] computes: the body iterated as long as the
    condition holds. *)
Lemma checkLevelUp_iterates (w : World) :
  exists k : nat,
    exec checkLevelUp w = Nat.iter k (exec levelUpBody) w /\
    (forall j : nat, (j < k)%nat ->
       levelUpCondition (Nat.iter j (exec levelUpBody) w) = true) /\
    levelUpCondition (exec checkLevelUp w) = false.
Proof.
  destruct (checkLevelUp_loop_terminates w) as [w' Hw'].
  rewrite (checkLevelUp_exec _ _ Hw').
  destruct (while_iterates _ _ _ _ _ Hw') as (k & Hk & Hj).
  exists k. split; [exact Hk|]. split; [exact Hj|].
  eapply while_exit; eauto.
Qed.

Lemma checkLevelUp_invariant (P : World -> Prop) (w : World) :
  (forall v, P v -> levelUpCondition v = true -> P (exec levelUpBody v)) ->
  P w -> P (exec checkLevelUp w).
Proof.
  intros Hstep Hw.
  destruct (checkLevelUp_loop_terminates w) as [w' Hw'].
  rewrite (checkLevelUp_exec _ _ Hw').
  eapply while_invariant; eauto.
Qed.

Lemma levelUp_iter_level (k : nat) (w : World) :
  level_of (gameState (Nat.iter k (exec levelUpBody) w))
  == level_of (gameState w) + inject_Z (Z.of_nat k).
Proof.
  induction k as [|k IH].
  - change (inject_Z (Z.of_nat 0)) with 0. simpl. lra.
  - rewrite Nat.iter_succ, levelUpBody_level, IH, Nat2Z.inj_succ.
    unfold Z.succ. rewrite inject_Z_plus. change (inject_Z 1) with 1. lra.
Qed.

Lemma levelUpCondition_true (w : World) :
  levelUpCondition w = true
  <-> experienceToNext_of (gameState w) <= experience_of (gameState w).
Proof. apply Qle_bool_iff. Qed.

Lemma levelUpCondition_false (w : World) :
  levelUpCondition w = false
  <-> experience_of (gameState w) < experienceToNext_of (gameState w).
Proof. apply Qle_bool_false. Qed.

(** ** The experience scenario *)

Lemma iter_zero {A} (f : A -> A) (x : A) : Nat.iter 0 f x = x.
Proof. reflexivity. Qed.

Lemma iter_one {A} (f : A -> A) (x : A) : Nat.iter 1 f x = f x.
Proof. reflexivity. Qed.

Lemma grantExperience_fields (amount : Q) (w : World) :
  let w' := exec (grantExperience amount) w in
  experience_of (gameState w') = experience_of (gameState w) + amount
  /\ level_of (gameState w') = level_of (gameState w)
  /\ experienceToNext_of (gameState w') = experienceToNext_of (gameState w).
Proof. repeat split. Qed.

(** C5, as stated, fails: with 95 experience against a threshold of 100,
    a grant of 150 leaves 245 - 100 = 145 experience, not 45. *)
Lemma scenario_experience_45_refuted :
  let w' := exec checkLevelUp (exec (grantExperience 150) (scenarioWorld (always half))) in
  ~ (level_of (gameState w') == 2
     /\ experience_of (gameState w') == 45
     /\ experienceToNext_of (gameState w') == 150).
Proof.
  cbv zeta. intros (_ & H & _). vm_compute in H. discriminate H.
Qed.

(** C5, amended: from level 1 with 95 experience and a threshold of 100, a
    grant of 150 followed by [checkLevelUp] gains exactly one level, leaves
    145 experience and sets the threshold to 150. *)
Theorem scenario_one_level_145 (w : World) :
  level_of (gameState w) == 1 ->
  experience_of (gameState w) == 95 ->
  experienceToNext_of (gameState w) == 100 ->
  let w' := exec checkLevelUp (exec (grantExperience 150) w) in
  w' = exec levelUpBody (exec (grantExperience 150) w)
  /\ level_of (gameState w') == level_of (gameState w) + 1
  /\ experience_of (gameState w') == 145
  /\ experienceToNext_of (gameState w') == 150.
Proof.
  intros Hl He Ht. cbv zeta.
  destruct (grantExperience_fields 150 w) as (Ge & Gl & Gt).
  remember (exec (grantExperience 150) w) as wg eqn:Hwg. clear Hwg.
  destruct (checkLevelUp_iterates wg) as (k & Hk & Hj & Hexit).
  assert (Hk1 : k = 1%nat).
  { destruct k as [|[|k]]; [exfalso|reflexivity|exfalso].
    - rewrite Hk, iter_zero in Hexit.
      apply levelUpCondition_false in Hexit. rewrite Ge, Gt in Hexit. lra.
    - assert (Hc := Hj 1%nat ltac:(lia)). rewrite iter_one in Hc.
      apply levelUpCondition_true in Hc.
      rewrite levelUpBody_experience, levelUpBody_experienceToNext in Hc.
      rewrite Ge, Gl, Gt in Hc. lra. }
  subst k. rewrite iter_one in Hk. rewrite Hk. split; [reflexivity|].
  rewrite levelUpBody_level, levelUpBody_experience, levelUpBody_experienceToNext.
  rewrite Ge, Gl, Gt. repeat split; lra.
Qed.

Lemma scenario_one_level_145_witness :
  let w := scenarioWorld (always half) in
  let w' := exec checkLevelUp (exec (grantExperience 150) w) in
  w' = exec levelUpBody (exec (grantExperience 150) w)
  /\ level_of (gameState w') == level_of (gameState w) + 1
  /\ experience_of (gameState w') == 145
  /\ experienceToNext_of (gameState w') == 150.
Proof.
  apply (scenario_one_level_145 (scenarioWorld (always half))); reflexivity.
Defined.

(** ** Upgrades *)

(** ** The tick, phase by phase *)

Lemma exec_bind {A B} (m : M A) (k : A -> M B) (w : World) :
  exec (bind m k) w = exec (k (result m w)) (exec m w).
Proof. unfold exec, result, bind. destruct (m w). reflexivity. Qed.

Lemma exec_ret {A} (x : A) (w : World) : exec (ret x) w = w.
Proof. reflexivity. Qed.

Lemma updateGameState_phases (w : World) : updateGameState w = tickPhases w.
Proof.
  unfold updateGameState, tickPhases, accrualPhase, calculateLocPerSecond,
    spawnPhase, autosavePhase, spawnProbability, when, bind, getState, modify, ret.
  cbn beta iota zeta.
  destruct (Item.owned (Equipment.ideExtension (equipment (gameState w)))).
  - destruct (processBattle _) as [[] w1].
    destruct (isInBattle_of (gameState w1)); reflexivity.
  - change (1 + 0) with 1. rewrite Qmult_1_r_eq.
    destruct (processBattle _) as [[] w1].
    destruct (isInBattle_of (gameState w1)); reflexivity.
Qed.

Lemma exec_updateGameState (w : World) :
  exec updateGameState w
  = exec autosavePhase (exec checkLevelUp (exec spawnPhase
      (exec processBattle (exec accrualPhase w)))).
Proof.
  unfold exec at 1. rewrite updateGameState_phases.
  change (snd (tickPhases w)) with (exec tickPhases w).
  unfold tickPhases. now rewrite !exec_bind.
Qed.

Lemma accrualPhase_effect (w : World) :
  let s := gameState w in
  let s' := gameState (exec accrualPhase w) in
  let rate := result calculateLocPerSecond w in
  linesOfCode_of s' = linesOfCode_of s + rate
  /\ Statistics.totalLinesGenerated (statistics s')
     = Statistics.totalLinesGenerated (statistics s) + rate
  /\ Statistics.totalPlayTime (statistics s')
     = Statistics.totalPlayTime (statistics s) + 1
  /\ Statistics.totalBugsDefeated (statistics s') = Statistics.totalBugsDefeated (statistics s)
  /\ Statistics.keystrokes (statistics s') = Statistics.keystrokes (statistics s)
  /\ Statistics.filesOpened (statistics s') = Statistics.filesOpened (statistics s)
  /\ Statistics.filesSaved (statistics s') = Statistics.filesSaved (statistics s)
  /\ bugFragments_of s' = bugFragments_of s
  /\ character s' = character s /\ stats s' = stats s
  /\ upgradeCosts s' = upgradeCosts s /\ equipment s' = equipment s
  /\ battle s' = battle s /\ settings s' = settings s
  /\ sameOutsideState w (exec accrualPhase w).
Proof.
  cbv zeta. unfold sameOutsideState, accrualPhase, calculateLocPerSecond, exec,
    result, bind, getState, modify, ret. cbn beta iota zeta.
  unfold linesOfCode_of, bugFragments_of. simpl.
  destruct (Item.owned _); [|change (1 + 0) with 1; rewrite Qmult_1_r_eq];
    repeat split; reflexivity.
Qed.

Lemma calculateLocPerSecond_result (w : World) :
  let s := gameState w in
  let ide := Equipment.ideExtension (equipment s) in
  result calculateLocPerSecond w
  = if Item.owned ide
    then Stats.handSpeed (stats s) * (1 + Item.level ide * 0.1)
    else Stats.handSpeed (stats s).
Proof. reflexivity. Qed.

Lemma processBattle_idle (w : World) :
  isInBattle_of (gameState w) = false \/ currentBug_of (gameState w) = None ->
  exec processBattle w = w.
Proof.
  unfold processBattle, exec, bind, getState.
  destruct (isInBattle_of _), (currentBug_of _); simpl;
    intros [H|H]; try discriminate H; reflexivity.
Qed.

Lemma processBattle_frame (w : World) :
  let s := gameState w in
  let s' := gameState (exec processBattle w) in
  Statistics.totalLinesGenerated (statistics s') = Statistics.totalLinesGenerated (statistics s)
  /\ Statistics.totalPlayTime (statistics s') = Statistics.totalPlayTime (statistics s)
  /\ level_of s' = level_of s
  /\ experienceToNext_of s' = experienceToNext_of s
  /\ stats s' = stats s /\ upgradeCosts s' = upgradeCosts s
  /\ equipment s' = equipment s /\ settings s' = settings s
  /\ globalState (exec processBattle w) = globalState w
  /\ randomSource (exec processBattle w) = randomSource w
  /\ randomsDrawn (exec processBattle w) = randomsDrawn w.
Proof.
  destruct_world w. destruct ib, cb as [b|]; try (repeat split; reflexivity).
  run. destruct (Qle_bool _ 0); [|repeat split; reflexivity].
  destruct se as [a [|]]; repeat split; reflexivity.
Qed.

(** The active encounter survives the tick's blow. *)
Lemma processBattle_survives (w : World) (b : Bug.t) :
  let s := gameState w in
  let health' := Bug.health b - Qmax 1 (Stats.algorithm (stats s) - Bug.iteration b) in
  isInBattle_of s = true -> currentBug_of s = Some b -> 0 < health' ->
  exec processBattle w
  = mkWorld (set_currentBug (Some (Bug.with_health health' b)) s)
      (globalState w) (shown w) (randomSource w) (randomsDrawn w).
Proof.
  cbv zeta. intros Hin Hbug Hpos. apply Qle_bool_false in Hpos.
  destruct_world w. run_in Hin. run_in Hbug. run_in Hpos. subst ib cb.
  run. rewrite Hpos. reflexivity.
Qed.

(** The active encounter is defeated by the tick's blow. *)
Lemma processBattle_defeats (w : World) (b : Bug.t) :
  let s := gameState w in
  let w' := exec processBattle w in
  let s' := gameState w' in
  let health' := Bug.health b - Qmax 1 (Stats.algorithm (stats s) - Bug.iteration b) in
  let totalFragments :=
    Reward.bugFragments (Bug.reward b)
    + inject_Z (Qfloor (Reward.bugFragments (Bug.reward b)
                        * Stats.iteration (stats s) * 0.1)) in
  isInBattle_of s = true -> currentBug_of s = Some b -> health' <= 0 ->
  linesOfCode_of s' = linesOfCode_of s + Reward.linesOfCode (Bug.reward b)
  /\ bugFragments_of s' = bugFragments_of s + totalFragments
  /\ experience_of s' = experience_of s + Reward.experience (Bug.reward b)
  /\ Statistics.totalBugsDefeated (statistics s')
     = Statistics.totalBugsDefeated (statistics s) + 1
  /\ currentBug_of s' = None
  /\ isInBattle_of s' = false
  /\ shown w'
     = shown w ++
       (if Settings.showNotifications (settings s)
        then [BugDefeated (Bug.name b) (Reward.linesOfCode (Bug.reward b)) totalFragments]
        else []).
Proof.
  cbv zeta. intros Hin Hbug Hneg. apply Qle_bool_iff in Hneg.
  destruct_world w. run_in Hin. run_in Hbug. run_in Hneg. subst ib cb.
  run. rewrite Hneg.
  destruct se as [a [|]]; repeat split; try reflexivity.
  symmetry. apply app_nil_r.
Qed.

Lemma spawnRandomBug_effect (w : World) :
  let w' := exec spawnRandomBug w in
  sameOutsideBattle w w'
  /\ isInBattle_of (gameState w') = true
  /\ (exists bug, currentBug_of (gameState w') = Some bug
                  /\ Bug.health bug = Bug.maxHealth bug)
  /\ randomsDrawn w' = S (randomsDrawn w).
Proof.
  cbv zeta. unfold sameOutsideBattle, spawnRandomBug, createBug, Math_random,
    exec, bind, getState, modify, ret. simpl.
  repeat split; try reflexivity. eexists. split; reflexivity.
Qed.

Lemma spawnPhase_frame (w : World) : sameOutsideBattle w (exec spawnPhase w).
Proof.
  unfold spawnPhase, exec, bind, getState. cbn beta iota zeta.
  destruct (isInBattle_of _); [repeat split|].
  unfold Math_random at 1. cbn beta iota zeta.
  destruct (Qltb _ _).
  - match goal with |- sameOutsideBattle _ (snd (spawnRandomBug ?v)) =>
      destruct (spawnRandomBug_effect v) as (H & _)
    end.
    unfold exec in H. exact H.
  - repeat split.
Qed.

(** With an encounter in progress the spawn check does nothing: no number
    is drawn and the slot is left alone. *)
Lemma spawnPhase_in_battle (w : World) :
  isInBattle_of (gameState w) = true -> exec spawnPhase w = w.
Proof.
  intros H. unfold spawnPhase, exec, bind, getState. cbn beta iota zeta.
  now rewrite H.
Qed.

(** Without one, a number is drawn and decides. *)
Lemma spawnPhase_idle (w : World) :
  isInBattle_of (gameState w) = false ->
  let r := rval (randomSource w (randomsDrawn w)) in
  let drawn := mkWorld (gameState w) (globalState w) (shown w)
                 (randomSource w) (S (randomsDrawn w)) in
  exec spawnPhase w = if Qltb r 0.1 then exec spawnRandomBug drawn else drawn.
Proof.
  intros H. cbv zeta. unfold spawnPhase, exec, bind, getState. cbn beta iota zeta.
  rewrite H. unfold Math_random at 1. cbn beta iota zeta.
  unfold spawnProbability. destruct (Qltb _ _); reflexivity.
Qed.

Lemma levelUpBody_frame (w : World) : sameOutsideLevelUp w (exec levelUpBody w).
Proof.
  destruct_world w. run. destruct se as [a [|]]; repeat split; reflexivity.
Qed.

Lemma sameOutsideLevelUp_trans (a b c : World) :
  sameOutsideLevelUp a b -> sameOutsideLevelUp b c -> sameOutsideLevelUp a c.
Proof.
  unfold sameOutsideLevelUp.
  intros (?&?&?&?&?&?&?&?&?) (?&?&?&?&?&?&?&?&?).
  repeat split; congruence.
Qed.

Lemma checkLevelUp_frame (w : World) : sameOutsideLevelUp w (exec checkLevelUp w).
Proof.
  apply (checkLevelUp_invariant (sameOutsideLevelUp w)).
  - intros v Hv _. eapply sameOutsideLevelUp_trans; [exact Hv|apply levelUpBody_frame].
  - repeat split.
Qed.

Lemma autosavePhase_effect (w : World) :
  let w' := exec autosavePhase w in
  gameState w' = gameState w
  /\ shown w' = shown w
  /\ randomSource w' = randomSource w /\ randomsDrawn w' = randomsDrawn w
  /\ globalState w'
     = if Settings.autoSave (settings (gameState w))
       then Some (gameState w) else globalState w.
Proof.
  cbv zeta. unfold autosavePhase, saveGameState, exec, bind, getState, ret.
  cbn beta iota zeta.
  destruct (Settings.autoSave _); repeat split; reflexivity.
Qed.

Lemma updateGameState_counters (w : World) :
  let s := gameState w in
  let s' := gameState (exec updateGameState w) in
  Statistics.totalLinesGenerated (statistics s')
  = Statistics.totalLinesGenerated (statistics s) + result calculateLocPerSecond w
  /\ Statistics.totalPlayTime (statistics s')
     = Statistics.totalPlayTime (statistics s) + 1.
Proof.
  cbv zeta. rewrite exec_updateGameState.
  destruct (accrualPhase_effect w) as (_ & A1 & A2 & _).
  set (wa := exec accrualPhase w) in *.
  destruct (processBattle_frame wa) as (B1 & B2 & _).
  set (wb := exec processBattle wa) in *.
  destruct (spawnPhase_frame wb) as (_ & _ & _ & _ & _ & C & _).
  set (wc := exec spawnPhase wb) in *.
  destruct (checkLevelUp_frame wc) as (_ & _ & _ & D & _).
  set (wd := exec checkLevelUp wc) in *.
  destruct (autosavePhase_effect wd) as (E & _).
  rewrite E, D, C, B1, B2. split; assumption.
Qed.

Lemma updateGameState_idle_resources (w : World) :
  isInBattle_of (gameState w) = false ->
  let s := gameState w in
  let s' := gameState (exec updateGameState w) in
  linesOfCode_of s' = linesOfCode_of s + result calculateLocPerSecond w
  /\ bugFragments_of s' = bugFragments_of s.
Proof.
  intros Hidle. cbv zeta. rewrite exec_updateGameState.
  destruct (accrualPhase_effect w) as (A1 & _ & _ & _ & _ & _ & _ & A2 & _ & _ & _ & _ & A3 & _).
  set (wa := exec accrualPhase w) in *.
  assert (Hb : exec processBattle wa = wa).
  { apply processBattle_idle. left. unfold isInBattle_of in *. now rewrite A3. }
  rewrite Hb.
  destruct (spawnPhase_frame wa) as (_ & C & _).
  set (wc := exec spawnPhase wa) in *.
  destruct (checkLevelUp_frame wc) as (D & _).
  set (wd := exec checkLevelUp wc) in *.
  destruct (autosavePhase_effect wd) as (E & _).
  unfold linesOfCode_of, bugFragments_of in *.
  rewrite E, D, C. split; assumption.
Qed.

Lemma productionRate_result (w : World) :
  let s := gameState w in
  let ide := Equipment.ideExtension (equipment s) in
  result calculateLocPerSecond w
  = Stats.handSpeed (stats s)
    * (if Item.owned ide then 1 + Item.level ide * 0.1 else 1).
Proof.
  cbv zeta. rewrite calculateLocPerSecond_result. cbv zeta.
  destruct (Item.owned _); [reflexivity|]. now rewrite Qmult_1_r_eq.
Qed.

(** Everything after the combat resolution leaves resources, statistics
    and, short of a spawn, the battle slot alone. *)
Lemma after_combat_frame (wb : World) :
  let w' := exec autosavePhase (exec checkLevelUp (exec spawnPhase wb)) in
  resources (gameState w') = resources (gameState wb)
  /\ statistics (gameState w') = statistics (gameState wb)
  /\ battle (gameState w') = battle (gameState (exec spawnPhase wb)).
Proof.
  cbv zeta.
  destruct (spawnPhase_frame wb) as (_ & C1 & _ & _ & _ & C2 & _).
  set (wc := exec spawnPhase wb) in *.
  destruct (checkLevelUp_frame wc) as (D1 & _ & _ & D2 & D3 & _).
  set (wd := exec checkLevelUp wc) in *.
  destruct (autosavePhase_effect wd) as (E & _).
  rewrite E. repeat split; congruence.
Qed.

(** The other combat scenario: 10 health, 4 damage, the encounter stays
    with 6 health. *)
Example combat_survivor (rs : nat -> Rand) :
  let b := Bug.with_health 10 scenarioBug in
  let w := mkWorld (set_battle (Battle.mk (Some b) true) createDefaultGameState)
             None [] rs 0 in
  battle (gameState (exec updateGameState w))
  = Battle.mk (Some (Bug.with_health 6 scenarioBug)) true.
Proof. vm_compute. reflexivity. Qed.

(** The flags read by the autosave are those the tick started with. *)
Lemma settings_until_autosave (w : World) :
  let wd := exec checkLevelUp (exec spawnPhase (exec processBattle (exec accrualPhase w))) in
  settings (gameState wd) = settings (gameState w)
  /\ globalState wd = globalState w.
Proof.
  cbv zeta.
  destruct (accrualPhase_effect w)
    as (_ & _ & _ & _ & _ & _ & _ & _ & _ & _ & _ & _ & _ & A1 & (A2 & _)).
  set (wa := exec accrualPhase w) in *.
  destruct (processBattle_frame wa) as (_ & _ & _ & _ & _ & _ & _ & B1 & B2 & _).
  set (wb := exec processBattle wa) in *.
  destruct (spawnPhase_frame wb) as (_ & _ & _ & _ & _ & _ & C1 & C2 & _).
  set (wc := exec spawnPhase wb) in *.
  destruct (checkLevelUp_frame wc) as (_ & _ & _ & _ & _ & D1 & D2 & _).
  split; congruence.
Qed.

(** C9: [updateGameState] is the composition accrual, combat resolution,
    spawn check, level-up check, conditional autosave, in this order.  The
    state the autosave stores is the one [checkLevelUp] returned: it is
    the final state of the tick and its experience is below the threshold,
    so a kill of this tick is stored with its levels gained (an encounter
    worth 5 experience killed at 99/100 is stored as level 2 with 4
    experience). *)
Theorem tick_is_phase_composition (w : World) :
  let wd := exec checkLevelUp (exec spawnPhase (exec processBattle (exec accrualPhase w))) in
  let w' := exec updateGameState w in
  updateGameState w = tickPhases w
  /\ w' = exec autosavePhase wd
  /\ gameState w' = gameState wd
  /\ experience_of (gameState wd) < experienceToNext_of (gameState wd)
  /\ globalState w'
     = (if Settings.autoSave (settings (gameState w))
        then Some (gameState wd) else globalState w)
  /\ (let k := exec updateGameState (killLevelUpWorld (always high)) in
      globalState k = Some (gameState k)
      /\ Statistics.totalBugsDefeated (statistics (gameState k)) = 1
      /\ level_of (gameState k) = 2
      /\ experience_of (gameState k) = 4
      /\ experienceToNext_of (gameState k) = 150).
Proof.
  cbv zeta. split; [apply updateGameState_phases|].
  split; [apply exec_updateGameState|].
  rewrite exec_updateGameState.
  set (wd := exec checkLevelUp _).
  destruct (autosavePhase_effect wd) as (E1 & _ & _ & _ & E2).
  destruct (settings_until_autosave w) as (S1 & S2). fold wd in S1, S2.
  split; [exact E1|]. split.
  - destruct (checkLevelUp_iterates (exec spawnPhase (exec processBattle (exec accrualPhase w))))
      as (k & _ & _ & Hexit).
    now apply levelUpCondition_false.
  - split; [rewrite E2, S1, S2; reflexivity|].
    vm_compute. repeat split.
Qed.

(** ** The battle slot *)

Lemma buyUpgrade_battle (t : UpgradeType) (w : World) :
  battle (gameState (exec (buyUpgrade t) w)) = battle (gameState w).
Proof.
  unfold buyUpgrade, exec, bind, getState. cbn beta iota zeta.
  destruct (Qle_bool _ _); reflexivity.
Qed.

Lemma onEditorInteraction_battle (k : InteractionType) (w : World) :
  battle (gameState (exec (onEditorInteraction k) w)) = battle (gameState w).
Proof.
  destruct k; unfold onEditorInteraction, exec, bind, getState, modify, Math_random;
    cbn beta iota zeta; try reflexivity.
  destruct (Qltb _ 0.1); reflexivity.
Qed.

Lemma battleConsistent_battle (s s' : GameState) :
  battle s' = battle s -> battleConsistent s -> battleConsistent s'.
Proof.
  unfold battleConsistent, isInBattle_of, currentBug_of. now intros ->.
Qed.

Lemma battleConsistent_cases (s : GameState) :
  battleConsistent s <->
  (exists b, battle s = Battle.mk (Some b) true) \/ battle s = Battle.mk None false.
Proof.
  unfold battleConsistent, isInBattle_of, currentBug_of.
  destruct (battle s) as [[b|] [|]]; simpl; split;
    try (intros [[b' H]|H]; discriminate H).
  - intros _. left. eauto.
  - intros _. split; [discriminate|reflexivity].
  - intros [_ H]. discriminate H. discriminate.
  - intros [H _]. exfalso. now apply H.
  - intros _. now right.
  - intros _. split; [discriminate|congruence].
Qed.

Lemma spawnPhase_from_idle (wb : World) :
  battle (gameState wb) = Battle.mk None false ->
  let wc := exec spawnPhase wb in
  if Qltb (rval (randomSource wb (randomsDrawn wb))) 0.1
  then exists bug, battle (gameState wc) = Battle.mk (Some bug) true
  else battle (gameState wc) = Battle.mk None false.
Proof.
  intros Hb. cbv zeta.
  assert (Hidle : isInBattle_of (gameState wb) = false)
    by (unfold isInBattle_of; now rewrite Hb).
  pose proof (spawnPhase_idle wb Hidle) as Hs. cbv zeta in Hs. rewrite Hs.
  destruct (Qltb _ 0.1); [|exact Hb].
  match goal with |- context [exec spawnRandomBug ?v] =>
    destruct (spawnRandomBug_effect v) as (_ & Hflag & (bug & Hbug & _) & _)
  end.
  exists bug. unfold isInBattle_of, currentBug_of in Hflag, Hbug.
  match goal with |- battle ?s = _ => destruct (battle s) as [cb ib] end.
  simpl in Hflag, Hbug. now subst.
Qed.

Lemma processBattle_slot (wa : World) (b : Bug.t) :
  battle (gameState wa) = Battle.mk (Some b) true ->
  let health' :=
    Bug.health b - Qmax 1 (Stats.algorithm (stats (gameState wa)) - Bug.iteration b) in
  battle (gameState (exec processBattle wa))
  = if Qle_bool health' 0 then Battle.mk None false
    else Battle.mk (Some (Bug.with_health health' b)) true.
Proof.
  intros Hb. cbv zeta.
  assert (Hin : isInBattle_of (gameState wa) = true)
    by (unfold isInBattle_of; now rewrite Hb).
  assert (Hbug : currentBug_of (gameState wa) = Some b)
    by (unfold currentBug_of; now rewrite Hb).
  destruct (Qle_bool _ 0) eqn:E.
  - apply Qle_bool_iff in E.
    destruct (processBattle_defeats wa b Hin Hbug E) as (_ & _ & _ & _ & P5 & P6 & _).
    unfold isInBattle_of, currentBug_of in P5, P6.
    destruct (battle (gameState (exec processBattle wa))) as [cb ib].
    simpl in P5, P6. now subst.
  - apply Qle_bool_false in E.
    rewrite (processBattle_survives wa b Hin Hbug E).
    unfold set_currentBug, set_battle. simpl. now rewrite Hb.
Qed.

(** How one tick moves the slot, from a state whose flag agrees with it. *)
Lemma tick_slot (w : World) :
  battleConsistent (gameState w) ->
  let w' := exec updateGameState w in
  battleConsistent (gameState w')
  /\ activeEncounters (gameState w')
     = (activeEncounters (gameState w) - count (tickDefeats w) + count (tickSpawns w))%Z
  /\ (if tickSpawns w
      then currentBug_of (gameState (afterCombat w)) = None
      else battle (gameState w') = battle (gameState (afterCombat w))).
Proof.
  intros Hc. apply battleConsistent_cases in Hc. cbv zeta.
  rewrite exec_updateGameState.
  unfold tickDefeats, tickSpawns, afterCombat, activeEncounters.
  destruct (accrualPhase_effect w)
    as (_ & _ & _ & _ & _ & _ & _ & _ & _ & _ & _ & _ & A & _).
  set (wa := exec accrualPhase w) in *.
  destruct (after_combat_frame (exec processBattle wa)) as (_ & _ & F).
  rewrite battleConsistent_cases.
  unfold isInBattle_of, currentBug_of in *. rewrite F.
  destruct Hc as [[b Hb]|Hb]; rewrite A, Hb; rewrite <- A in Hb; simpl.
  - rewrite (processBattle_slot wa b Hb).
    pose proof (processBattle_slot wa b Hb) as Hp. cbv zeta in Hp.
    destruct (Qle_bool _ 0) eqn:E; simpl.
    + pose proof (spawnPhase_from_idle _ Hp) as Hs. cbv zeta in Hs.
      destruct (Qltb _ 0.1); simpl.
      * destruct Hs as [bug Hs]. rewrite Hs. simpl. eauto.
      * rewrite Hs. simpl. auto.
    + assert (Hflag : isInBattle_of (gameState (exec processBattle wa)) = true)
        by (unfold isInBattle_of; now rewrite Hp).
      rewrite (spawnPhase_in_battle _ Hflag), Hp. simpl. eauto.
  - assert (Hidle : exec processBattle wa = wa).
    { apply processBattle_idle. left. unfold isInBattle_of. now rewrite Hb. }
    rewrite Hidle, Hb. simpl.
    pose proof (spawnPhase_from_idle _ Hb) as Hs. cbv zeta in Hs.
    destruct (Qltb _ 0.1); simpl.
    + destruct Hs as [bug Hs]. rewrite Hs. simpl. eauto.
    + rewrite Hs. simpl. auto.
Qed.

Lemma afterCombat_consistent (w : World) :
  battleConsistent (gameState w) -> battleConsistent (gameState (afterCombat w)).
Proof.
  intros Hc. apply battleConsistent_cases in Hc. apply battleConsistent_cases.
  unfold afterCombat.
  destruct (accrualPhase_effect w)
    as (_ & _ & _ & _ & _ & _ & _ & _ & _ & _ & _ & _ & A & _).
  set (wa := exec accrualPhase w) in *. rewrite <- A in Hc.
  destruct Hc as [[b Hb]|Hb].
  - rewrite (processBattle_slot wa b Hb). destruct (Qle_bool _ 0); eauto.
  - rewrite processBattle_idle; [now right|].
    left. unfold isInBattle_of. now rewrite Hb.
Qed.

Lemma defeatBug_clears (bug : Bug.t) (w : World) :
  battle (gameState (exec (defeatBug bug) w)) = Battle.mk None false.
Proof.
  destruct_world w. run. destruct se as [a [|]]; reflexivity.
Qed.

Lemma runOp_battle (o : Op) (w : World) :
  match o with
  | Tick => True
  | Reset => battle (gameState (exec (runOp o) w)) = Battle.mk None false
  | _ => battle (gameState (exec (runOp o) w)) = battle (gameState w)
  end.
Proof.
  destruct o as [|t|k| |]; simpl; try exact I; try reflexivity.
  - rewrite exec_bind. apply buyUpgrade_battle.
  - apply onEditorInteraction_battle.
Qed.

Lemma runOp_consistent (o : Op) (w : World) :
  battleConsistent (gameState w) -> battleConsistent (gameState (exec (runOp o) w)).
Proof.
  intros Hc. pose proof (runOp_battle o w) as Hb.
  destruct o; try (eapply battleConsistent_battle; eassumption).
  - now apply tick_slot.
  - apply battleConsistent_cases. now right.
Qed.

Lemma runOps_ledger (ops : list Op) (w : World) (alive : Z) :
  battleConsistent (gameState w) ->
  activeEncounters (gameState w) = alive ->
  battleConsistent (gameState (runOps ops w))
  /\ activeEncounters (gameState (runOps ops w)) = encountersAlive ops w alive.
Proof.
  revert w alive. induction ops as [|o rest IH]; intros w alive Hc Ha; simpl.
  - now split.
  - apply IH; [now apply runOp_consistent|].
    pose proof (runOp_battle o w) as Hb.
    destruct o; try (unfold activeEncounters, currentBug_of in *; now rewrite Hb).
    subst alive. now apply tick_slot.
Qed.

Lemma activeEncounters_bounds (s : GameState) :
  (0 <= activeEncounters s <= 1)%Z.
Proof. unfold activeEncounters. destruct (currentBug_of s); lia. Qed.

Lemma default_consistent : battleConsistent createDefaultGameState.
Proof. apply battleConsistent_cases. now right. Qed.

(** C6: along any sequence of operations from the default state (ticks
    in particular) the encounters spawned and not yet defeated number 0 or
    1, and they are exactly what the slot holds.  In the next tick the
    spawn check draws no number when an encounter survived the combat
    resolution, and whenever it spawns the slot was empty: no tick adds an
    encounter to one that is there. *)
Theorem at_most_one_encounter (ops : list Op) (g : option GameState)
    (sh : list Notification) (rs : nat -> Rand) (n : nat) :
  let w0 := mkWorld createDefaultGameState g sh rs n in
  let w := runOps ops w0 in
  let wb := afterCombat w in
  (0 <= encountersAlive ops w0 0 <= 1)%Z
  /\ encountersAlive ops w0 0%Z = activeEncounters (gameState w)
  /\ exec updateGameState w = exec autosavePhase (exec checkLevelUp (exec spawnPhase wb))
  /\ match currentBug_of (gameState wb) with
     | Some _ => exec spawnPhase wb = wb /\ tickSpawns w = false
     | None => True
     end
  /\ (if tickSpawns w
      then currentBug_of (gameState wb) = None
      else battle (gameState (exec updateGameState w)) = battle (gameState wb)).
Proof.
  cbv zeta.
  destruct (runOps_ledger ops (mkWorld createDefaultGameState g sh rs n) 0%Z
              default_consistent eq_refl) as (Hc & Ha).
  set (w := runOps ops _) in *.
  rewrite <- Ha. split; [apply activeEncounters_bounds|]. split; [reflexivity|].
  split; [apply exec_updateGameState|]. split.
  - pose proof (afterCombat_consistent w Hc) as Hb.
    destruct (currentBug_of (gameState (afterCombat w))) as [b|] eqn:E; [|exact I].
    assert (Hflag : isInBattle_of (gameState (afterCombat w)) = true).
    { apply Hb. rewrite E. discriminate. }
    split; [now apply spawnPhase_in_battle|].
    unfold tickSpawns. cbv zeta. now rewrite Hflag.
  - now apply tick_slot.
Qed.

(** C10: in every state reached from the default state by ticks,
    purchases, editor interactions, resets and saves, [isInBattle] is true
    exactly when [currentBug] is not null.  Each operation preserves this
    agreement from any state that has it: [spawnRandomBug] sets both
    fields, [defeatBug] clears both, the default state has both clear. *)
Theorem battle_flag_agrees_with_slot :
  (forall (ops : list Op) (g : option GameState) (sh : list Notification)
          (rs : nat -> Rand) (n : nat),
     let s := gameState (runOps ops (mkWorld createDefaultGameState g sh rs n)) in
     isInBattle_of s = true <-> currentBug_of s <> None)
  /\ (forall (o : Op) (w : World),
        battleConsistent (gameState w) ->
        battleConsistent (gameState (exec (runOp o) w)))
  /\ (forall w : World,
        let s := gameState (exec spawnRandomBug w) in
        isInBattle_of s = true /\ currentBug_of s <> None)
  /\ (forall (bug : Bug.t) (w : World),
        let s := gameState (exec (defeatBug bug) w) in
        isInBattle_of s = false /\ currentBug_of s = None)
  /\ isInBattle_of createDefaultGameState = false
  /\ currentBug_of createDefaultGameState = None.
Proof.
  split; [|split; [|split; [|split]]].
  - intros ops g sh rs n.
    apply (runOps_ledger ops (mkWorld createDefaultGameState g sh rs n) 0%Z);
      [apply default_consistent|reflexivity].
  - apply runOp_consistent.
  - intros w. cbv zeta.
    destruct (spawnRandomBug_effect w) as (_ & Hflag & (bug & Hbug & _) & _).
    split; [exact Hflag|]. rewrite Hbug. discriminate.
  - intros bug w. cbv zeta. unfold isInBattle_of, currentBug_of.
    now rewrite defeatBug_clears.
  - split; reflexivity.
Qed.

(** ** Upgrade costs along a run *)

Lemma updateGameState_upgradeCosts (w : World) :
  upgradeCosts (gameState (exec updateGameState w)) = upgradeCosts (gameState w).
Proof.
  rewrite exec_updateGameState.
  destruct (accrualPhase_effect w)
    as (_ & _ & _ & _ & _ & _ & _ & _ & _ & _ & A & _).
  set (wa := exec accrualPhase w) in *.
  destruct (processBattle_frame wa) as (_ & _ & _ & _ & _ & B & _).
  set (wb := exec processBattle wa) in *.
  destruct (spawnPhase_frame wb) as (_ & _ & _ & C & _).
  set (wc := exec spawnPhase wb) in *.
  destruct (checkLevelUp_frame wc) as (_ & D & _).
  set (wd := exec checkLevelUp wc) in *.
  destruct (autosavePhase_effect wd) as (E & _).
  congruence.
Qed.

Lemma buyUpgrade_upgradeCosts (t : UpgradeType) (w : World) :
  upgradeCosts (gameState (exec (buyUpgrade t) w))
  = if result (buyUpgrade t) w
    then Stats.set t (scaleCost (Stats.get t (upgradeCosts (gameState w))))
           (upgradeCosts (gameState w))
    else upgradeCosts (gameState w).
Proof.
  unfold buyUpgrade, exec, result, bind, getState. cbn beta iota zeta.
  destruct (Qle_bool _ _); reflexivity.
Qed.

Lemma onEditorInteraction_upgradeCosts (k : InteractionType) (w : World) :
  upgradeCosts (gameState (exec (onEditorInteraction k) w)) = upgradeCosts (gameState w).
Proof.
  destruct k; unfold onEditorInteraction, exec, bind, getState, modify, Math_random;
    cbn beta iota zeta; try reflexivity.
  destruct (Qltb _ 0.1); reflexivity.
Qed.

Lemma Stats_get_set (t t' : UpgradeType) (v : Q) (s : Stats.t) :
  Stats.get t (Stats.set t' v s) = if UpgradeType_eqb t t' then v else Stats.get t s.
Proof. destruct t, t'; reflexivity. Qed.

Lemma runOps_cost (t : UpgradeType) (ops : list Op) (w : World) (n : nat) :
  Stats.get t (upgradeCosts (gameState w)) = costAfter n (initialCost t) ->
  Stats.get t (upgradeCosts (gameState (runOps ops w)))
  = costAfter (purchasesOf t ops w n) (initialCost t).
Proof.
  revert w n. induction ops as [|o rest IH]; intros w n Hn; simpl; [exact Hn|].
  apply IH. destruct o as [|t'|k| |]; simpl.
  - now rewrite updateGameState_upgradeCosts.
  - rewrite exec_bind. cbv beta. rewrite exec_ret, buyUpgrade_upgradeCosts.
    destruct (result (buyUpgrade t') w).
    + rewrite Stats_get_set.
      destruct (UpgradeType_eqb t t') eqn:E; simpl; [|exact Hn].
      assert (t = t') by (destruct t, t'; try discriminate E; reflexivity).
      subst t'. rewrite Hn. reflexivity.
    + rewrite andb_false_r. exact Hn.
  - now rewrite onEditorInteraction_upgradeCosts.
  - reflexivity.
  - exact Hn.
Qed.

Lemma power_succ (n : nat) : 1.5 ^ Z.of_nat (S n) == 1.5 ^ Z.of_nat n * 1.5.
Proof.
  rewrite Nat2Z.inj_succ. unfold Z.succ.
  rewrite Qpower_plus by (intros H; discriminate H). reflexivity.
Qed.

(** The iterated cost never exceeds the closed form. *)
Lemma costAfter_le_power (n : nat) (c : Q) :
  costAfter n c <= c * 1.5 ^ Z.of_nat n.
Proof.
  induction n as [|n IH].
  - simpl. lra.
  - change (costAfter (S n) c) with (scaleCost (costAfter n c)).
    unfold scaleCost.
    destruct (floor_bounds (costAfter n c * 1.5)) as [Hf _].
    rewrite power_succ. lra.
Qed.

Lemma costAfter_le_closedForm (n : nat) (c : Q) :
  costAfter (S n) c <= closedFormCost (S n) c.
Proof.
  unfold closedFormCost.
  change (costAfter (S n) c) with (inject_Z (Qfloor (costAfter n c * 1.5))).
  rewrite <- Zle_Qle. apply Qfloor_resp_le.
  pose proof (costAfter_le_power n c). rewrite power_succ. lra.
Qed.

(** C3, as stated, fails: after three purchases of [algorithm] from the
    default state its cost is 100, while [floor(30 * 1.5^3)] is 101. *)
Lemma closed_form_cost_refuted :
  let w0 := mkWorld createDefaultGameState None [] (always high) 0 in
  let n := purchasesOf Algorithm threePurchases w0 0 in
  n = 3%nat
  /\ ~ (Stats.get Algorithm (upgradeCosts (gameState (runOps threePurchases w0)))
        == closedFormCost n (initialCost Algorithm)).
Proof.
  cbv zeta. split; [vm_compute; reflexivity|].
  intros H. vm_compute in H. discriminate H.
Qed.

(** ** Save migration *)

Lemma getProp_setProp_eq (k : string) (x child v : JSValue) :
  getProp k v = Some child -> getProp k (setProp k x v) = Some x.
Proof.
  destruct v; simpl; try discriminate. intros _. apply lookup_insert_eq.
Qed.

Lemma getProp_setProp_ne (k k' : string) (x : JSValue) (v : JSValue) :
  k <> k' -> getProp k' (setProp k x v) = getProp k' v.
Proof.
  intros Hne. destruct v; simpl; try reflexivity. now apply lookup_insert_ne.
Qed.

Lemma setProp_same (k : string) (x v : JSValue) :
  getProp k v = Some x -> setProp k x v = v.
Proof.
  destruct v; simpl; try discriminate. intros H. f_equal. now apply insert_id.
Qed.

Lemma setProp_setProp (k : string) (x y v : JSValue) :
  setProp k x (setProp k y v) = setProp k x v.
Proof.
  destruct v; simpl; try reflexivity. f_equal. apply insert_insert_eq.
Qed.

Lemma setProp_commute (k k' : string) (x y v : JSValue) :
  k <> k' -> setProp k x (setProp k' y v) = setProp k' y (setProp k x v).
Proof.
  intros Hne. destruct v; simpl; try reflexivity. f_equal.
  now apply insert_insert_ne.
Qed.

Lemma renameProp_not_object (old new : string) (v : JSValue) :
  (forall props, v <> JObj props) -> renameProp old new v = v.
Proof.
  intros H. destruct v; try reflexivity. now destruct (H props).
Qed.

Lemma updatePath_cons (k : string) (rest : list string) (f : JSValue -> JSValue)
    (v : JSValue) :
  updatePath (k :: rest) f v
  = match getProp k v with
    | Some child => setProp k (updatePath rest f child) v
    | None => v
    end.
Proof. reflexivity. Qed.

Lemma updatePath_compose (path : list string) (f g : JSValue -> JSValue) (v : JSValue) :
  updatePath path f (updatePath path g v) = updatePath path (fun u => f (g u)) v.
Proof.
  revert v. induction path as [|k rest IH]; intros v; [reflexivity|].
  rewrite !updatePath_cons.
  destruct (getProp k v) as [child|] eqn:E.
  - rewrite (getProp_setProp_eq _ _ _ _ E), setProp_setProp, IH. reflexivity.
  - now rewrite E.
Qed.

(** Updates under different top-level keys commute. *)
Lemma updatePath_commute_heads (k k' : string) (p p' : list string)
    (f g : JSValue -> JSValue) (v : JSValue) :
  k <> k' ->
  updatePath (k :: p) f (updatePath (k' :: p') g v)
  = updatePath (k' :: p') g (updatePath (k :: p) f v).
Proof.
  intros Hne. rewrite !updatePath_cons.
  destruct (getProp k v) as [c|] eqn:E, (getProp k' v) as [c'|] eqn:E'.
  all: rewrite ?E, ?E'; repeat (rewrite getProp_setProp_ne by congruence);
    rewrite ?E, ?E'; try reflexivity.
  now apply setProp_commute.
Qed.

(** Renames on one object commute when their four keys differ. *)
Lemma renameProp_commute (o1 n1 o2 n2 : string) (v : JSValue) :
  o1 <> o2 -> o1 <> n2 -> n1 <> o2 -> n1 <> n2 ->
  renameProp o1 n1 (renameProp o2 n2 v) = renameProp o2 n2 (renameProp o1 n1 v).
Proof.
  intros H1 H2 H3 H4. destruct v as [| | | | |m]; try reflexivity.
  unfold renameProp. simpl.
  destruct (m !! o1) as [x|] eqn:E1, (m !! o2) as [y|] eqn:E2; simpl.
  - rewrite lookup_delete_ne, lookup_insert_ne, E1 by congruence.
    rewrite lookup_delete_ne, lookup_insert_ne, E2 by congruence. simpl.
    f_equal. apply map_eq. intros i.
    destruct (decide (i = o1)), (decide (i = o2)), (decide (i = n1)),
      (decide (i = n2)); simplify_map_eq; reflexivity.
  - rewrite lookup_delete_ne, lookup_insert_ne, E2 by congruence.
    now rewrite E1.
  - rewrite lookup_delete_ne, lookup_insert_ne, E1 by congruence.
    now rewrite E2.
  - now rewrite E1, E2.
Qed.

Lemma renameProp_absent (old new : string) (v : JSValue) :
  getProp old v = None -> renameProp old new v = v.
Proof. unfold renameProp. now intros ->. Qed.

Lemma renameProp_old_gone (old new : string) (v : JSValue) :
  old <> new -> getProp old (renameProp old new v) = None.
Proof.
  intros Hne. unfold renameProp.
  destruct (getProp old v) as [x|] eqn:E; [|exact E].
  destruct v; simpl in *; try reflexivity. apply lookup_delete_eq.
Qed.

Lemma renameProp_new_value (old new : string) (x v : JSValue) :
  old <> new -> getProp old v = Some x ->
  getProp new (renameProp old new v) = Some x.
Proof.
  intros Hne E. unfold renameProp. rewrite E.
  destruct v; simpl in *; try discriminate.
  rewrite lookup_delete_ne, lookup_insert_eq by congruence. reflexivity.
Qed.

Lemma renameProp_other_key (old new k : string) (v : JSValue) :
  k <> old -> k <> new -> getProp k (renameProp old new v) = getProp k v.
Proof.
  intros H1 H2. unfold renameProp.
  destruct (getProp old v) as [x|] eqn:E; [|reflexivity].
  destruct v; simpl in *; try reflexivity.
  rewrite lookup_delete_ne, lookup_insert_ne by congruence. reflexivity.
Qed.

(** The source, block after block, is the list of renames applied in
    order. *)
Lemma migrateSavedState_renames (v : JSValue) :
  migrateSavedState v = applyRenames renames v.
Proof.
  unfold applyRenames, renames, statsRenames, costRenames, bugRenames, applyRename.
  cbn [fold_left app location oldKey newKey].
  rewrite !updatePath_compose. unfold migrateSavedState.
  set (v1 := match getProp "stats" v with Some _ => _ | None => _ end).
  assert (H1 : v1 = updatePath ["stats"]
                 (fun u => renameProp "defense" "iteration"
                             (renameProp "attack" "algorithm"
                                (renameProp "computingPower" "handSpeed" u))) v).
  { subst v1. rewrite updatePath_cons. simpl updatePath.
    destruct (getProp "stats" v) as [st|] eqn:E; [|reflexivity].
    destruct (truthy st) eqn:T; [reflexivity|].
    rewrite !(renameProp_not_object _ _ st)
      by (intros props ->; discriminate T).
    symmetry. now apply setProp_same. }
  rewrite H1. clear H1 v1.
  set (u := updatePath ["stats"] _ v).
  set (v2 := match getProp "upgradeCosts" u with Some _ => _ | None => _ end).
  assert (H2 : v2 = updatePath ["upgradeCosts"]
                 (fun w => renameProp "defense" "iteration"
                             (renameProp "attack" "algorithm"
                                (renameProp "computingPower" "handSpeed" w))) u).
  { subst v2. rewrite updatePath_cons. simpl updatePath.
    destruct (getProp "upgradeCosts" u) as [st|] eqn:E; [|reflexivity].
    destruct (truthy st) eqn:T; [reflexivity|].
    rewrite !(renameProp_not_object _ _ st)
      by (intros props ->; discriminate T).
    symmetry. now apply setProp_same. }
  rewrite H2. clear H2 v2.
  set (u2 := updatePath ["upgradeCosts"] _ u).
  rewrite !updatePath_cons. simpl updatePath.
  destruct (getProp "battle" u2) as [bt|] eqn:E; [|reflexivity].
  destruct (getProp "currentBug" bt) as [bug|] eqn:E'.
  - destruct (truthy bug) eqn:T; [reflexivity|].
    rewrite !(renameProp_not_object _ _ bug)
      by (intros props ->; discriminate T).
    rewrite (setProp_same _ _ _ E'). symmetry. now apply setProp_same.
  - symmetry. now apply setProp_same.
Qed.

Lemma updatePath_ext (path : list string) (f g : JSValue -> JSValue) (v : JSValue) :
  (forall u, f u = g u) -> updatePath path f v = updatePath path g v.
Proof.
  intros H. revert v. induction path as [|k rest IH]; intros v; simpl; [apply H|].
  destruct (getProp k v); [now rewrite IH|reflexivity].
Qed.

Lemma getPath_updatePath_same (path : list string) (f : JSValue -> JSValue)
    (v : JSValue) :
  getPath path (updatePath path f v) = option_map f (getPath path v).
Proof.
  revert v. induction path as [|k rest IH]; intros v; [reflexivity|].
  rewrite updatePath_cons. simpl getPath.
  destruct (getProp k v) as [c|] eqn:E.
  - now rewrite (getProp_setProp_eq _ _ _ _ E), IH.
  - now rewrite E.
Qed.

Lemma getPath_updatePath_heads (k k' : string) (p p' : list string)
    (f : JSValue -> JSValue) (v : JSValue) :
  k <> k' -> getPath (k :: p) (updatePath (k' :: p') f v) = getPath (k :: p) v.
Proof.
  intros Hne. rewrite updatePath_cons. simpl getPath.
  destruct (getProp k' v); [|reflexivity].
  now rewrite getProp_setProp_ne by congruence.
Qed.

Lemma updatePath_absent (path : list string) (old new : string) (v : JSValue) :
  valueAt path old v = None -> updatePath path (renameProp old new) v = v.
Proof.
  unfold valueAt. revert v. induction path as [|k rest IH]; intros v; simpl.
  - apply renameProp_absent.
  - destruct (getProp k v) as [c|] eqn:E; [|reflexivity].
    intros H. rewrite (IH _ H). now apply setProp_same.
Qed.

Section Renames.
Variables r r' : Rename.

Lemma independentb_spec :
  independentb r r' = true ->
  (exists k p k' p', location r = k :: p /\ location r' = k' :: p' /\ k <> k')
  \/ (location r = location r'
      /\ oldKey r <> oldKey r' /\ oldKey r <> newKey r'
      /\ newKey r <> oldKey r' /\ newKey r <> newKey r').
Proof.
  unfold independentb.
  destruct (location r) as [|k p] eqn:L, (location r') as [|k' p'] eqn:L';
    try discriminate.
  destruct (String.eqb k k') eqn:E; simpl.
  - destruct (decide _) as [Heq|]; [|discriminate].
    rewrite !andb_true_iff, !negb_true_iff, !String.eqb_neq.
    intros (((H1 & H2) & H3) & H4). right. now rewrite Heq.
  - intros _. left. apply String.eqb_neq in E. exists k, p, k', p'. auto.
Qed.

Lemma applyRename_commute (v : JSValue) :
  independentb r r' = true ->
  applyRename r (applyRename r' v) = applyRename r' (applyRename r v).
Proof.
  intros H. unfold applyRename.
  destruct (independentb_spec H)
    as [(k & p & k' & p' & L & L' & Hne)|(L & H1 & H2 & H3 & H4)].
  - rewrite L, L'. now apply updatePath_commute_heads.
  - rewrite L, !updatePath_compose. apply updatePath_ext.
    intros u. now apply renameProp_commute.
Qed.

Lemma valueAt_applyRename_independent (k : string) (v : JSValue) :
  independentb r r' = true ->
  k = oldKey r \/ k = newKey r ->
  valueAt (location r) k (applyRename r' v) = valueAt (location r) k v.
Proof.
  intros H Hk. unfold applyRename, valueAt.
  destruct (independentb_spec H)
    as [(h & p & h' & p' & L & L' & Hne)|(L & H1 & H2 & H3 & H4)].
  - rewrite L, L'. now rewrite getPath_updatePath_heads.
  - rewrite L, getPath_updatePath_same.
    destruct (getPath (location r') v) as [o|]; simpl; [|reflexivity].
    apply renameProp_other_key; destruct Hk; congruence.
Qed.
End Renames.

Lemma valueAt_applyRename_old (r : Rename) (v : JSValue) :
  oldKey r <> newKey r ->
  valueAt (location r) (oldKey r) (applyRename r v) = None.
Proof.
  intros Hne. unfold valueAt, applyRename. rewrite getPath_updatePath_same.
  destruct (getPath (location r) v); simpl; [|reflexivity].
  now apply renameProp_old_gone.
Qed.

Lemma valueAt_applyRename_new (r : Rename) (v : JSValue) :
  oldKey r <> newKey r ->
  valueAt (location r) (newKey r) (applyRename r v)
  = match valueAt (location r) (oldKey r) v with
    | Some x => Some x
    | None => valueAt (location r) (newKey r) v
    end.
Proof.
  intros Hne. destruct (valueAt (location r) (oldKey r) v) as [x|] eqn:E.
  - unfold valueAt, applyRename in *. rewrite getPath_updatePath_same.
    destruct (getPath (location r) v); simpl in *; [|discriminate].
    now apply renameProp_new_value.
  - unfold applyRename. now rewrite updatePath_absent.
Qed.

Lemma applyRenames_cons (r : Rename) (rs : list Rename) (v : JSValue) :
  applyRenames (r :: rs) v = applyRenames rs (applyRename r v).
Proof. reflexivity. Qed.

(** Renames that pairwise commute can be applied in any order. *)
Lemma applyRenames_permutation (rs rs' : list Rename) :
  Permutation rs rs' ->
  (forall r r', In r rs -> In r' rs -> r = r' \/ independentb r r' = true) ->
  forall v, applyRenames rs v = applyRenames rs' v.
Proof.
  induction 1 as [|x l l' Hp IH|x y l|l l' l'' Hp IH Hp' IH']; intros Hind v.
  - reflexivity.
  - rewrite !applyRenames_cons. apply IH.
    intros r r' Hr Hr'. apply Hind; now right.
  - rewrite !applyRenames_cons. f_equal.
    destruct (Hind x y) as [->|Hxy]; [right; now left|now left|reflexivity|].
    now apply applyRename_commute.
  - rewrite IH by exact Hind. apply IH'.
    intros r r' Hr Hr'.
    apply Hind; [apply (Permutation_in _ (Permutation_sym Hp) Hr)
                |apply (Permutation_in _ (Permutation_sym Hp) Hr')].
Qed.

Lemma applyRenames_keeps (r : Rename) (k : string) (rs : list Rename) (v : JSValue) :
  k = oldKey r \/ k = newKey r ->
  (forall r', In r' rs -> independentb r r' = true) ->
  valueAt (location r) k (applyRenames rs v) = valueAt (location r) k v.
Proof.
  intros Hk. revert v. induction rs as [|x rs IH]; intros v Hind; [reflexivity|].
  rewrite applyRenames_cons, IH by (intros r' Hr'; apply Hind; now right).
  apply valueAt_applyRename_independent; [apply Hind; now left|exact Hk].
Qed.

Lemma applyRenames_nothing (rs : list Rename) (v : JSValue) :
  (forall r, In r rs -> valueAt (location r) (oldKey r) v = None) ->
  applyRenames rs v = v.
Proof.
  induction rs as [|x rs IH]; intros H; [reflexivity|].
  rewrite applyRenames_cons. unfold applyRename at 1.
  rewrite updatePath_absent by (apply H; now left).
  apply IH. intros r Hr. apply H. now right.
Qed.

Lemma renames_independent (r r' : Rename) :
  In r renames -> In r' renames -> r = r' \/ independentb r r' = true.
Proof.
  unfold renames, statsRenames, costRenames, bugRenames. simpl.
  intros Hr Hr'.
  repeat (destruct Hr as [<-|Hr]); try contradiction;
    repeat (destruct Hr' as [<-|Hr']); try contradiction;
    solve [now left | right; vm_compute; reflexivity].
Qed.

Lemma renames_keys_differ (r : Rename) : In r renames -> oldKey r <> newKey r.
Proof.
  unfold renames, statsRenames, costRenames, bugRenames. simpl. intros Hr.
  repeat (destruct Hr as [<-|Hr]); try contradiction; discriminate.
Qed.

Lemma renames_NoDup : List.NoDup renames.
Proof.
  unfold renames, statsRenames, costRenames, bugRenames. simpl.
  repeat (apply List.NoDup_cons;
          [simpl; intros H; repeat (destruct H as [H|H]); try discriminate H; exact H|]).
  apply List.NoDup_nil.
Qed.

(** Any rename of the table can be taken as the first step of the
    migration; the others do not interfere with it. *)
Lemma migration_rename_first (r : Rename) :
  In r renames ->
  exists rest : list Rename,
    (forall r', In r' rest -> independentb r r' = true)
    /\ forall v, migrateSavedState v = applyRenames rest (applyRename r v).
Proof.
  intros Hr. destruct (in_split _ _ Hr) as (l1 & l2 & Heq).
  exists (l1 ++ l2). split.
  - intros r' Hr'.
    assert (Hin : In r' renames).
    { rewrite Heq. apply in_app_iff. apply in_app_iff in Hr'.
      destruct Hr'; [now left|right; now right]. }
    destruct (renames_independent r r' Hr Hin) as [->|H]; [|exact H].
    exfalso. pose proof renames_NoDup as Hnd. rewrite Heq in Hnd.
    now apply List.NoDup_remove_2 in Hnd.
  - intros v. rewrite migrateSavedState_renames.
    rewrite <- applyRenames_cons.
    apply applyRenames_permutation; [|apply renames_independent].
    rewrite Heq. symmetry. apply Permutation_middle.
Qed.

Lemma migration_rename_effect (r : Rename) (v : JSValue) :
  In r renames ->
  valueAt (location r) (oldKey r) (migrateSavedState v) = None
  /\ valueAt (location r) (newKey r) (migrateSavedState v)
     = match valueAt (location r) (oldKey r) v with
       | Some x => Some x
       | None => valueAt (location r) (newKey r) v
       end.
Proof.
  intros Hr. destruct (migration_rename_first r Hr) as (rest & Hind & Heq).
  pose proof (renames_keys_differ r Hr) as Hne.
  rewrite Heq, !applyRenames_keeps by auto.
  split; [now apply valueAt_applyRename_old|now apply valueAt_applyRename_new].
Qed.

Lemma filter_nil {A} (f : A -> bool) (l : list A) :
  (forall x, In x l -> f x = false) <-> List.filter f l = [].
Proof.
  induction l as [|a l IH]; simpl; [tauto|].
  destruct (f a) eqn:E; split.
  - intros H. rewrite H in E; [discriminate|now left].
  - discriminate.
  - intros H. apply IH. intros x Hx. apply H. now right.
  - intros H x [<-|Hx]; [exact E|]. now apply IH.
Qed.

Lemma deprecatedKeys_nil (v : JSValue) :
  deprecatedKeys v = []
  <-> forall r, In r renames -> valueAt (location r) (oldKey r) v = None.
Proof.
  unfold deprecatedKeys. rewrite <- filter_nil. unfold hasDeprecated.
  split; intros H r Hr; specialize (H r Hr);
    destruct (valueAt _ _ v); congruence.
Qed.

Lemma migration_clean (v : JSValue) : deprecatedKeys (migrateSavedState v) = [].
Proof.
  apply deprecatedKeys_nil. intros r Hr. now apply migration_rename_effect.
Qed.

Lemma migration_noop (v : JSValue) :
  deprecatedKeys v = [] -> migrateSavedState v = v.
Proof.
  intros H. rewrite migrateSavedState_renames.
  apply applyRenames_nothing. now apply deprecatedKeys_nil.
Qed.

(** C7: the migration of [loadGameState] leaves a blob without
    deprecated keys as it is; on any blob it removes every deprecated key
    of the three groups, whichever of them are present, giving its value to
    the current key (which is otherwise left alone); done twice it equals
    done once; and it equals the eight renames applied in any order. *)
Theorem migration_idempotent_any_order (v : JSValue) :
  (deprecatedKeys v = [] -> migrateSavedState v = v)
  /\ deprecatedKeys (migrateSavedState v) = []
  /\ migrateSavedState (migrateSavedState v) = migrateSavedState v
  /\ (forall r, In r renames ->
        valueAt (location r) (oldKey r) (migrateSavedState v) = None
        /\ valueAt (location r) (newKey r) (migrateSavedState v)
           = match valueAt (location r) (oldKey r) v with
             | Some x => Some x
             | None => valueAt (location r) (newKey r) v
             end)
  /\ (forall rs, Permutation renames rs -> applyRenames rs v = migrateSavedState v)
  /\ loadGameState (Some v)
     = (if truthy v then FromSave (migrateSavedState v)
        else Fresh createDefaultGameState)
  /\ loadGameState None = Fresh createDefaultGameState.
Proof.
  split; [apply migration_noop|]. split; [apply migration_clean|].
  split; [apply migration_noop, migration_clean|].
  split; [intros r Hr; now apply migration_rename_effect|].
  split; [|split; reflexivity].
  intros rs Hp. rewrite migrateSavedState_renames. symmetry.
  apply applyRenames_permutation; [exact Hp|apply renames_independent].
Qed.

Example migration_of_legacyBlob :
  migrateSavedState legacyBlob = currentBlob
  /\ length (deprecatedKeys legacyBlob) = 5%nat
  /\ migrateSavedState currentBlob = currentBlob.
Proof. repeat split; vm_compute; reflexivity. Qed.

(** ** A run with encounters

    With a random source that always returns 0.05 every idle tick spawns:
    the first tick spawns an encounter, the fifth defeats it and spawns the
    next one in the emptied slot. *)
Example ledger_of_eight_ticks :
  let w0 := mkWorld createDefaultGameState None [] (always low) 0 in
  map (fun k => encountersAlive (repeat Tick k) w0 0) (seq 0 8)
  = [0; 1; 1; 1; 1; 1; 1; 1]%Z
  /\ map (fun k => tickDefeats (runOps (repeat Tick k) w0)) (seq 0 8)
     = [false; false; false; false; true; false; false; false]
  /\ map (fun k => tickSpawns (runOps (repeat Tick k) w0)) (seq 0 8)
     = [true; false; false; false; true; false; false; false].
Proof. repeat split; vm_compute; reflexivity. Qed.

(** * Further properties of the engine *)

(** ** What a level-up does to the stats *)

Lemma levelUpBody_stats (w : World) :
  stats (gameState (exec levelUpBody w))
  = Stats.mk (Stats.handSpeed (stats (gameState w)) + 1)
      (Stats.algorithm (stats (gameState w)) + 2)
      (Stats.iteration (stats (gameState w)) + 1).
Proof.
  unfold levelUpBody, exec, bind, modify, getState, when; simpl.
  destruct (Settings.showNotifications _); reflexivity.
Qed.

Lemma levelUpBody_stat (t : UpgradeType) (w : World) :
  Stats.get t (stats (gameState (exec levelUpBody w)))
  = Stats.get t (stats (gameState w)) + statPerLevel t.
Proof. rewrite levelUpBody_stats. destruct t; reflexivity. Qed.

Lemma levelUp_iter_stat (t : UpgradeType) (k : nat) (w : World) :
  Stats.get t (stats (gameState (Nat.iter k (exec levelUpBody) w)))
  == Stats.get t (stats (gameState w)) + statPerLevel t * inject_Z (Z.of_nat k).
Proof.
  induction k as [|k IH].
  - change (inject_Z (Z.of_nat 0)) with 0. simpl. lra.
  - rewrite Nat.iter_succ, levelUpBody_stat, IH, Nat2Z.inj_succ.
    unfold Z.succ. rewrite inject_Z_plus. change (inject_Z 1) with 1. lra.
Qed.

(** The levels one tick gains: the level and each stat move together, and
    nothing before the level-up check touches them. *)
Lemma updateGameState_levels (w : World) :
  exists k : nat,
    level_of (gameState (exec updateGameState w))
    == level_of (gameState w) + inject_Z (Z.of_nat k)
    /\ forall t, Stats.get t (stats (gameState (exec updateGameState w)))
                 == Stats.get t (stats (gameState w))
                    + statPerLevel t * inject_Z (Z.of_nat k).
Proof.
  rewrite exec_updateGameState.
  destruct (accrualPhase_effect w)
    as (_ & _ & _ & _ & _ & _ & _ & _ & A1 & A2 & _).
  set (wa := exec accrualPhase w) in *.
  destruct (processBattle_frame wa) as (_ & _ & B1 & _ & B2 & _).
  set (wb := exec processBattle wa) in *.
  destruct (spawnPhase_frame wb) as (C1 & _ & C2 & _).
  set (wc := exec spawnPhase wb) in *.
  destruct (checkLevelUp_iterates wc) as (k & Hk & _).
  destruct (autosavePhase_effect (exec checkLevelUp wc)) as (E & _).
  exists k. rewrite E, Hk. split.
  - rewrite levelUp_iter_level. unfold level_of in *. now rewrite C1, B1, A1.
  - intros t. rewrite levelUp_iter_stat. now rewrite C2, B2, A2.
Qed.

Lemma buyUpgrade_level_stats (t' : UpgradeType) (w : World) :
  character (gameState (exec (buyUpgrade t') w)) = character (gameState w)
  /\ forall t,
       Stats.get t (stats (gameState (exec (buyUpgrade t') w)))
       = if UpgradeType_eqb t t' && result (buyUpgrade t') w
         then Stats.get t (stats (gameState w)) + statPerPurchase t
         else Stats.get t (stats (gameState w)).
Proof.
  unfold buyUpgrade, exec, result, bind, getState. cbn beta iota zeta.
  destruct (Qle_bool _ _); simpl.
  - split; [reflexivity|]. intros t. rewrite andb_true_r.
    destruct t, t'; reflexivity.
  - split; [reflexivity|]. intros t. now rewrite andb_false_r.
Qed.

Lemma onEditorInteraction_level_stats (k : InteractionType) (w : World) :
  level_of (gameState (exec (onEditorInteraction k) w)) = level_of (gameState w)
  /\ stats (gameState (exec (onEditorInteraction k) w)) = stats (gameState w).
Proof.
  destruct k; unfold onEditorInteraction, exec, bind, getState, modify, Math_random;
    cbn beta iota zeta; try (split; reflexivity).
  destruct (Qltb _ 0.1); split; reflexivity.
Qed.

(** How one operation moves the level and a stat: [k] levels gained (in a
    tick only) and, for a purchase of that stat that succeeds, its step. *)
Lemma runOp_level_stat (t : UpgradeType) (o : Op) (w : World) :
  match o with
  | Reset => True
  | _ =>
      exists k : nat,
        level_of (gameState (exec (runOp o) w))
        == level_of (gameState w) + inject_Z (Z.of_nat k)
        /\ Stats.get t (stats (gameState (exec (runOp o) w)))
           == Stats.get t (stats (gameState w))
              + statPerLevel t * inject_Z (Z.of_nat k)
              + match o with
                | Buy t' =>
                    if UpgradeType_eqb t t' && result (buyUpgrade t') w
                    then statPerPurchase t else 0
                | _ => 0
                end
  end.
Proof.
  destruct o as [|t'|k| |]; try exact I.
  - destruct (updateGameState_levels w) as (k & Hl & Hs).
    exists k. split; [exact Hl|]. rewrite (Hs t). simpl. lra.
  - exists O. simpl runOp. rewrite exec_bind. cbv beta. rewrite exec_ret.
    destruct (buyUpgrade_level_stats t' w) as (Hc & Hs).
    unfold level_of. rewrite Hc, (Hs t).
    change (inject_Z (Z.of_nat 0)) with 0.
    destruct (UpgradeType_eqb t t' && result (buyUpgrade t') w); split; lra.
  - exists O. simpl runOp.
    destruct (onEditorInteraction_level_stats k w) as (Hl & Hs).
    rewrite Hl, Hs. change (inject_Z (Z.of_nat 0)) with 0. split; lra.
  - exists O. change (inject_Z (Z.of_nat 0)) with 0. simpl. split; lra.
Qed.

(** X1: under every operation but a reset, on every state, the level and
    the three stats never decrease. *)
Theorem level_and_stats_never_decrease (o : Op) (w : World) :
  let s := gameState w in
  let s' := gameState (exec (runOp o) w) in
  match o with
  | Reset => s' = createDefaultGameState
  | _ =>
      level_of s <= level_of s'
      /\ Stats.handSpeed (stats s) <= Stats.handSpeed (stats s')
      /\ Stats.algorithm (stats s) <= Stats.algorithm (stats s')
      /\ Stats.iteration (stats s) <= Stats.iteration (stats s')
  end.
Proof.
  cbv zeta.
  assert (Hk : forall k : nat, 0 <= inject_Z (Z.of_nat k)).
  { intros k. change 0 with (inject_Z 0). rewrite <- Zle_Qle. lia. }
  assert (Hstep : forall t b, 0 <= (if b : bool then statPerPurchase t else 0)).
  { intros t b. destruct b, t; simpl; lra. }
  pose proof (runOp_level_stat HandSpeed o w) as H1.
  pose proof (runOp_level_stat Algorithm o w) as H2.
  pose proof (runOp_level_stat Iteration o w) as H3.
  destruct o as [|t'|k| |]; try reflexivity;
    destruct H1 as (k1 & L1 & S1), H2 as (k2 & L2 & S2), H3 as (k3 & L3 & S3);
    cbn [runOp Stats.get statPerLevel] in *;
    pose proof (Hk k1); pose proof (Hk k2); pose proof (Hk k3);
    try pose proof (Hstep HandSpeed (UpgradeType_eqb HandSpeed t' && result (buyUpgrade t') w));
    try pose proof (Hstep Algorithm (UpgradeType_eqb Algorithm t' && result (buyUpgrade t') w));
    try pose proof (Hstep Iteration (UpgradeType_eqb Iteration t' && result (buyUpgrade t') w));
    repeat split; lra.
Qed.

Lemma runOps_stat (t : UpgradeType) (ops : list Op) (w : World) (n : nat) :
  Stats.get t (stats (gameState w))
  == initialStat t + statPerLevel t * (level_of (gameState w) - 1)
     + statPerPurchase t * inject_Z (Z.of_nat n) ->
  Stats.get t (stats (gameState (runOps ops w)))
  == initialStat t + statPerLevel t * (level_of (gameState (runOps ops w)) - 1)
     + statPerPurchase t * inject_Z (Z.of_nat (purchasesOf t ops w n)).
Proof.
  revert w n. induction ops as [|o rest IH]; intros w n Hn; simpl; [exact Hn|].
  apply IH. pose proof (runOp_level_stat t o w) as H.
  destruct o as [|t'|k| |].
  - destruct H as (j & Hl & Hs). rewrite Hs, Hl, Hn.
    ring.
  - destruct H as (j & Hl & Hs). rewrite Hs, Hl, Hn.
    destruct (UpgradeType_eqb t t' && result (buyUpgrade t') w).
    + rewrite Nat2Z.inj_succ. unfold Z.succ. rewrite inject_Z_plus.
      change (inject_Z 1) with 1. ring.
    + ring.
  - destruct H as (j & Hl & Hs). rewrite Hs, Hl, Hn. ring.
  - destruct t; vm_compute; reflexivity.
  - destruct H as (j & Hl & Hs). rewrite Hs, Hl, Hn. ring.
Qed.

(** X2: along any run from the default state each stat is determined by
    the level and by the purchases made since the last reset:
    [handSpeed = level + purchases], [algorithm = 3 + 2 * level + 2 *
    purchases], [iteration = 2 + level + 2 * purchases]. *)
Theorem stats_from_level_and_purchases (ops : list Op) (g : option GameState)
    (sh : list Notification) (rs : nat -> Rand) (n0 : nat) :
  let w0 := mkWorld createDefaultGameState g sh rs n0 in
  let s := gameState (runOps ops w0) in
  let bought t := inject_Z (Z.of_nat (purchasesOf t ops w0 0)) in
  Stats.handSpeed (stats s) == level_of s + bought HandSpeed
  /\ Stats.algorithm (stats s) == 3 + 2 * level_of s + 2 * bought Algorithm
  /\ Stats.iteration (stats s) == 2 + level_of s + 2 * bought Iteration.
Proof.
  cbv zeta.
  set (w0 := mkWorld createDefaultGameState g sh rs n0).
  assert (H : forall t,
    Stats.get t (stats (gameState w0))
    == initialStat t + statPerLevel t * (level_of (gameState w0) - 1)
       + statPerPurchase t * inject_Z (Z.of_nat 0)).
  { intros t. destruct t; vm_compute; reflexivity. }
  pose proof (runOps_stat HandSpeed ops w0 0 (H HandSpeed)) as H1.
  pose proof (runOps_stat Algorithm ops w0 0 (H Algorithm)) as H2.
  pose proof (runOps_stat Iteration ops w0 0 (H Iteration)) as H3.
  simpl Stats.get in *.
  change (initialStat HandSpeed) with 1 in H1.
  change (initialStat Algorithm) with 5 in H2.
  change (initialStat Iteration) with 3 in H3.
  simpl statPerLevel in *. simpl statPerPurchase in *.
  repeat split; lra.
Qed.

(** ** More on the level-up check *)

Lemma checkLevelUp_noop (w : World) :
  levelUpCondition w = false -> exec checkLevelUp w = w.
Proof.
  intros H. apply checkLevelUp_exec. unfold levelUpFuel.
  now rewrite while_S, H.
Qed.

(** X3: [checkLevelUp] does nothing (no level, no notification) on a
    state whose experience is below the threshold, and calling it twice in
    a row is calling it once. *)
Theorem checkLevelUp_idempotent (w : World) :
  (if Qltb (experience_of (gameState w)) (experienceToNext_of (gameState w))
   then exec checkLevelUp w = w else True)
  /\ exec checkLevelUp (exec checkLevelUp w) = exec checkLevelUp w.
Proof.
  split.
  - destruct (Qltb _ _) eqn:E; [|exact I].
    apply checkLevelUp_noop. apply levelUpCondition_false. now apply Qltb_lt.
  - destruct (checkLevelUp_iterates w) as (k & _ & _ & Hexit).
    now apply checkLevelUp_noop.
Qed.

Lemma levelUpBody_shown (w : World) :
  shown (exec levelUpBody w)
  = shown w ++
    (if Settings.showNotifications (settings (gameState w))
     then [LevelReached (level_of (gameState w) + 1)] else []).
Proof.
  destruct_world w. run. destruct se as [a [|]]; [reflexivity|].
  symmetry. apply app_nil_r.
Qed.

Lemma levelUp_iter_shown (k : nat) (w : World) :
  shown (Nat.iter k (exec levelUpBody) w)
  = shown w ++
    (if Settings.showNotifications (settings (gameState w))
     then map LevelReached (levelsReached k (level_of (gameState w))) else []).
Proof.
  revert w. induction k as [|k IH]; intros w.
  - simpl. destruct (Settings.showNotifications _); symmetry; apply app_nil_r.
  - rewrite Nat.iter_succ_r, IH, levelUpBody_shown, levelUpBody_level.
    destruct (levelUpBody_frame w) as (_ & _ & _ & _ & _ & Hs & _).
    rewrite Hs. destruct (Settings.showNotifications _).
    + now rewrite <- app_assoc.
    + now rewrite !app_nil_r.
Qed.

Lemma levelsReached_length (k : nat) (l : Q) : length (levelsReached k l) = k.
Proof. revert l. induction k as [|k IH]; intros l; simpl; [|rewrite IH]; reflexivity. Qed.

(** X4: [checkLevelUp] shows one notification per level gained, in order,
    each announcing the level just reached, and none when notifications
    are switched off. *)
Theorem checkLevelUp_notifies_each_level (w : World) :
  exists k : nat,
    level_of (gameState (exec checkLevelUp w))
    == level_of (gameState w) + inject_Z (Z.of_nat k)
    /\ length (levelsReached k (level_of (gameState w))) = k
    /\ shown (exec checkLevelUp w)
       = shown w ++
         (if Settings.showNotifications (settings (gameState w))
          then map LevelReached (levelsReached k (level_of (gameState w)))
          else []).
Proof.
  destruct (checkLevelUp_iterates w) as (k & Hk & _).
  exists k. rewrite Hk. split; [apply levelUp_iter_level|].
  split; [apply levelsReached_length|apply levelUp_iter_shown].
Qed.




(** ** The invariant of a run from the default state *)

(** Split a world into all the fields of its state. *)
Ltac destruct_all w :=
  let nm := fresh "nm" in let lv := fresh "lv" in let ex := fresh "ex" in
  let tn := fresh "tn" in let loc := fresh "loc" in let fr := fresh "fr" in
  let hs := fresh "hs" in let al := fresh "al" in let it := fresh "it" in
  let chs := fresh "chs" in let cal := fresh "cal" in let cit := fresh "cit" in
  let eq := fresh "eq" in
  let tlg := fresh "tlg" in let tbd := fresh "tbd" in let tpt := fresh "tpt" in
  let ks := fresh "ks" in let fo := fresh "fo" in let fs := fresh "fs" in
  let cb := fresh "cb" in let ib := fresh "ib" in
  let sa := fresh "sa" in let sn := fresh "sn" in
  let g := fresh "g" in let sh := fresh "sh" in let rs := fresh "rs" in
  let n := fresh "n" in
  destruct w as [[[nm lv ex tn] [loc fr] [hs al it] [chs cal cit] eq
                  [tlg tbd tpt ks fo fs] [cb ib] [sa sn]] g sh rs n].

Ltac split_wellFormed H :=
  destruct H as (?W & ?W & ?W & ?W & ?W & ?W & ?W & ?W & ?W & ?W & ?W & ?W & ?W
                 & ?W & ?W & ?W & ?W & ?Weq & ?Wse & ?Wbug).

Lemma floor_nonneg (x : Q) : 0 <= x -> 0 <= inject_Z (Qfloor x).
Proof.
  intros H. change 0 with (inject_Z 0). rewrite <- Zle_Qle.
  rewrite <- (Qfloor_Z 0). now apply Qfloor_resp_le.
Qed.

Lemma floor_at_least (z : Z) (x : Q) : inject_Z z <= x -> inject_Z z <= inject_Z (Qfloor x).
Proof.
  intros H. rewrite <- Zle_Qle. rewrite <- (Qfloor_Z z). now apply Qfloor_resp_le.
Qed.

Lemma default_wellFormed : wellFormed createDefaultGameState.
Proof.
  unfold wellFormed. repeat split; try (vm_compute; discriminate).
Qed.

Lemma accrualPhase_wellFormed (w : World) :
  wellFormed (gameState w) -> wellFormed (gameState (exec accrualPhase w)).
Proof.
  intros H. destruct_all w. run_in H. split_wellFormed H.
  injection Wse as -> ->. subst eq. run.
  repeat split; try assumption; try lra.
Qed.

Lemma processBattle_wellFormed (w : World) :
  wellFormed (gameState w) -> wellFormed (gameState (exec processBattle w)).
Proof.
  intros H. destruct_all w.
  destruct cb as [[bn bt bh bm ba bi [rl rf re]]|];
    run_in H; split_wellFormed H; injection Wse as -> ->; subst eq;
    destruct ib; run; try (repeat split; try assumption; lra).
  destruct Wbug as (R1 & R2 & R3).
  destruct (Qle_bool _ 0); run; [|repeat split; try assumption; lra].
  assert (0 <= inject_Z (Qfloor (rf * it * 0.1))).
  { apply floor_nonneg. apply Qmult_le_0_compat; [|lra].
    apply Qmult_le_0_compat; lra. }
  repeat split; try assumption; try lra.
Qed.

Lemma spawnPhase_wellFormed (w : World) :
  wellFormed (gameState w) -> wellFormed (gameState (exec spawnPhase w)).
Proof.
  intros H. destruct_all w. run_in H. split_wellFormed H.
  injection Wse as -> ->. subst eq.
  destruct ib; run; [repeat split; try assumption; lra|].
  destruct (Qltb _ _); run; [|repeat split; try assumption; lra].
  pose proof (Q.le_max_l 1 (inject_Z (Qfloor (lv / 2)))).
  repeat split; try assumption; lra.
Qed.

Lemma levelUpBody_wellFormed (w : World) :
  levelUpCondition w = true ->
  wellFormed (gameState w) -> wellFormed (gameState (exec levelUpBody w)).
Proof.
  intros Hc H. apply levelUpCondition_true in Hc.
  destruct_all w. run_in H. run_in Hc. split_wellFormed H.
  injection Wse as -> ->. subst eq. run.
  repeat split; try assumption; lra.
Qed.

Lemma checkLevelUp_wellFormed (w : World) :
  wellFormed (gameState w) -> wellFormed (gameState (exec checkLevelUp w)).
Proof.
  apply (checkLevelUp_invariant (fun v => wellFormed (gameState v))).
  intros v Hv Hc. now apply levelUpBody_wellFormed.
Qed.

Lemma updateGameState_wellFormed (w : World) :
  wellFormed (gameState w) -> wellFormed (gameState (exec updateGameState w)).
Proof.
  intros H. rewrite exec_updateGameState.
  destruct (autosavePhase_effect
              (exec checkLevelUp (exec spawnPhase (exec processBattle (exec accrualPhase w)))))
    as (E & _).
  rewrite E.
  now apply checkLevelUp_wellFormed, spawnPhase_wellFormed,
    processBattle_wellFormed, accrualPhase_wellFormed.
Qed.

Lemma buyUpgrade_wellFormed (t : UpgradeType) (w : World) :
  wellFormed (gameState w) -> wellFormed (gameState (exec (buyUpgrade t) w)).
Proof.
  intros H. destruct_all w. run_in H. split_wellFormed H.
  injection Wse as -> ->. subst eq.
  pose proof (floor_at_least 50 (chs * 1.5)).
  pose proof (floor_at_least 30 (cal * 1.5)).
  pose proof (floor_at_least 40 (cit * 1.5)).
  change (inject_Z 50) with 50 in *. change (inject_Z 30) with 30 in *.
  change (inject_Z 40) with 40 in *.
  destruct t; run; destruct (Qle_bool _ loc) eqn:E; run;
    try apply Qle_bool_iff in E;
    repeat split; try assumption; try lra.
Qed.

Lemma onEditorInteraction_wellFormed (k : InteractionType) (w : World) :
  wellFormed (gameState w) -> wellFormed (gameState (exec (onEditorInteraction k) w)).
Proof.
  intros H. destruct_all w. run_in H. split_wellFormed H.
  injection Wse as -> ->. subst eq.
  destruct k; run.
  - destruct (Qltb _ _); run; repeat split; try assumption; lra.
  - repeat split; try assumption; lra.
  - assert (0 <= inject_Z (Qfloor (rval (rs n) * 10))).
    { apply floor_nonneg. destruct (Rand_range (rs n)). lra. }
    run_in H. repeat split; try assumption; lra.
Qed.

Lemma runOp_wellFormed (o : Op) (w : World) :
  wellFormed (gameState w) -> wellFormed (gameState (exec (runOp o) w)).
Proof.
  intros H. destruct o as [|t|k| |]; simpl runOp.
  - now apply updateGameState_wellFormed.
  - rewrite exec_bind. cbv beta. rewrite exec_ret. now apply buyUpgrade_wellFormed.
  - now apply onEditorInteraction_wellFormed.
  - apply default_wellFormed.
  - exact H.
Qed.

Lemma runOps_wellFormed (ops : list Op) (w : World) :
  wellFormed (gameState w) -> wellFormed (gameState (runOps ops w)).
Proof.
  revert w. induction ops as [|o rest IH]; intros w H; simpl; [exact H|].
  now apply IH, runOp_wellFormed.
Qed.

(** X6: every state of a run from the default state is well formed: the
    level is at least 1, the experience is not negative, the threshold is
    the one of the level, no currency or counter is negative, every victory
    has brought at least one fragment, the stats are at least 1, 5 and 3 and
    the costs at least 50, 30 and 40, no equipment is owned, both settings
    are on, and an encounter in the slot carries at least the base rewards
    (10 lines of code, 1 fragment, 5 experience). *)
Theorem runs_keep_state_well_formed (ops : list Op) (g : option GameState)
    (sh : list Notification) (rs : nat -> Rand) (n0 : nat) :
  let s := gameState (runOps ops (mkWorld createDefaultGameState g sh rs n0)) in
  wellFormed s
  /\ 0 <= linesOfCode_of s
  /\ 0 <= bugFragments_of s
  /\ 0 < experienceToNext_of s.
Proof.
  cbv zeta.
  pose proof (runOps_wellFormed ops (mkWorld createDefaultGameState g sh rs n0)
                default_wellFormed) as H.
  split; [exact H|]. set (s := gameState _) in *.
  unfold wellFormed, thresholdFromLevel in H. split_wellFormed H.
  repeat split; lra.
Qed.

(** ** Equipment and settings *)

Lemma updateGameState_equipment_settings (w : World) :
  equipment (gameState (exec updateGameState w)) = equipment (gameState w)
  /\ settings (gameState (exec updateGameState w)) = settings (gameState w).
Proof.
  rewrite exec_updateGameState.
  destruct (accrualPhase_effect w)
    as (_ & _ & _ & _ & _ & _ & _ & _ & _ & _ & _ & A1 & _ & A2 & _).
  set (wa := exec accrualPhase w) in *.
  destruct (processBattle_frame wa) as (_ & _ & _ & _ & _ & _ & B1 & B2 & _).
  set (wb := exec processBattle wa) in *.
  destruct (spawnPhase_frame wb) as (_ & _ & _ & _ & C1 & _ & C2 & _).
  set (wc := exec spawnPhase wb) in *.
  destruct (checkLevelUp_frame wc) as (_ & _ & D1 & _ & _ & D2 & _).
  destruct (autosavePhase_effect (exec checkLevelUp wc)) as (E & _).
  rewrite E. split; congruence.
Qed.

Lemma runOp_equipment_settings (o : Op) (w : World) :
  match o with
  | Reset => True
  | _ => equipment (gameState (exec (runOp o) w)) = equipment (gameState w)
         /\ settings (gameState (exec (runOp o) w)) = settings (gameState w)
  end.
Proof.
  destruct o as [|t|k| |]; try exact I; simpl runOp.
  - apply updateGameState_equipment_settings.
  - destruct_all w. destruct t; run; destruct (Qle_bool _ loc); split; reflexivity.
  - destruct_all w. destruct k; run; try (split; reflexivity).
    destruct (Qltb _ _); split; reflexivity.
  - split; reflexivity.
Qed.

(** X7: no operation ever changes the equipment or the settings (a reset
    puts back the default ones).  So along a run from the default state no
    equipment is ever owned: a tick produces exactly [handSpeed] lines of
    code, and as autosave stays on the store holds the state at the end of
    every tick. *)
Theorem equipment_and_settings_never_change :
  (forall (o : Op) (w : World),
     match o with
     | Reset => equipment (gameState (exec (runOp o) w)) = equipment createDefaultGameState
                /\ settings (gameState (exec (runOp o) w)) = settings createDefaultGameState
     | _ => equipment (gameState (exec (runOp o) w)) = equipment (gameState w)
            /\ settings (gameState (exec (runOp o) w)) = settings (gameState w)
     end)
  /\ (forall (ops : list Op) (g : option GameState) (sh : list Notification)
             (rs : nat -> Rand) (n0 : nat),
        let w := runOps ops (mkWorld createDefaultGameState g sh rs n0) in
        equipment (gameState w) = equipment createDefaultGameState
        /\ settings (gameState w) = settings createDefaultGameState
        /\ result calculateLocPerSecond w = Stats.handSpeed (stats (gameState w))
        /\ globalState (exec updateGameState w) = Some (gameState (exec updateGameState w))).
Proof.
  split.
  - intros o w. pose proof (runOp_equipment_settings o w) as H.
    destruct o; try exact H. split; reflexivity.
  - intros ops g sh rs n0. cbv zeta.
    pose proof (runOps_wellFormed ops (mkWorld createDefaultGameState g sh rs n0)
                  default_wellFormed) as H.
    set (w := runOps ops _) in *. split_wellFormed H.
    split; [exact Weq|]. split; [exact Wse|]. split.
    + rewrite calculateLocPerSecond_result. cbv zeta. now rewrite Weq.
    + rewrite exec_updateGameState.
      destruct (settings_until_autosave w) as (S1 & _).
      set (wd := exec checkLevelUp _) in *.
      destruct (autosavePhase_effect wd) as (E1 & _ & _ & _ & E2).
      rewrite E1, E2, S1, Wse. reflexivity.
Qed.

(** ** Rewards, counters and random numbers, operation by operation *)

Lemma tickDefeats_combatDefeats (w : World) :
  tickDefeats w = combatDefeats (exec accrualPhase w).
Proof. reflexivity. Qed.

Lemma calculateFragmentsPerBug_result (x : Q) (w : World) :
  result (calculateFragmentsPerBug x) w
  = x + inject_Z (Qfloor (x * Stats.iteration (stats (gameState w)) * 0.1)).
Proof. reflexivity. Qed.

Lemma processBattle_outcome (w : World) :
  let s := gameState w in
  let sb := gameState (exec processBattle w) in
  statistics sb
  = (if combatDefeats w
     then Statistics.with_totalBugsDefeated
            (Statistics.totalBugsDefeated (statistics s) + 1) (statistics s)
     else statistics s)
  /\ bugFragments_of sb
     = match combatDefeats w, currentBug_of s with
       | true, Some b =>
           bugFragments_of s
           + result (calculateFragmentsPerBug (Reward.bugFragments (Bug.reward b))) w
       | _, _ => bugFragments_of s
       end.
Proof.
  destruct_all w.
  destruct cb as [[bn bt bh bm ba bi [rl rf re]]|], ib; run;
    try (split; reflexivity).
  destruct (Qle_bool _ 0); [destruct sn|]; split; reflexivity.
Qed.

Lemma updateGameState_outcome (w : World) :
  let s := gameState w in
  let s' := gameState (exec updateGameState w) in
  Statistics.totalBugsDefeated (statistics s')
  = (if tickDefeats w then Statistics.totalBugsDefeated (statistics s) + 1
     else Statistics.totalBugsDefeated (statistics s))
  /\ Statistics.keystrokes (statistics s') = Statistics.keystrokes (statistics s)
  /\ Statistics.filesOpened (statistics s') = Statistics.filesOpened (statistics s)
  /\ Statistics.filesSaved (statistics s') = Statistics.filesSaved (statistics s)
  /\ bugFragments_of s'
     = match tickDefeats w, currentBug_of s with
       | true, Some b =>
           bugFragments_of s
           + result (calculateFragmentsPerBug (Reward.bugFragments (Bug.reward b))) w
       | _, _ => bugFragments_of s
       end.
Proof.
  cbv zeta. rewrite exec_updateGameState, tickDefeats_combatDefeats.
  destruct (accrualPhase_effect w)
    as (_ & _ & _ & A1 & A2 & A3 & A4 & A5 & _ & A6 & _ & _ & A7 & _).
  set (wa := exec accrualPhase w) in *.
  destruct (after_combat_frame (exec processBattle wa)) as (F1 & F2 & _).
  destruct (processBattle_outcome wa) as (P1 & P2).
  unfold bugFragments_of, currentBug_of in *. rewrite F1, F2, P1, P2, A7.
  destruct (combatDefeats wa), (Battle.currentBug (battle (gameState w)));
    simpl; rewrite ?calculateFragmentsPerBug_result, ?A6, ?A5, ?A1, ?A2, ?A3, ?A4;
    repeat split; reflexivity.
Qed.

Lemma untouched_by_purchase_or_interaction (o : Op) (w : World) :
  let s := gameState w in
  let s' := gameState (exec (runOp o) w) in
  match o with
  | Buy _ => statistics s' = statistics s /\ bugFragments_of s' = bugFragments_of s
  | Interact k =>
      Statistics.totalPlayTime (statistics s') = Statistics.totalPlayTime (statistics s)
      /\ Statistics.totalBugsDefeated (statistics s')
         = Statistics.totalBugsDefeated (statistics s)
      /\ Statistics.keystrokes (statistics s')
         = (if InteractionType_eqb Keystroke k then Statistics.keystrokes (statistics s) + 1
            else Statistics.keystrokes (statistics s))
      /\ Statistics.filesOpened (statistics s')
         = (if InteractionType_eqb FileOpen k then Statistics.filesOpened (statistics s) + 1
            else Statistics.filesOpened (statistics s))
      /\ Statistics.filesSaved (statistics s')
         = (if InteractionType_eqb FileSave k then Statistics.filesSaved (statistics s) + 1
            else Statistics.filesSaved (statistics s))
      /\ bugFragments_of s' = bugFragments_of s
  | _ => True
  end.
Proof.
  destruct o as [|t|k| |]; try exact I; destruct_all w.
  - destruct t; run; destruct (Qle_bool _ loc); split; reflexivity.
  - destruct k; run; try (repeat split; reflexivity).
    destruct (Qltb _ _); repeat split; reflexivity.
Qed.

(** X8: the fragments change only by victories.  A tick that defeats the
    active encounter adds what [calculateFragmentsPerBug] gives for its
    reward; a reset empties the purse; every other tick, every purchase,
    interaction and save leaves [bugFragments] as it is. *)
Theorem fragments_only_from_victories (o : Op) (w : World) :
  let s := gameState w in
  let s' := gameState (exec (runOp o) w) in
  match o with
  | Tick =>
      bugFragments_of s'
      = match tickDefeats w, currentBug_of s with
        | true, Some b =>
            bugFragments_of s
            + result (calculateFragmentsPerBug (Reward.bugFragments (Bug.reward b))) w
        | _, _ => bugFragments_of s
        end
  | Reset => bugFragments_of s' = 0
  | _ => bugFragments_of s' = bugFragments_of s
  end.
Proof.
  cbv zeta. pose proof (untouched_by_purchase_or_interaction o w) as H.
  destruct o as [|t|k| |]; try reflexivity.
  - apply updateGameState_outcome.
  - apply H.
  - apply H.
Qed.

Lemma inject_S (n : nat) : inject_Z (Z.of_nat (S n)) == inject_Z (Z.of_nat n) + 1.
Proof.
  rewrite Nat2Z.inj_succ. unfold Z.succ. rewrite inject_Z_plus. reflexivity.
Qed.

Lemma runOps_counters (ops : list Op) (w : World) (a b c d e : nat) :
  let st := statistics (gameState w) in
  Statistics.totalPlayTime st == inject_Z (Z.of_nat a) ->
  Statistics.keystrokes st == inject_Z (Z.of_nat b) ->
  Statistics.filesOpened st == inject_Z (Z.of_nat c) ->
  Statistics.filesSaved st == inject_Z (Z.of_nat d) ->
  Statistics.totalBugsDefeated st == inject_Z (Z.of_nat e) ->
  let st' := statistics (gameState (runOps ops w)) in
  Statistics.totalPlayTime st' == inject_Z (Z.of_nat (ticksOf ops a))
  /\ Statistics.keystrokes st' == inject_Z (Z.of_nat (interactionsOf Keystroke ops b))
  /\ Statistics.filesOpened st' == inject_Z (Z.of_nat (interactionsOf FileOpen ops c))
  /\ Statistics.filesSaved st' == inject_Z (Z.of_nat (interactionsOf FileSave ops d))
  /\ Statistics.totalBugsDefeated st' == inject_Z (Z.of_nat (defeatsOf ops w e)).
Proof.
  cbv zeta. revert w a b c d e.
  induction ops as [|o rest IH]; intros w a b c d e Ha Hb Hc Hd He; [now repeat split|].
  pose proof (untouched_by_purchase_or_interaction o w) as H. cbv zeta in H.
  destruct o as [|t|k| |]; simpl.
  - destruct (updateGameState_counters w) as (_ & T).
    destruct (updateGameState_outcome w) as (D & K & O & S & _).
    apply IH; rewrite ?T, ?D, ?K, ?O, ?S; try assumption.
    + rewrite inject_S, Ha. reflexivity.
    + destruct (tickDefeats w); [rewrite inject_S, He; reflexivity|exact He].
  - rewrite exec_bind. cbv beta. rewrite exec_ret.
    simpl runOp in H. rewrite exec_bind in H. cbv beta in H. rewrite exec_ret in H.
    destruct H as (H & _). apply IH; rewrite H; assumption.
  - simpl runOp in H. destruct H as (T & D & K & O & S & _).
    apply IH; rewrite ?T, ?D, ?K, ?O, ?S; try assumption;
      destruct k; simpl; rewrite ?inject_S, ?Hb, ?Hc, ?Hd; try assumption; reflexivity.
  - apply IH; reflexivity.
  - apply IH; assumption.
Qed.

Lemma statistics_counters_helper (ops : list Op) (g : option GameState)
    (sh : list Notification) (rs : nat -> Rand) (n0 : nat) :
  let w0 := mkWorld createDefaultGameState g sh rs n0 in
  let st := statistics (gameState (runOps ops w0)) in
  Statistics.totalPlayTime st == inject_Z (Z.of_nat (ticksOf ops 0))
  /\ Statistics.keystrokes st == inject_Z (Z.of_nat (interactionsOf Keystroke ops 0))
  /\ Statistics.filesOpened st == inject_Z (Z.of_nat (interactionsOf FileOpen ops 0))
  /\ Statistics.filesSaved st == inject_Z (Z.of_nat (interactionsOf FileSave ops 0))
  /\ Statistics.totalBugsDefeated st == inject_Z (Z.of_nat (defeatsOf ops w0 0)).
Proof.
  cbv zeta. apply runOps_counters; reflexivity.
Qed.

(** X9: along a run from the default state the statistics count what
    their names say, since the last reset: [totalPlayTime] the ticks,
    [keystrokes], [filesOpened] and [filesSaved] the interactions of each
    kind, [totalBugsDefeated] the ticks that defeated an encounter. *)
Theorem statistics_count_events (ops : list Op) (g : option GameState)
    (sh : list Notification) (rs : nat -> Rand) (n0 : nat) :
  let w0 := mkWorld createDefaultGameState g sh rs n0 in
  let st := statistics (gameState (runOps ops w0)) in
  Statistics.totalPlayTime st == inject_Z (Z.of_nat (ticksOf ops 0))
  /\ Statistics.keystrokes st == inject_Z (Z.of_nat (interactionsOf Keystroke ops 0))
  /\ Statistics.filesOpened st == inject_Z (Z.of_nat (interactionsOf FileOpen ops 0))
  /\ Statistics.filesSaved st == inject_Z (Z.of_nat (interactionsOf FileSave ops 0))
  /\ Statistics.totalBugsDefeated st == inject_Z (Z.of_nat (defeatsOf ops w0 0)).
Proof.
  cbv zeta. apply runOps_counters; reflexivity.
Qed.

Lemma spawnPhase_draws (wb : World) :
  randomSource (exec spawnPhase wb) = randomSource wb
  /\ randomsDrawn (exec spawnPhase wb)
     = (randomsDrawn wb
        + if isInBattle_of (gameState wb) then 0
          else if Qltb (rval (randomSource wb (randomsDrawn wb))) 0.1 then 2 else 1)%nat.
Proof.
  destruct (isInBattle_of (gameState wb)) eqn:E.
  - rewrite (spawnPhase_in_battle _ E). split; [reflexivity|lia].
  - pose proof (spawnPhase_idle wb E) as H. cbv zeta in H. rewrite H.
    destruct (Qltb _ 0.1).
    + match goal with |- context [exec spawnRandomBug ?v] =>
        destruct (spawnRandomBug_effect v) as (F & _ & _ & D)
      end.
      destruct F as (_ & _ & _ & _ & _ & _ & _ & _ & _ & R).
      rewrite R, D. simpl. split; [reflexivity|lia].
    + simpl. split; [reflexivity|lia].
Qed.

(** X10: the random numbers each operation consumes.  A tick draws none
    when an encounter is still active after the combat resolution, one when
    the slot is idle and the roll fails, two when it spawns (the roll and
    the choice of the type); a keystroke and a file save draw one; nothing
    else draws, and no operation replaces the source. *)
Theorem random_numbers_consumed (o : Op) (w : World) :
  randomSource (exec (runOp o) w) = randomSource w
  /\ randomsDrawn (exec (runOp o) w) = (randomsDrawn w + drawsOf o w)%nat.
Proof.
  destruct o as [|t|k| |]; simpl runOp.
  - rewrite exec_updateGameState. unfold drawsOf, tickSpawns, afterCombat.
    destruct (accrualPhase_effect w)
      as (_ & _ & _ & _ & _ & _ & _ & _ & _ & _ & _ & _ & _ & _ & (_ & _ & A1 & A2)).
    set (wa := exec accrualPhase w) in *.
    destruct (processBattle_frame wa) as (_ & _ & _ & _ & _ & _ & _ & _ & _ & B1 & B2).
    set (wb := exec processBattle wa) in *.
    destruct (spawnPhase_draws wb) as (C1 & C2).
    set (wc := exec spawnPhase wb) in *.
    destruct (checkLevelUp_frame wc) as (_ & _ & _ & _ & _ & _ & _ & D1 & D2).
    destruct (autosavePhase_effect (exec checkLevelUp wc)) as (_ & _ & E1 & E2 & _).
    rewrite E1, E2, D1, D2, C1, C2, B1, B2, A1, A2.
    split; [reflexivity|].
    destruct (isInBattle_of (gameState wb)); simpl; reflexivity.
  - simpl drawsOf. rewrite Nat.add_0_r.
    destruct_all w. destruct t; run; destruct (Qle_bool _ loc); split; reflexivity.
  - destruct k; simpl drawsOf; rewrite ?Nat.add_0_r, ?Nat.add_1_r;
      destruct_all w; run; try (split; reflexivity).
    destruct (Qltb _ _); split; reflexivity.
  - simpl drawsOf. rewrite Nat.add_0_r. split; reflexivity.
  - simpl drawsOf. rewrite Nat.add_0_r. split; reflexivity.
Qed.

(** ** Every encounter falls *)

Lemma updateGameState_defeated_monotone (n : nat) (w : World) :
  Statistics.totalBugsDefeated (statistics (gameState w))
  <= Statistics.totalBugsDefeated
       (statistics (gameState (Nat.iter n (exec updateGameState) w))).
Proof.
  induction n as [|n IH]; [simpl; lra|].
  rewrite Nat.iter_succ.
  destruct (updateGameState_outcome (Nat.iter n (exec updateGameState) w)) as (D & _).
  rewrite D. destruct (tickDefeats _); lra.
Qed.

(** One tick against an active encounter: it is defeated, or it stays in
    the slot with at least one health point less. *)
Lemma updateGameState_blow (w : World) (b : Bug.t) :
  isInBattle_of (gameState w) = true ->
  currentBug_of (gameState w) = Some b ->
  let health' := Bug.health b
                 - Qmax 1 (Stats.algorithm (stats (gameState w)) - Bug.iteration b) in
  health' <= Bug.health b - 1
  /\ tickDefeats w = Qle_bool health' 0
  /\ (tickDefeats w = false ->
      isInBattle_of (gameState (exec updateGameState w)) = true
      /\ currentBug_of (gameState (exec updateGameState w))
         = Some (Bug.with_health health' b)).
Proof.
  intros Hin Hbug. cbv zeta.
  assert (Hb : battle (gameState w) = Battle.mk (Some b) true).
  { unfold isInBattle_of, currentBug_of in *.
    destruct (battle (gameState w)) as [cb ib]. simpl in *. now subst. }
  assert (Hc : battleConsistent (gameState w)).
  { apply battleConsistent_cases. left. eauto. }
  destruct (accrualPhase_effect w)
    as (_ & _ & _ & _ & _ & _ & _ & _ & _ & A1 & _ & _ & A2 & _).
  split; [pose proof (Q.le_max_l 1 (Stats.algorithm (stats (gameState w)) - Bug.iteration b)); lra|].
  assert (Hd : tickDefeats w
               = Qle_bool (Bug.health b
                           - Qmax 1 (Stats.algorithm (stats (gameState w)) - Bug.iteration b)) 0).
  { unfold tickDefeats. cbv zeta. unfold isInBattle_of, currentBug_of.
    now rewrite A2, Hb, A1. }
  split; [exact Hd|]. intros Hno.
  destruct (tick_slot w Hc) as (_ & _ & Hs).
  assert (Hwa : battle (gameState (exec accrualPhase w)) = Battle.mk (Some b) true)
    by now rewrite A2.
  pose proof (processBattle_slot _ b Hwa) as Hp. cbv zeta in Hp.
  rewrite A1, <- Hd, Hno in Hp.
  assert (Hns : tickSpawns w = false).
  { unfold tickSpawns, afterCombat. cbv zeta. unfold isInBattle_of. now rewrite Hp. }
  rewrite Hns in Hs. unfold afterCombat in Hs.
  unfold isInBattle_of, currentBug_of. rewrite Hs, Hp. split; reflexivity.
Qed.

(** X11: an active encounter with at most [n] health points ([n >= 1]) is
    defeated within [n] ticks: each tick takes at least one point, so after
    [n] ticks the defeated counter has grown. *)
Theorem encounter_defeated_within_health (n : nat) (w : World) (b : Bug.t) :
  isInBattle_of (gameState w) = true ->
  currentBug_of (gameState w) = Some b ->
  (0 < n)%nat ->
  Bug.health b <= inject_Z (Z.of_nat n) ->
  Statistics.totalBugsDefeated (statistics (gameState w)) + 1
  <= Statistics.totalBugsDefeated
       (statistics (gameState (Nat.iter n (exec updateGameState) w))).
Proof.
  revert w b. induction n as [|m IH]; intros w b Hin Hbug Hn Hh; [lia|].
  rewrite Nat.iter_succ_r.
  destruct (updateGameState_blow w b Hin Hbug) as (Hd & Ht & Hstay).
  destruct (updateGameState_outcome w) as (D & _).
  destruct (tickDefeats w) eqn:E.
  - pose proof (updateGameState_defeated_monotone m (exec updateGameState w)) as H.
    rewrite D in H. lra.
  - destruct (Hstay eq_refl) as (Hin' & Hbug').
    symmetry in Ht. apply Qle_bool_false in Ht.
    rewrite inject_S in Hh.
    assert (Hm : (0 < m)%nat).
    { apply Nat2Z.inj_lt. apply inject_Z_lt_inv. change (inject_Z (Z.of_nat 0)) with 0. lra. }
    pose proof (IH (exec updateGameState w) _ Hin' Hbug' Hm) as H.
    simpl Bug.health in H. rewrite D in H. apply H. lra.
Qed.

Lemma encounter_defeated_within_health_witness :
  let w := battleWorld (always high) in
  isInBattle_of (gameState w) = true
  /\ currentBug_of (gameState w) = Some scenarioBug
  /\ Statistics.totalBugsDefeated (statistics (gameState w)) + 1
     <= Statistics.totalBugsDefeated
          (statistics (gameState (Nat.iter 4 (exec updateGameState) w))).
Proof.
  split; [reflexivity|]. split; [reflexivity|].
  apply (encounter_defeated_within_health 4 (battleWorld (always high)) scenarioBug);
    [reflexivity|reflexivity|lia|vm_compute; discriminate].
Defined.

(** ** Spawning *)

Lemma floor_interval (x : Q) (i : Z) :
  Qfloor x = i <-> inject_Z i <= x /\ x < inject_Z i + 1.
Proof.
  split.
  - intros <-. apply floor_bounds.
  - intros [H1 H2]. destruct (floor_bounds x) as [F1 F2].
    assert (Qfloor x < i + 1)%Z.
    { apply inject_Z_lt_inv. rewrite inject_Z_plus. change (inject_Z 1) with 1. lra. }
    assert (i < Qfloor x + 1)%Z.
    { apply inject_Z_lt_inv. rewrite inject_Z_plus. change (inject_Z 1) with 1. lra. }
    lia.
Qed.

(** ** The interaction hooks *)

(** ** The figures of the game panel *)

Lemma defeatBug_fragments (bug : Bug.t) (w : World) :
  bugFragments_of (gameState (exec (defeatBug bug) w))
  = bugFragments_of (gameState w)
    + result (calculateFragmentsPerBug (Reward.bugFragments (Bug.reward bug))) w.
Proof.
  destruct_all w. destruct bug as [bn bt bh bm ba bi [rl rf re]].
  run. destruct sn; reflexivity.
Qed.

(** X15: along a run from the default state the panel's play time is the
    number of ticks since the last reset, split into whole minutes and the
    remaining seconds: [minutes = ticks / 60] and [seconds = ticks mod 60]. *)
Theorem play_time_display (ops : list Op) (g : option GameState)
    (sh : list Notification) (rs : nat -> Rand) (n0 : nat) :
  let s := gameState (runOps ops (mkWorld createDefaultGameState g sh rs n0)) in
  let ticks := ticksOf ops 0 in
  displayedMinutes s == inject_Z (Z.of_nat (ticks / 60))
  /\ displayedSeconds s == inject_Z (Z.of_nat (ticks mod 60)).
Proof.
  cbv zeta.
  destruct (statistics_counters_helper ops g sh rs n0) as (T & _).
  set (s := gameState _) in *. set (n := ticksOf ops 0) in *.
  assert (Hfloor : Qfloor (Statistics.totalPlayTime (statistics s) / 60)
                   = Z.of_nat (n / 60)).
  { rewrite (Qfloor_comp _ (inject_Z (Z.of_nat n) / inject_Z 60)).
    - rewrite <- Zdiv_Qdiv. now rewrite Nat2Z.inj_div.
    - rewrite T. reflexivity. }
  unfold displayedMinutes, displayedSeconds, jsRemainder, Qtruncate.
  assert (Hpos : Qle_bool 0 (Statistics.totalPlayTime (statistics s) / 60) = true).
  { apply Qle_bool_iff. rewrite T.
    assert (0 <= inject_Z (Z.of_nat n)).
    { change 0 with (inject_Z 0). rewrite <- Zle_Qle. lia. }
    apply Qle_shift_div_l; lra. }
  rewrite Hpos, Hfloor. split; [reflexivity|].
  rewrite T. rewrite Nat2Z.inj_mod, Z.mod_eq by lia.
  rewrite Nat2Z.inj_div. unfold Z.sub.
  rewrite inject_Z_plus, inject_Z_opp, inject_Z_mult.
  change (inject_Z (Z.of_nat 60)) with 60. ring.
Qed.

(** ** What the migration leaves alone *)

Lemma getProp_updatePath_other (k k' : string) (p : list string)
    (f : JSValue -> JSValue) (v : JSValue) :
  k <> k' -> getProp k (updatePath (k' :: p) f v) = getProp k v.
Proof.
  intros Hne. rewrite updatePath_cons.
  destruct (getProp k' v); [|reflexivity].
  apply getProp_setProp_ne. congruence.
Qed.

Lemma renames_locations (r : Rename) :
  In r renames ->
  location r = ["stats"] \/ location r = ["upgradeCosts"]
  \/ location r = ["battle"; "currentBug"].
Proof.
  unfold renames, statsRenames, costRenames, bugRenames. simpl. intros Hr.
  repeat (destruct Hr as [<-|Hr]); try contradiction; simpl; auto.
Qed.

Lemma applyRenames_top_level (k : string) (rs : list Rename) (v : JSValue) :
  (forall r, In r rs -> In r renames) ->
  k <> "stats" -> k <> "upgradeCosts" -> k <> "battle" ->
  getProp k (applyRenames rs v) = getProp k v.
Proof.
  intros Hin H1 H2 H3. revert v.
  induction rs as [|r rs IH]; intros v; [reflexivity|].
  rewrite applyRenames_cons, IH by (intros r' Hr'; apply Hin; now right).
  unfold applyRename.
  destruct (renames_locations r (Hin r (or_introl eq_refl))) as [->|[->| ->]];
    now apply getProp_updatePath_other.
Qed.

Lemma applyRenames_battle (k : string) (rs : list Rename) (v : JSValue) :
  (forall r, In r rs -> In r renames) ->
  k <> "currentBug" ->
  valueAt ["battle"] k (applyRenames rs v) = valueAt ["battle"] k v.
Proof.
  intros Hin Hk. revert v.
  induction rs as [|r rs IH]; intros v; [reflexivity|].
  rewrite applyRenames_cons, IH by (intros r' Hr'; apply Hin; now right).
  unfold applyRename, valueAt.
  destruct (renames_locations r (Hin r (or_introl eq_refl))) as [->|[->| ->]].
  - now rewrite getPath_updatePath_heads.
  - now rewrite getPath_updatePath_heads.
  - change (updatePath ["battle"; "currentBug"] (renameProp (oldKey r) (newKey r)) v)
      with (updatePath ["battle"]
              (updatePath ["currentBug"] (renameProp (oldKey r) (newKey r))) v).
    rewrite getPath_updatePath_same.
    destruct (getPath ["battle"] v) as [bt|]; [|reflexivity].
    cbn [option_map].
    now apply (getProp_updatePath_other k "currentBug" []).
Qed.

Lemma independent_of_untouched_key (p : list string) (k : string) (r : Rename) :
  In r renames ->
  (location r = p -> k <> oldKey r /\ k <> newKey r) ->
  p = ["stats"] \/ p = ["upgradeCosts"] \/ p = ["battle"; "currentBug"] ->
  independentb (mkRename p k k) r = true.
Proof.
  intros Hr Hk Hp. unfold independentb. simpl location.
  destruct (renames_locations r Hr) as [L|[L|L]], Hp as [->|[->| ->]];
    rewrite L in *; try reflexivity;
    destruct (Hk eq_refl) as (K1 & K2);
    apply String.eqb_neq in K1; apply String.eqb_neq in K2;
    simpl; rewrite K1, K2; reflexivity.
Qed.

(** X16: the migration passes everything else through.  A blob that is
    not an object is returned as it is; in an object every top-level key
    but [stats], [upgradeCosts] and [battle] keeps its value, every key of
    [battle] but [currentBug] too, and inside the three migrated objects
    every key that is neither a deprecated name nor its replacement. *)
Theorem migration_passes_other_fields_through (v : JSValue) :
  (match v with JObj _ => True | _ => migrateSavedState v = v end)
  /\ (forall k, k <> "stats" -> k <> "upgradeCosts" -> k <> "battle" ->
        getProp k (migrateSavedState v) = getProp k v)
  /\ (forall k, k <> "currentBug" ->
        valueAt ["battle"] k (migrateSavedState v) = valueAt ["battle"] k v)
  /\ (forall p k,
        p = ["stats"] \/ p = ["upgradeCosts"] \/ p = ["battle"; "currentBug"] ->
        (forall r, In r renames -> location r = p -> k <> oldKey r /\ k <> newKey r) ->
        valueAt p k (migrateSavedState v) = valueAt p k v).
Proof.
  split; [destruct v; try reflexivity; exact I|].
  split; [intros k H1 H2 H3; rewrite migrateSavedState_renames;
          now apply applyRenames_top_level|].
  split; [intros k Hk; rewrite migrateSavedState_renames;
          now apply applyRenames_battle|].
  intros p k Hp Hk. rewrite migrateSavedState_renames.
  apply (applyRenames_keeps (mkRename p k k) k renames v); [now left|].
  intros r Hr. apply independent_of_untouched_key; auto.
Qed.

(** ** The listener of document changes *)

Lemma totalCharactersAdded_from (changes : list ContentChange) (acc : Z) :
  fold_left
    (fun total change =>
       let netChange := (textLength change - rangeLength change)%Z in
       if (0 <? netChange)%Z then (total + netChange)%Z else total)
    changes acc
  = (acc + list_sum_Z (map (fun c => Z.max 0 (textLength c - rangeLength c)) changes))%Z.
Proof.
  revert acc. induction changes as [|c rest IH]; intros acc; simpl; [lia|].
  rewrite IH. destruct (Z.ltb_spec 0 (textLength c - rangeLength c)); lia.
Qed.

Lemma list_sum_Z_nonneg (l : list Z) :
  Forall (fun z => 0 <= z)%Z l -> (0 <= list_sum_Z l)%Z.
Proof. induction 1; simpl; lia. Qed.

Lemma keystroke_step (w : World) :
  let s := gameState w in
  let w' := exec (onEditorInteraction Keystroke) w in
  let s' := gameState w' in
  Statistics.keystrokes (statistics s') = Statistics.keystrokes (statistics s) + 1
  /\ randomsDrawn w' = S (randomsDrawn w)
  /\ randomSource w' = randomSource w
  /\ character s' = character s /\ stats s' = stats s
  /\ upgradeCosts s' = upgradeCosts s /\ equipment s' = equipment s
  /\ battle s' = battle s /\ settings s' = settings s
  /\ bugFragments_of s' = bugFragments_of s
  /\ globalState w' = globalState w /\ shown w' = shown w
  /\ (if Item.owned (Equipment.keyboard (equipment s)) then True
      else linesOfCode_of s <= linesOfCode_of s' /\ linesOfCode_of s' <= linesOfCode_of s + 1).
Proof.
  destruct_all w. destruct eq as [[kl ko] ide dbg cm]. run.
  destruct (Qltb _ _), ko; repeat split; try reflexivity; lra.
Qed.

Lemma game_keystroke (e : EditorWorld) :
  game (keystroke e) = exec (onEditorInteraction Keystroke) (game e).
Proof. reflexivity. Qed.

Lemma warnings_keystroke (e : EditorWorld) : warnings (keystroke e) = warnings e.
Proof. reflexivity. Qed.

Lemma keystroke_iter (n : nat) (e : EditorWorld) :
  let s := gameState (game e) in
  let e' := Nat.iter n keystroke e in
  let s' := gameState (game e') in
  Statistics.keystrokes (statistics s')
  == Statistics.keystrokes (statistics s) + inject_Z (Z.of_nat n)
  /\ randomsDrawn (game e') = (randomsDrawn (game e) + n)%nat
  /\ randomSource (game e') = randomSource (game e)
  /\ character s' = character s /\ stats s' = stats s
  /\ upgradeCosts s' = upgradeCosts s /\ equipment s' = equipment s
  /\ battle s' = battle s /\ settings s' = settings s
  /\ bugFragments_of s' = bugFragments_of s
  /\ globalState (game e') = globalState (game e) /\ shown (game e') = shown (game e)
  /\ warnings e' = warnings e
  /\ (if Item.owned (Equipment.keyboard (equipment s)) then True
      else linesOfCode_of s <= linesOfCode_of s'
           /\ linesOfCode_of s' <= linesOfCode_of s + inject_Z (Z.of_nat n)).
Proof.
  cbv zeta. induction n as [|n IH].
  - change (inject_Z (Z.of_nat 0)) with 0. simpl Nat.iter. rewrite Nat.add_0_r.
    repeat split; try reflexivity; try lra.
    destruct (Item.owned _); [exact I|split; lra].
  - rewrite Nat.iter_succ.
    destruct IH as (K & D & R & C & S & U & E & B & T & F & G & H & W & L).
    destruct (keystroke_step (game (Nat.iter n keystroke e)))
      as (K' & D' & R' & C' & S' & U' & E' & B' & T' & F' & G' & H' & L').
    rewrite !game_keystroke, warnings_keystroke.
    rewrite K', D', R', C', S', U', E', B', T', F', G', H'.
    rewrite E in L'. pose proof (inject_S n) as Hn.
    repeat split; try congruence; try lia; try lra.
    destruct (Item.owned _); [exact I|]. destruct L, L'. split; lra.
Qed.

Lemma checkPattern_fold (found : BugType -> bool) (ps : list BugType) (e : EditorWorld) :
  let e' := fold_left (checkPattern found) ps e in
  gameState (game e') = gameState (game e)
  /\ globalState (game e') = globalState (game e)
  /\ shown (game e') = shown (game e)
  /\ randomSource (game e') = randomSource (game e)
  /\ randomsDrawn (game e') = (randomsDrawn (game e) + length (List.filter found ps))%nat
  /\ exists ws, warnings e' = warnings e ++ ws /\ sublist ws (List.filter found ps).
Proof.
  cbv zeta. revert e. induction ps as [|p ps IH]; intros e.
  - simpl. rewrite Nat.add_0_r. repeat split; try reflexivity.
    exists []. split; [now rewrite app_nil_r|constructor].
  - simpl fold_left. simpl List.filter.
    destruct (IH (checkPattern found e p)) as (G & S & H & R & D & ws & W & Hsub).
    rewrite G, S, H, R, D, W. unfold checkPattern.
    destruct (found p).
    + unfold Math_random. cbn beta iota zeta.
      destruct (Qltb _ 0.05); simpl; repeat split; try reflexivity; try lia.
      * exists (p :: ws). split; [now rewrite <- app_assoc|now constructor].
      * exists ws. split; [reflexivity|now constructor].
    + repeat split; try reflexivity. exists ws. split; [reflexivity|exact Hsub].
Qed.

(** X17: a document change counts as keystrokes the characters each of its
    changes adds net of what it replaces, a change that removes at least as
    much as it inserts counting for nothing: [keystrokes] grows by that
    total.  It draws one random number per keystroke and one per risky
    pattern found in the text, warns of found patterns only, and leaves the
    level, experience, stats, costs, fragments, battle slot and store
    alone; without a keyboard the lines of code grow by at most that total.
    An event with no change does nothing at all. *)
Theorem document_change_counts_keystrokes (event : ChangeEvent) (e : EditorWorld) :
  let changes := contentChanges event in
  let total := list_sum_Z (map (fun c => Z.max 0 (textLength c - rangeLength c)) changes) in
  let e' := onTextDocumentChange event e in
  let s := gameState (game e) in
  let s' := gameState (game e') in
  totalCharactersAdded changes = total
  /\ (0 <= total)%Z
  /\ match changes with
     | [] => e' = e
     | _ =>
         Statistics.keystrokes (statistics s')
         == Statistics.keystrokes (statistics s) + inject_Z total
         /\ randomsDrawn (game e')
            = (randomsDrawn (game e) + Z.to_nat total
               + length (List.filter (patternFound event) specialPatterns))%nat
         /\ randomSource (game e') = randomSource (game e)
         /\ character s' = character s /\ stats s' = stats s
         /\ upgradeCosts s' = upgradeCosts s /\ equipment s' = equipment s
         /\ battle s' = battle s /\ settings s' = settings s
         /\ bugFragments_of s' = bugFragments_of s
         /\ globalState (game e') = globalState (game e)
         /\ shown (game e') = shown (game e)
         /\ (exists ws, warnings e' = warnings e ++ ws
                        /\ sublist ws (List.filter (patternFound event) specialPatterns))
         /\ (if Item.owned (Equipment.keyboard (equipment s)) then True
             else linesOfCode_of s <= linesOfCode_of s'
                  /\ linesOfCode_of s' <= linesOfCode_of s + inject_Z total)
     end.
Proof.
  cbv zeta.
  assert (Htot : totalCharactersAdded (contentChanges event)
                 = list_sum_Z (map (fun c => Z.max 0 (textLength c - rangeLength c))
                                 (contentChanges event))).
  { unfold totalCharactersAdded. rewrite totalCharactersAdded_from. lia. }
  assert (Hpos : (0 <= list_sum_Z (map (fun c => Z.max 0 (textLength c - rangeLength c))
                                    (contentChanges event)))%Z).
  { apply list_sum_Z_nonneg. apply List.Forall_forall. intros z Hz.
    apply in_map_iff in Hz. destruct Hz as (c & <- & _). lia. }
  split; [exact Htot|]. split; [exact Hpos|].
  unfold onTextDocumentChange. rewrite Htot.
  set (total := list_sum_Z _) in *.
  destruct (contentChanges event) as [|c0 rest]; [reflexivity|].
  cbv zeta. unfold checkSpecialEvents.
  destruct (keystroke_iter (Z.to_nat total) e)
    as (K & D & R & C & S & U & E & B & T & F & G & H & W & L).
  cbv zeta in K, D, R, C, S, U, E, B, T, F, G, H, W, L.
  destruct (checkPattern_fold (patternFound event) specialPatterns
              (Nat.iter (Z.to_nat total) keystroke e))
    as (G' & S' & H' & R' & D' & ws & W' & Hsub).
  cbv zeta in G', S', H', R', D', W'.
  rewrite Z2Nat.id in K, L by exact Hpos.
  unfold bugFragments_of, linesOfCode_of in *.
  rewrite G', S', H', R', D', W', D, W.
  repeat split; try assumption. exists ws. now split.
Qed.

(** ** Whole numbers *)

Lemma whole_inject (z : Z) : whole (inject_Z z).
Proof. exists z. reflexivity. Qed.

Lemma whole_plus (a b : Q) : whole a -> whole b -> whole (a + b).
Proof.
  intros [x Hx] [y Hy]. exists (x + y)%Z. rewrite inject_Z_plus, Hx, Hy. reflexivity.
Qed.

Lemma whole_minus (a b : Q) : whole a -> whole b -> whole (a - b).
Proof.
  intros [x Hx] [y Hy]. exists (x - y)%Z. unfold Z.sub.
  rewrite inject_Z_plus, inject_Z_opp, Hx, Hy. reflexivity.
Qed.

Lemma whole_mult (a b : Q) : whole a -> whole b -> whole (a * b).
Proof.
  intros [x Hx] [y Hy]. exists (x * y)%Z. rewrite inject_Z_mult, Hx, Hy. reflexivity.
Qed.

Lemma whole_max (a b : Q) : whole a -> whole b -> whole (Qmax a b).
Proof.
  intros Ha Hb. destruct (Q.max_spec a b) as [[_ H]|[_ H]];
    [destruct Hb as [y Hy]; exists y|destruct Ha as [x Hx]; exists x]; now rewrite H.
Qed.

Lemma whole_floor (q : Q) : whole q -> inject_Z (Qfloor q) == q.
Proof. intros [z Hz]. now rewrite (Qfloor_comp _ _ Hz), Qfloor_Z, Hz. Qed.

(** Close a goal [whole e] from the hypotheses, by the shape of [e]. *)
Ltac whole_tac :=
  repeat first
    [ assumption
    | apply whole_inject
    | apply whole_minus
    | apply whole_plus
    | apply whole_mult
    | apply whole_max
    | apply (whole_inject 0) | apply (whole_inject 1) | apply (whole_inject 2)
    | apply (whole_inject 5) | apply (whole_inject 10) | apply (whole_inject 50)
    | apply (whole_inject 100) ].

Ltac run_whole :=
  cbv -[Qplus Qminus Qmult Qopp Qdiv Qinv Qle_bool Qltb Qmax Qfloor Qceiling
        inject_Z Qeq Qle Qlt app Z.of_nat Z.to_nat whole].
Ltac run_whole_in H :=
  cbv -[Qplus Qminus Qmult Qopp Qdiv Qinv Qle_bool Qltb Qmax Qfloor Qceiling
        inject_Z Qeq Qle Qlt app Z.of_nat Z.to_nat whole] in H.

Ltac split_whole H :=
  destruct H as (?W & ?W & ?W & ?W & ?W & ?W & ?W & ?W & ?W & ?W & ?W & ?W
                 & ?Weq & ?Wbug).

Lemma default_wholeNumbers : wholeNumbers createDefaultGameState.
Proof.
  unfold wholeNumbers. run_whole. repeat split; whole_tac.
Qed.

Lemma accrualPhase_wholeNumbers (w : World) :
  wholeNumbers (gameState w) -> wholeNumbers (gameState (exec accrualPhase w)).
Proof.
  intros H. destruct_all w. run_whole_in H. split_whole H. subst eq. run_whole.
  repeat split; whole_tac.
Qed.

Lemma processBattle_wholeNumbers (w : World) :
  wholeNumbers (gameState w) -> wholeNumbers (gameState (exec processBattle w)).
Proof.
  intros H. destruct_all w.
  destruct cb as [[bn bt bh bm ba bi [rl rf re]]|];
    run_whole_in H; split_whole H; subst eq; destruct ib; run_whole.
  all: try (destruct (Qle_bool _ 0); [destruct sn|]; run_whole).
  all: try destruct Wbug as (R1 & R2 & R3).
  all: repeat split; whole_tac.
Qed.

Lemma spawnPhase_wholeNumbers (w : World) :
  wholeNumbers (gameState w) -> wholeNumbers (gameState (exec spawnPhase w)).
Proof.
  intros H. destruct_all w. run_whole_in H. split_whole H. subst eq.
  destruct ib; run_whole; [repeat split; whole_tac|].
  destruct (Qltb _ _); run_whole; repeat split; whole_tac.
Qed.

Lemma levelUpBody_wholeNumbers (w : World) :
  wholeNumbers (gameState w) -> wholeNumbers (gameState (exec levelUpBody w)).
Proof.
  intros H. destruct_all w. run_whole_in H. split_whole H. subst eq.
  destruct sn; run_whole; repeat split; whole_tac.
Qed.

Lemma updateGameState_wholeNumbers (w : World) :
  wholeNumbers (gameState w) -> wholeNumbers (gameState (exec updateGameState w)).
Proof.
  intros H. rewrite exec_updateGameState.
  destruct (autosavePhase_effect
              (exec checkLevelUp (exec spawnPhase (exec processBattle (exec accrualPhase w)))))
    as (E & _).
  rewrite E.
  apply (checkLevelUp_invariant (fun v => wholeNumbers (gameState v))).
  - intros v Hv _. now apply levelUpBody_wholeNumbers.
  - now apply spawnPhase_wholeNumbers, processBattle_wholeNumbers,
      accrualPhase_wholeNumbers.
Qed.

Lemma runOp_wholeNumbers (o : Op) (w : World) :
  wholeNumbers (gameState w) -> wholeNumbers (gameState (exec (runOp o) w)).
Proof.
  intros H. destruct o as [|t|k| |]; simpl runOp.
  - now apply updateGameState_wholeNumbers.
  - rewrite exec_bind. cbv beta. rewrite exec_ret.
    destruct_all w. run_whole_in H. split_whole H. subst eq.
    destruct t; run_whole; destruct (Qle_bool _ loc); run_whole;
      repeat split; whole_tac.
  - destruct_all w. run_whole_in H. split_whole H. subst eq.
    destruct k; run_whole; [destruct (Qltb _ _); run_whole| |];
      repeat split; whole_tac.
  - apply default_wholeNumbers.
  - exact H.
Qed.

Lemma runOps_wholeNumbers (ops : list Op) (w : World) :
  wholeNumbers (gameState w) -> wholeNumbers (gameState (runOps ops w)).
Proof.
  revert w. induction ops as [|o rest IH]; intros w H; simpl; [exact H|].
  now apply IH, runOp_wholeNumbers.
Qed.

(** X18: along a run from the default state the level, the experience and
    its threshold, both currencies, the stats, the costs, the lines
    generated and the rewards of the encounter in the slot are whole
    numbers.  So the [Math.floor] of the status bar and of the tree view
    shows the balance exactly. *)
Theorem runs_keep_whole_numbers (ops : list Op) (g : option GameState)
    (sh : list Notification) (rs : nat -> Rand) (n0 : nat) :
  let s := gameState (runOps ops (mkWorld createDefaultGameState g sh rs n0)) in
  wholeNumbers s /\ shownLinesOfCode s == linesOfCode_of s.
Proof.
  cbv zeta.
  pose proof (runOps_wholeNumbers ops (mkWorld createDefaultGameState g sh rs n0)
                default_wholeNumbers) as H.
  split; [exact H|]. unfold shownLinesOfCode. apply whole_floor. apply H.
Qed.

(** ** Prices go up *)

Lemma UpgradeType_eqb_refl (t : UpgradeType) : UpgradeType_eqb t t = true.
Proof. destruct t; reflexivity. Qed.

(** * The engine in double precision *)

(** ** The rounding of doubles *)

Lemma pow2_pos (k : Z) : 0 < pow2 k.
Proof. apply Qpower_0_lt. reflexivity. Qed.

Lemma pow2_plus (a b : Z) : pow2 (a + b) == pow2 a * pow2 b.
Proof. apply Qpower_plus. discriminate. Qed.

Lemma pow2_le (a b : Z) : (a <= b)%Z -> pow2 a <= pow2 b.
Proof. intros H. apply Qpower_le_compat_l; [exact H|discriminate]. Qed.

Lemma pow2_lt (a b : Z) : (a < b)%Z -> pow2 a < pow2 b.
Proof. intros H. apply Qpower_lt_compat_l; [exact H|reflexivity]. Qed.

Lemma pow2_lt_inv (a b : Z) : pow2 a < pow2 b -> (a < b)%Z.
Proof. intros H. apply (Qpower_lt_compat_l_inv 2); [exact H|reflexivity]. Qed.

Lemma pow2_Z (k : Z) : (0 <= k)%Z -> pow2 k == inject_Z (2 ^ k).
Proof. intros H. unfold pow2. now rewrite Zpower_Qpower. Qed.

Lemma pow2_succ (k : Z) : pow2 (k + 1) == 2 * pow2 k.
Proof. rewrite pow2_plus. change (pow2 1) with 2. ring. Qed.

Lemma pow2_split (j e : Z) : pow2 j == pow2 (j - e) * pow2 e.
Proof. rewrite <- pow2_plus. now replace (j - e + e)%Z with j by ring. Qed.

Lemma magnitude_spec (x : Q) :
  0 < x -> pow2 (magnitude x) <= x /\ x < pow2 (magnitude x + 1).
Proof.
  intros Hx. unfold magnitude.
  destruct x as [n d]. simpl Qnum. simpl Qden.
  assert (Hn : (0 < n)%Z).
  { unfold Qlt in Hx. simpl in Hx. lia. }
  set (ln := Z.log2 n). set (ld := Z.log2 (Zpos d)).
  destruct (Z.log2_spec n Hn) as [N1 N2]. fold ln in N1, N2.
  destruct (Z.log2_spec (Zpos d) eq_refl) as [D1 D2]. fold ld in D1, D2.
  assert (Hln : (0 <= ln)%Z) by apply Z.log2_nonneg.
  assert (Hld : (0 <= ld)%Z) by apply Z.log2_nonneg.
  assert (Q1 : pow2 ln <= inject_Z n).
  { rewrite pow2_Z by exact Hln. now rewrite <- Zle_Qle. }
  assert (Q2 : inject_Z n < pow2 (ln + 1)).
  { rewrite pow2_Z by lia. rewrite <- Zlt_Qlt. unfold Z.succ in N2. exact N2. }
  assert (Q3 : pow2 ld <= inject_Z (Zpos d)).
  { rewrite pow2_Z by exact Hld. now rewrite <- Zle_Qle. }
  assert (Q4 : inject_Z (Zpos d) < pow2 (ld + 1)).
  { rewrite pow2_Z by lia. rewrite <- Zlt_Qlt. unfold Z.succ in D2. exact D2. }
  assert (Hd : 0 < inject_Z (Zpos d)) by reflexivity.
  assert (Hx' : n # d == inject_Z n / inject_Z (Zpos d)) by apply Qmake_Qdiv.
  assert (Hmul : (n # d) * inject_Z (Zpos d) == inject_Z n).
  { rewrite Hx'. field. intros E. rewrite E in Hd. discriminate Hd. }
  pose proof (pow2_pos (ln - ld)) as P0.
  pose proof (pow2_pos ld) as P1.
  assert (S1 : pow2 ln == pow2 (ln - ld) * pow2 ld) by apply pow2_split.
  assert (S2 : pow2 (ln - ld + 1) == 2 * pow2 (ln - ld)) by apply pow2_succ.
  assert (S3 : pow2 (ln + 1) == 2 * pow2 ln) by apply pow2_succ.
  assert (S4 : pow2 (ld + 1) == 2 * pow2 ld) by apply pow2_succ.
  assert (S5 : pow2 (ln - ld - 1 + 1) == pow2 (ln - ld)).
  { now replace (ln - ld - 1 + 1)%Z with (ln - ld)%Z by ring. }
  assert (S6 : pow2 (ln - ld) == 2 * pow2 (ln - ld - 1)).
  { rewrite <- pow2_succ. now rewrite S5. }
  set (x := n # d) in *. set (dd := inject_Z (Zpos d)) in *.
  set (nn := inject_Z n) in *.
  destruct (Qle_bool (pow2 (ln - ld)) x) eqn:E.
  - apply Qle_bool_iff in E. split; [exact E|].
    rewrite S2.
    (* x * dd = nn < 2 * 2^ln = 2 * 2^(ln-ld) * 2^ld <= 2 * 2^(ln-ld) * dd *)
    apply Qnot_le_lt. intros C.
    assert (2 * pow2 (ln - ld) * dd <= x * dd) by nra.
    nra.
  - assert (E' : x < pow2 (ln - ld)).
    { apply Qnot_le_lt. intros C. apply Qle_bool_iff in C. congruence. }
    split; [|now rewrite S5].
    (* 2^(a-1) * dd < 2^(a-1) * 2 * 2^ld = 2^ln <= nn = x * dd *)
    apply Qnot_lt_le. intros C.
    pose proof (pow2_pos (ln - ld - 1)) as P2.
    assert (x * dd < pow2 (ln - ld - 1) * dd) by nra.
    nra.
Qed.

Lemma magnitude_unique (x : Q) (L : Z) :
  pow2 L <= x -> x < pow2 (L + 1) -> magnitude x = L.
Proof.
  intros H1 H2.
  assert (Hx : 0 < x) by (pose proof (pow2_pos L); lra).
  destruct (magnitude_spec x Hx) as [M1 M2].
  assert (magnitude x < L + 1)%Z by (apply pow2_lt_inv; lra).
  assert (L < magnitude x + 1)%Z by (apply pow2_lt_inv; lra).
  lia.
Qed.

Lemma magnitude_comp (x y : Q) : 0 < x -> x == y -> magnitude x = magnitude y.
Proof.
  intros Hx E. symmetry. destruct (magnitude_spec x Hx) as [M1 M2].
  apply magnitude_unique; rewrite <- E; assumption.
Qed.

Lemma magnitude_mono (x y : Q) : 0 < x -> x <= y -> (magnitude x <= magnitude y)%Z.
Proof.
  intros Hx Hxy.
  destruct (magnitude_spec x Hx) as [M1 _].
  destruct (magnitude_spec y) as [_ M2]; [lra|].
  assert (magnitude x < magnitude y + 1)%Z by (apply pow2_lt_inv; lra).
  lia.
Qed.

(** Rounding to the nearest integer. *)

Lemma roundHalfEven_comp (p q : Q) : p == q -> roundHalfEven p = roundHalfEven q.
Proof.
  intros E. unfold roundHalfEven.
  rewrite (Qfloor_comp _ _ E).
  assert (E' : p - inject_Z (Qfloor q) == q - inject_Z (Qfloor q)) by (rewrite E; reflexivity).
  now rewrite (Qcompare_comp _ _ E' (1#2) (1#2) (Qeq_refl _)).
Qed.

Lemma roundHalfEven_Z (z : Z) : roundHalfEven (inject_Z z) = z.
Proof.
  unfold roundHalfEven. rewrite Qfloor_Z.
  assert (E : inject_Z z - inject_Z z == 0) by ring.
  now rewrite (Qcompare_comp _ _ E (1#2) (1#2) (Qeq_refl _)).
Qed.



Lemma roundHalfEven_near (q : Q) :
  q - (1#2) <= inject_Z (roundHalfEven q) /\ inject_Z (roundHalfEven q) <= q + (1#2).
Proof.
  unfold roundHalfEven. destruct (floor_bounds q) as [F1 F2].
  set (f := Qfloor q) in *.
  destruct (Qcompare_spec (q - inject_Z f) (1#2)) as [E|E|E].
  - destruct (Z.even f); [|rewrite inject_Z_plus; change (inject_Z 1) with 1]; lra.
  - lra.
  - rewrite inject_Z_plus; change (inject_Z 1) with 1; lra.
Qed.

Lemma roundHalfEven_mono (p q : Q) : p <= q -> (roundHalfEven p <= roundHalfEven q)%Z.
Proof.
  intros H. pose proof (Qfloor_resp_le _ _ H) as Hf.
  unfold roundHalfEven.
  destruct (floor_bounds p) as [P1 P2]. destruct (floor_bounds q) as [Q1 Q2].
  set (f := Qfloor p) in *. set (g := Qfloor q) in *.
  destruct (Z.eq_dec f g) as [E|E].
  - rewrite <- E in *.
    destruct (Qcompare_spec (p - inject_Z f) (1#2)) as [A|A|A];
      destruct (Qcompare_spec (q - inject_Z f) (1#2)) as [B|B|B];
      try lia; try (exfalso; lra); destruct (Z.even f); lia.
  - assert (f + 1 <= g)%Z by lia.
    destruct (Qcompare (p - inject_Z f) (1#2)), (Qcompare (q - inject_Z g) (1#2));
      destruct (Z.even f), (Z.even g); lia.
Qed.

(** Rounding a positive number. *)

Lemma ulpExponent_comp (x y : Q) : 0 < x -> x == y -> ulpExponent x = ulpExponent y.
Proof. intros Hx E. unfold ulpExponent. now rewrite (magnitude_comp x y Hx E). Qed.

Lemma roundPositive_comp (x y : Q) : 0 < x -> x == y -> roundPositive x == roundPositive y.
Proof.
  intros Hx E. unfold roundPositive.
  rewrite (ulpExponent_comp x y Hx E).
  rewrite (roundHalfEven_comp (x / pow2 (ulpExponent y)) (y / pow2 (ulpExponent y))).
  - reflexivity.
  - now rewrite E.
Qed.

Lemma round64_comp (x y : Q) : x == y -> round64 x = round64 y.
Proof.
  intros E. unfold round64. apply Qred_complete.
  rewrite (Qcompare_comp _ _ E 0 0 (Qeq_refl _)).
  destruct (Qcompare_spec y 0) as [H|H|H].
  - reflexivity.
  - apply Qopp_comp. apply roundPositive_comp; [rewrite E; lra|now rewrite E].
  - apply roundPositive_comp; [rewrite E; lra|exact E].
Qed.

Lemma round64_pos (x : Q) : 0 < x -> round64 x == roundPositive x.
Proof.
  intros H. unfold round64. rewrite Qred_correct.
  destruct (Qcompare_spec x 0); [lra|lra|reflexivity].
Qed.

Lemma round64_neg (x : Q) : x < 0 -> round64 x == - roundPositive (- x).
Proof.
  intros H. unfold round64. rewrite Qred_correct.
  destruct (Qcompare_spec x 0); [lra|reflexivity|lra].
Qed.

Lemma round64_zero (x : Q) : x == 0 -> round64 x == 0.
Proof.
  intros H. unfold round64. rewrite Qred_correct.
  destruct (Qcompare_spec x 0); [reflexivity|lra|lra].
Qed.

Lemma round64_opp (x : Q) : round64 (- x) == - round64 x.
Proof.
  destruct (Q_dec x 0) as [[H|H]|H].
  - rewrite (round64_pos (- x)) by lra. rewrite (round64_neg x H). ring.
  - rewrite (round64_neg (- x)) by lra. rewrite (round64_pos x H).
    apply Qopp_comp. apply roundPositive_comp; [lra|ring].
  - rewrite (round64_zero x H). rewrite round64_zero; [ring|lra].
Qed.

Lemma roundPositive_nonneg (x : Q) : 0 < x -> 0 <= roundPositive x.
Proof.
  intros H. unfold roundPositive.
  pose proof (pow2_pos (ulpExponent x)) as P.
  assert (0 <= x / pow2 (ulpExponent x)).
  { apply Qle_shift_div_l; [exact P|lra]. }
  pose proof (roundHalfEven_mono 0 _ H0) as M.
  change 0 with (inject_Z 0) in M at 1. rewrite roundHalfEven_Z in M.
  assert (0 <= inject_Z (roundHalfEven (x / pow2 (ulpExponent x)))).
  { change 0 with (inject_Z 0). now rewrite <- Zle_Qle. }
  nra.
Qed.

(** Bounds on the scaled number that is rounded. *)
Lemma scaled_bounds (x : Q) :
  0 < x ->
  let e := ulpExponent x in
  x / pow2 e < pow2 53 /\ ((-1074 < e)%Z -> pow2 52 <= x / pow2 e).
Proof.
  intros Hx e. destruct (magnitude_spec x Hx) as [M1 M2].
  pose proof (pow2_pos e) as P.
  assert (He : (magnitude x - 52 <= e)%Z) by (unfold e, ulpExponent; lia).
  split.
  - apply Qlt_shift_div_r; [exact P|].
    rewrite <- pow2_plus.
    assert (pow2 (magnitude x + 1) <= pow2 (53 + e)) by (apply pow2_le; lia). lra.
  - intros Hn. assert (Ee : e = (magnitude x - 52)%Z) by (unfold e, ulpExponent in *; lia).
    apply Qle_shift_div_l; [exact P|].
    rewrite <- pow2_plus. rewrite Ee.
    now replace (52 + (magnitude x - 52))%Z with (magnitude x) by ring.
Qed.

Lemma roundPositive_mono (x y : Q) :
  0 < x -> x <= y -> roundPositive x <= roundPositive y.
Proof.
  intros Hx Hxy. assert (Hy : 0 < y) by lra.
  pose proof (magnitude_mono x y Hx Hxy) as Hm.
  assert (He : (ulpExponent x <= ulpExponent y)%Z) by (unfold ulpExponent; lia).
  unfold roundPositive.
  destruct (scaled_bounds x Hx) as [X1 _]. destruct (scaled_bounds y Hy) as [_ Y2].
  set (ex := ulpExponent x) in *. set (ey := ulpExponent y) in *.
  pose proof (pow2_pos ex) as Px. pose proof (pow2_pos ey) as Py.
  destruct (Z.eq_dec ex ey) as [E|E].
  - rewrite <- E in *.
    assert (x / pow2 ex <= y / pow2 ex).
    { apply Qle_shift_div_l; [exact Px|].
      assert (Ex : x / pow2 ex * pow2 ex == x) by (field; lra).
      rewrite Ex. exact Hxy. }
    pose proof (roundHalfEven_mono _ _ H) as M. rewrite Zle_Qle in M. nra.
  - assert (Hlt : (ex + 1 <= ey)%Z) by lia.
    assert (Hey : (-1074 < ey)%Z) by (unfold ex, ulpExponent in *; lia).
    specialize (Y2 Hey).
    assert (A : inject_Z (roundHalfEven (x / pow2 ex)) <= pow2 53).
    { assert (x / pow2 ex <= inject_Z (2 ^ 53)) by (rewrite <- (pow2_Z 53) by lia; lra).
      pose proof (roundHalfEven_mono _ _ H) as M. rewrite roundHalfEven_Z in M.
      rewrite Zle_Qle in M. rewrite (pow2_Z 53) by lia. exact M. }
    assert (B : pow2 52 <= inject_Z (roundHalfEven (y / pow2 ey))).
    { assert (inject_Z (2 ^ 52) <= y / pow2 ey) by (rewrite <- (pow2_Z 52) by lia; lra).
      pose proof (roundHalfEven_mono _ _ H) as M. rewrite roundHalfEven_Z in M.
      rewrite Zle_Qle in M. rewrite (pow2_Z 52) by lia. exact M. }
    assert (C : pow2 53 * pow2 ex <= pow2 52 * pow2 ey).
    { rewrite <- !pow2_plus. apply pow2_le. lia. }
    pose proof (pow2_pos 52). pose proof (pow2_pos 53).
    apply Qle_trans with (pow2 53 * pow2 ex); [nra|].
    apply Qle_trans with (pow2 52 * pow2 ey); [exact C|nra].
Qed.

Lemma round64_nonneg (x : Q) : 0 <= x -> 0 <= round64 x.
Proof.
  intros H. destruct (Qle_lt_or_eq _ _ H) as [H1|H1].
  - rewrite round64_pos by exact H1. now apply roundPositive_nonneg.
  - rewrite round64_zero; [lra|now symmetry].
Qed.

Lemma round64_mono (x y : Q) : x <= y -> round64 x <= round64 y.
Proof.
  intros H.
  destruct (Q_dec x 0) as [[Hx|Hx]|Hx]; destruct (Q_dec y 0) as [[Hy|Hy]|Hy];
    try (exfalso; lra).
  - rewrite (round64_neg x Hx), (round64_neg y Hy).
    assert (roundPositive (- y) <= roundPositive (- x)) by (apply roundPositive_mono; lra).
    lra.
  - pose proof (round64_nonneg y ltac:(lra)).
    pose proof (round64_nonneg (- x) ltac:(lra)) as N. rewrite round64_opp in N. lra.
  - pose proof (round64_nonneg y ltac:(lra)).
    pose proof (round64_nonneg (- x) ltac:(lra)) as N. rewrite round64_opp in N. lra.
  - rewrite (round64_pos x Hx), (round64_pos y Hy). now apply roundPositive_mono.
  - pose proof (round64_nonneg y ltac:(lra)).
    rewrite (round64_zero x Hx). exact H0.
  - rewrite (round64_zero x Hx), (round64_zero y Hy). lra.
Qed.

(** Numbers a double holds exactly. *)
Lemma roundPositive_exact (m j : Z) :
  (0 < m < 2 ^ 53)%Z -> (-1074 <= j)%Z ->
  roundPositive (inject_Z m * pow2 j) == inject_Z m * pow2 j.
Proof.
  intros Hm Hj. set (x := inject_Z m * pow2 j).
  pose proof (pow2_pos j) as Pj.
  assert (Hm0 : 0 < inject_Z m) by (change 0 with (inject_Z 0); rewrite <- Zlt_Qlt; lia).
  assert (Hx : 0 < x) by (unfold x; nra).
  destruct (magnitude_spec x Hx) as [M1 _].
  assert (Hm53 : inject_Z m < pow2 53).
  { rewrite pow2_Z by lia. rewrite <- Zlt_Qlt. lia. }
  assert (Hlt : pow2 (magnitude x) < pow2 (53 + j)).
  { rewrite pow2_plus.
    assert (Ex : x == inject_Z m * pow2 j) by reflexivity.
    assert (inject_Z m * pow2 j < pow2 53 * pow2 j) by (apply Qmult_lt_compat_r; assumption).
    lra. }
  apply pow2_lt_inv in Hlt.
  unfold roundPositive. set (e := ulpExponent x).
  assert (He : (e <= j)%Z) by (unfold e, ulpExponent; lia).
  pose proof (pow2_pos e) as Pe.
  assert (Es : x / pow2 e == inject_Z (m * 2 ^ (j - e))).
  { rewrite inject_Z_mult, <- pow2_Z by lia. unfold x.
    rewrite (pow2_split j e). field. lra. }
  rewrite (roundHalfEven_comp _ _ Es), roundHalfEven_Z.
  rewrite inject_Z_mult, <- pow2_Z by lia. unfold x.
  rewrite (pow2_split j e). ring.
Qed.

Lemma round64_exact (m j : Z) :
  (- 2 ^ 53 < m < 2 ^ 53)%Z -> (-1074 <= j)%Z ->
  round64 (inject_Z m * pow2 j) == inject_Z m * pow2 j.
Proof.
  intros Hm Hj. pose proof (pow2_pos j) as Pj.
  destruct (Z.lt_trichotomy m 0) as [H|[H|H]].
  - assert (E : inject_Z m * pow2 j == - (inject_Z (- m) * pow2 j)).
    { rewrite inject_Z_opp. ring. }
    rewrite (round64_comp _ _ E), round64_opp.
    rewrite round64_pos.
    + rewrite roundPositive_exact by lia. rewrite inject_Z_opp. ring.
    + assert (0 < inject_Z (- m)) by (change 0 with (inject_Z 0); rewrite <- Zlt_Qlt; lia).
      nra.
  - subst m. rewrite round64_zero; change (inject_Z 0) with 0; ring.
  - rewrite round64_pos.
    + apply roundPositive_exact; lia.
    + assert (0 < inject_Z m) by (change 0 with (inject_Z 0); rewrite <- Zlt_Qlt; lia).
      nra.
Qed.

Lemma round64_Z (z : Z) : (- 2 ^ 53 <= z <= 2 ^ 53)%Z -> round64 (inject_Z z) == inject_Z z.
Proof.
  intros H.
  destruct (Z.eq_dec z (2 ^ 53)%Z) as [E|E]; [subst z; vm_compute; reflexivity|].
  destruct (Z.eq_dec z (- 2 ^ 53)%Z) as [E'|E']; [subst z; vm_compute; reflexivity|].
  assert (Ez : inject_Z z == inject_Z z * pow2 0) by (change (pow2 0) with 1; ring).
  rewrite (round64_comp _ _ Ez), (round64_exact z 0) by lia. now symmetry.
Qed.

(** Some roundings: the literals 0.1 and 0.2 and their sum
    (0.30000000000000004), ties around [2^53], the smallest doubles, and
    [1e40]. *)
Example round64_samples :
  map round64
    [0.1; 0.2; round64 0.1 + round64 0.2; two53 + 1; two53 + 3; 1.5;
     (1 # 2) * pow2 (-1074); (3 # 2) * pow2 (-1074); inject_Z (10 ^ 40)]
  = [3602879701896397 # 36028797018963968; 3602879701896397 # 18014398509481984;
     1351079888211149 # 4503599627370496; two53; two53 + 4; 3 # 2;
     0; Qred (pow2 (-1073)); 10000000000000000303786028427003666890752].
Proof. vm_compute. reflexivity. Qed.

Lemma round64_Proper : Proper (Qeq ==> Qeq) round64.
Proof. intros x y E. now rewrite (round64_comp x y E). Qed.
#[global] Existing Instance round64_Proper.

Lemma add64_Proper : Proper (Qeq ==> Qeq ==> Qeq) add64.
Proof. intros a b E c d F. unfold add64. now rewrite E, F. Qed.
#[global] Existing Instance add64_Proper.

Lemma sub64_Proper : Proper (Qeq ==> Qeq ==> Qeq) sub64.
Proof. intros a b E c d F. unfold sub64. now rewrite E, F. Qed.
#[global] Existing Instance sub64_Proper.

Lemma mul64_Proper : Proper (Qeq ==> Qeq ==> Qeq) mul64.
Proof. intros a b E c d F. unfold mul64. now rewrite E, F. Qed.
#[global] Existing Instance mul64_Proper.

Lemma two53_pow2 : two53 == pow2 53.
Proof. reflexivity. Qed.

(** Every integer up to [2^53] is a double. *)
Lemma round64_whole (x : Q) : whole x -> - two53 <= x <= two53 -> round64 x == x.
Proof.
  intros [z Hz] [H1 H2]. rewrite Hz in *. apply round64_Z.
  unfold two53 in *. rewrite Zle_Qle, Zle_Qle. split; [|exact H2].
  rewrite inject_Z_opp. exact H1.
Qed.

(** So is every half of one. *)
Lemma round64_half (x : Q) : whole x -> - two53 < x < two53 -> round64 (x * (1 # 2)) == x * (1 # 2).
Proof.
  intros [z Hz] [H1 H2]. rewrite Hz in *.
  assert (E : inject_Z z * (1 # 2) == inject_Z z * pow2 (-1)) by reflexivity.
  rewrite E. apply round64_exact; [|lia].
  unfold two53 in *. rewrite Zlt_Qlt, Zlt_Qlt. split; [|exact H2].
  rewrite inject_Z_opp. exact H1.
Qed.

Lemma round64_bracket (a x b : Q) :
  isDouble a -> isDouble b -> a <= x <= b -> a <= round64 x <= b.
Proof.
  unfold isDouble. intros Ha Hb [H1 H2].
  pose proof (round64_mono _ _ H1). pose proof (round64_mono _ _ H2). lra.
Qed.

Lemma round64_isDouble (x : Q) : isDouble (round64 x).
Proof.
  unfold isDouble.
  assert (P : forall y, 0 < y -> round64 (roundPositive y) == roundPositive y).
  { intros y Hy. unfold roundPositive.
    destruct (scaled_bounds y Hy) as [B1 _].
    set (e := ulpExponent y) in *. set (m := roundHalfEven (y / pow2 e)).
    assert (He : (-1074 <= e)%Z) by (unfold e, ulpExponent; lia).
    assert (Hm : (0 <= m <= 2 ^ 53)%Z).
    { unfold m. split.
      - assert (0 <= y / pow2 e).
        { apply Qle_shift_div_l; [apply pow2_pos|lra]. }
        pose proof (roundHalfEven_mono 0 _ H) as M.
        change 0 with (inject_Z 0) in M at 1. now rewrite roundHalfEven_Z in M.
      - assert (y / pow2 e <= inject_Z (2 ^ 53)) by (rewrite <- (pow2_Z 53) by lia; lra).
        pose proof (roundHalfEven_mono _ _ H) as M. now rewrite roundHalfEven_Z in M. }
    destruct (Z.eq_dec m (2 ^ 53)%Z) as [E|E].
    - rewrite E.
      assert (E2 : inject_Z (2 ^ 53) * pow2 e == inject_Z (2 ^ 52) * pow2 (e + 1)).
      { rewrite pow2_succ. rewrite <- !(pow2_Z) by lia.
        change (pow2 53) with (2 * pow2 52). ring. }
      rewrite E2. apply round64_exact; lia.
    - apply round64_exact; lia. }
  destruct (Q_dec x 0) as [[H|H]|H].
  - rewrite (round64_neg x H). rewrite round64_opp. rewrite P by lra. reflexivity.
  - rewrite (round64_pos x H). now apply P.
  - rewrite (round64_zero x H). now apply round64_zero.
Qed.

(** [cost * 1.5] is exact as long as three times the cost fits. *)
Lemma mul64_three_halves (c : Q) :
  whole c -> 0 <= c <= 3002399751580330 -> mul64 c 1.5 == c * 1.5.
Proof.
  intros [z Hz] [H1 H2]. unfold mul64. rewrite Hz in *.
  assert (E : inject_Z z * 1.5 == inject_Z (3 * z) * pow2 (-1)).
  { rewrite inject_Z_mult. change (pow2 (-1)) with (1 # 2). change (inject_Z 3) with 3.
    field. }
  rewrite E. apply round64_exact; [|lia].
  change 0 with (inject_Z 0) in H1. rewrite <- Zle_Qle in H1.
  change 3002399751580330 with (inject_Z 3002399751580330) in H2.
  rewrite <- Zle_Qle in H2. lia.
Qed.

(** The decimal literals of the engine, as doubles. *)
Lemma lit_tenth : lit 0.1 == 3602879701896397 / 36028797018963968.
Proof. vm_compute. reflexivity. Qed.

Lemma lit_fifth : lit 0.2 == 3602879701896397 / 18014398509481984.
Proof. vm_compute. reflexivity. Qed.

(** [Math.floor(a * 0.1)] on doubles is the floor of the exact tenth, for
    whole [a] up to [2^50]. *)
Lemma floor_mul64_tenth (a : Q) :
  whole a -> 0 <= a <= 1125899906842624 ->
  Qfloor (mul64 a (lit 0.1)) = Qfloor (a * 0.1).
Proof.
  intros [z Hz] [H1 H2]. unfold mul64.
  rewrite Hz in *.
  assert (Hz0 : (0 <= z)%Z) by (rewrite Zle_Qle; exact H1).
  assert (Hz1 : (z <= 1125899906842624)%Z) by (rewrite Zle_Qle; exact H2).
  set (k := (z / 10)%Z). set (r := (z mod 10)%Z).
  assert (Hzk : z = (10 * k + r)%Z) by (unfold k, r; apply Z.div_mod; lia).
  assert (Hr : (0 <= r < 10)%Z) by (unfold r; apply Z.mod_pos_bound; lia).
  assert (Hk : (0 <= k <= 112589990684263)%Z).
  { unfold k. split; [apply Z.div_pos; lia|].
    apply Z.div_le_upper_bound; lia. }
  assert (Ez : inject_Z z == 10 * inject_Z k + inject_Z r).
  { rewrite Hzk, inject_Z_plus, inject_Z_mult. reflexivity. }
  assert (Hr' : 0 <= inject_Z r <= 9).
  { split; [change 0 with (inject_Z 0)|change 9 with (inject_Z 9)];
      rewrite <- Zle_Qle; lia. }
  assert (Hk' : 0 <= inject_Z k).
  { change 0 with (inject_Z 0); rewrite <- Zle_Qle; lia. }
  assert (Fexact : Qfloor (inject_Z z * 0.1) = k).
  { symmetry. apply Z.le_antisymm.
    - rewrite <- (Qfloor_Z k). apply Qfloor_resp_le. lra.
    - apply Z.lt_succ_r. rewrite Zlt_Qlt. unfold Z.succ. rewrite inject_Z_plus.
      change (inject_Z 1) with 1.
      destruct (floor_bounds (inject_Z z * 0.1)) as [F1 F2]. lra. }
  rewrite Fexact.
  (* the double product lies between k and k + 15/16 *)
  set (y := inject_Z z * lit 0.1).
  assert (Hy : inject_Z k <= y <= inject_Z k + (15 # 16)).
  { unfold y. rewrite lit_tenth.
    assert (Ed : 3602879701896397 / 36028797018963968 == 0.1 + (1 # 180143985094819840))
      by reflexivity.
    rewrite Ed. split; lra. }
  assert (Da : isDouble (inject_Z k)).
  { unfold isDouble. apply round64_Z. lia. }
  assert (Db : isDouble (inject_Z k + (15 # 16))).
  { unfold isDouble.
    assert (E : inject_Z k + (15 # 16) == inject_Z (16 * k + 15) * pow2 (-4)).
    { rewrite inject_Z_plus, inject_Z_mult. change (pow2 (-4)) with (1 # 16).
      change (inject_Z 16) with 16. change (inject_Z 15) with 15. field. }
    rewrite E. apply round64_exact; lia. }
  destruct (round64_bracket _ _ _ Da Db Hy) as [B1 B2].
  apply Z.le_antisymm.
  - apply Z.lt_succ_r. rewrite Zlt_Qlt. unfold Z.succ. rewrite inject_Z_plus.
    change (inject_Z 1) with 1.
    destruct (floor_bounds (round64 y)) as [F1 F2]. lra.
  - rewrite <- (Qfloor_Z k) at 1. apply Qfloor_resp_le. exact B1.
Qed.

(** ** The engine on doubles *)

(** Evaluate the state passing, leaving the arithmetic and its rounding
    alone. *)
Ltac run64 :=
  cbv -[Qplus Qminus Qmult Qopp Qdiv Qinv Qle_bool Qltb Qmax Qfloor Qceiling
        inject_Z Qeq Qle Qlt app Z.of_nat Z.to_nat
        round64 add64 sub64 mul64 div64 lit two53 whole finiteState].
Ltac run64_in H :=
  cbv -[Qplus Qminus Qmult Qopp Qdiv Qinv Qle_bool Qltb Qmax Qfloor Qceiling
        inject_Z Qeq Qle Qlt app Z.of_nat Z.to_nat
        round64 add64 sub64 mul64 div64 lit two53 whole finiteState] in H.

Lemma add64_whole (x y : Q) :
  whole x -> whole y -> - two53 <= x + y <= two53 -> add64 x y == x + y.
Proof.
  intros [a Ha] [b Hb] H. apply round64_whole; [|exact H].
  exists (a + b)%Z. rewrite inject_Z_plus, Ha, Hb. reflexivity.
Qed.

Lemma sub64_whole (x y : Q) :
  whole x -> whole y -> - two53 <= x - y <= two53 -> sub64 x y == x - y.
Proof.
  intros [a Ha] [b Hb] H. apply round64_whole; [|exact H].
  exists (a - b)%Z. unfold Z.sub. rewrite inject_Z_plus, inject_Z_opp, Ha, Hb. reflexivity.
Qed.

Lemma mul64_whole (x y : Q) :
  whole x -> whole y -> - two53 <= x * y <= two53 -> mul64 x y == x * y.
Proof.
  intros [a Ha] [b Hb] H. apply round64_whole; [|exact H].
  exists (a * b)%Z. rewrite inject_Z_mult, Ha, Hb. reflexivity.
Qed.

(** C2, as stated, fails: with a cost of 6004799503160661 the product
    [cost * 1.5 = 9007199254740991.5] is not a double; the machine rounds
    it to 9007199254740992 before [Math.floor] sees it, one more than the
    cost times 1.5 rounded down. *)
Lemma buyUpgrade_cost_rounded_refuted :
  let s := upd_upgradeCosts (Stats.set HandSpeed 6004799503160661)
             (set_linesOfCode 6004799503160661 createDefaultGameState) in
  let w := mkWorld s None [] (always half) 0 in
  let cost' := Stats.get HandSpeed
                 (upgradeCosts (gameState (exec (Double.buyUpgrade HandSpeed) w))) in
  result (Double.buyUpgrade HandSpeed) w = true
  /\ cost' == 9007199254740992
  /\ ~ (cost' == inject_Z (Qfloor (6004799503160661 * 1.5))).
Proof.
  cbv zeta. split; [vm_compute; reflexivity|]. split; [vm_compute; reflexivity|].
  intros H. vm_compute in H. discriminate H.
Qed.

(** C2, amended: [buyUpgrade] succeeds exactly when [linesOfCode] covers
    the current cost of the stat.  On success the balance becomes the
    double [linesOfCode - cost], which is not negative, the stat the double
    [stat + 1] (hand speed) or [stat + 2], the cost the floor of the double
    [cost * 1.5], and nothing else changes; on failure the whole world,
    hence every field of the state, is unchanged.  The three results are
    the exact ones on whole numbers in range: the difference up to [2^53],
    the sum up to [2^53], and the floor of [cost * 1.5] for costs up to
    3002399751580330, a third of [2^53]. *)
Theorem buyUpgrade_all_or_nothing (t : UpgradeType) (w : World) :
  let s := gameState w in
  let cost := Stats.get t (upgradeCosts s) in
  let stat := Stats.get t (stats s) in
  let gain := match t with HandSpeed => 1 | _ => 2 end in
  let w' := exec (Double.buyUpgrade t) w in
  let s' := gameState w' in
  finiteState s = true ->
  (result (Double.buyUpgrade t) w = true <-> cost <= linesOfCode_of s)
  /\ if result (Double.buyUpgrade t) w then
       linesOfCode_of s' = sub64 (linesOfCode_of s) cost
       /\ 0 <= linesOfCode_of s'
       /\ Stats.get t (stats s') = add64 stat gain
       /\ Stats.get t (upgradeCosts s') = inject_Z (Qfloor (mul64 cost 1.5))
       /\ (whole (linesOfCode_of s) -> whole cost -> 0 <= cost ->
           linesOfCode_of s <= two53 ->
           linesOfCode_of s' == linesOfCode_of s - cost)
       /\ (whole stat -> - two53 <= stat <= two53 - 2 ->
           Stats.get t (stats s') == stat + gain)
       /\ (whole cost -> 0 <= cost <= 3002399751580330 ->
           Stats.get t (upgradeCosts s') == inject_Z (Qfloor (cost * 1.5)))
       /\ (forall t', t' <> t ->
             Stats.get t' (stats s') = Stats.get t' (stats s)
             /\ Stats.get t' (upgradeCosts s') = Stats.get t' (upgradeCosts s))
       /\ bugFragments_of s' = bugFragments_of s
       /\ character s' = character s
       /\ equipment s' = equipment s
       /\ statistics s' = statistics s
       /\ battle s' = battle s
       /\ settings s' = settings s
       /\ globalState w' = globalState w
       /\ shown w' = shown w
       /\ randomSource w' = randomSource w
       /\ randomsDrawn w' = randomsDrawn w
     else w' = w.
Proof.
  cbv zeta. intros _. destruct_world w.
  destruct st as [hs al it]. destruct uc as [ch ca ci]. destruct r as [loc fr].
  destruct t; run64;
    match goal with |- context [Qle_bool ?c loc] => destruct (Qle_bool c loc) eqn:E end;
    try (split; [split; [discriminate|]|reflexivity];
         intros H; apply Qle_bool_iff in H; congruence);
    apply Qle_bool_iff in E;
    (split; [split; [intros _; exact E|reflexivity]|]);
    repeat match goal with |- _ /\ _ => split end; try reflexivity.
  all: try (apply round64_nonneg; lra).
  all: try (intros W1 W2 C0 L; apply sub64_whole; [exact W1|exact W2|];
            unfold two53 in *; lra).
  all: try (intros W B; apply add64_whole;
            [exact W|first [exists 1%Z; reflexivity|exists 2%Z; reflexivity]|];
            unfold two53 in *; lra).
  all: try (intros W B; now rewrite (Qfloor_comp _ _ (mul64_three_halves _ W B))).
  all: intros t' Ht'; destruct t'; try (exfalso; apply Ht'; reflexivity);
    split; reflexivity.
Qed.

Lemma buyUpgrade_all_or_nothing_witness :
  let w := mkWorld (set_linesOfCode 50 createDefaultGameState) None [] (always half) 0 in
  let s' := gameState (exec (Double.buyUpgrade HandSpeed) w) in
  result (Double.buyUpgrade HandSpeed) w = true
  /\ linesOfCode_of s' == 0
  /\ Stats.handSpeed (stats s') == 2
  /\ Stats.handSpeed (upgradeCosts s') == 75.
Proof.
  set (w0 := mkWorld (set_linesOfCode 50 createDefaultGameState) None [] (always half) 0).
  destruct (buyUpgrade_all_or_nothing HandSpeed w0 eq_refl) as (_ & H).
  change (result (Double.buyUpgrade HandSpeed) w0) with true in H. cbv iota in H.
  destruct H as (_ & _ & _ & _ & H1 & H2 & H3 & _).
  cbv zeta. split; [reflexivity|]. split; [|split].
  - rewrite H1; [reflexivity|exists 50%Z; reflexivity|exists 50%Z; reflexivity
                 |discriminate|discriminate].
  - apply H2; [exists 1%Z; reflexivity|split; discriminate].
  - apply H3; [exists 50%Z; reflexivity|split; discriminate].
Defined.

(** ** Upgrade costs on doubles *)

(** Up to [exactPurchases] the machine's products are exact: each cost of
    the iterated floor is scaled by the machine to the next one. *)
Lemma scaleCost_exact_table (t : UpgradeType) :
  forallb (fun n => Qeq_bool (Double.scaleCost (costAfter n (initialCost t)))
                      (costAfter (S n) (initialCost t)))
    (seq 0 (exactPurchases t)) = true.
Proof. destruct t; vm_compute; reflexivity. Qed.

Lemma scaleCost_exact (t : UpgradeType) (n : nat) :
  (n < exactPurchases t)%nat ->
  Double.scaleCost (costAfter n (initialCost t)) == costAfter (S n) (initialCost t).
Proof.
  intros H. apply Qeq_bool_iff.
  pose proof (scaleCost_exact_table t) as T. rewrite forallb_forall in T.
  apply (T n). apply in_seq. lia.
Qed.

Lemma costAfter_exact_table (t : UpgradeType) :
  forallb (fun n => Qeq_bool (Double.costAfter n (initialCost t))
                      (costAfter n (initialCost t)))
    (seq 0 (S (exactPurchases t))) = true.
Proof. destruct t; vm_compute; reflexivity. Qed.

(** C3, amended: after [n] successful purchases of a stat since the
    default state (initial costs 50, 30 and 40), [n] being at most 80
    (hand speed), 83 (algorithm) or 82 (iteration), its cost is the initial
    cost to which [c |-> floor(c * 1.5)] was applied [n] times: the
    rounding is done at every purchase.  Up to these numbers of purchases
    the machine computes every product [c * 1.5] exactly, so the costs it
    holds are these; with the next purchase its sequence leaves the
    iterated floor.  The iterated floor is at most
    [floor(initialCost * 1.5^n)], and equal to it for the first 3 (hand
    speed), 2 (algorithm) and 5 (iteration) purchases. *)
Theorem upgrade_cost_iterated_floor (t : UpgradeType) (ops : list Op)
    (g : option GameState) (sh : list Notification) (rs : nat -> Rand) (n0 : nat) :
  let w0 := mkWorld createDefaultGameState g sh rs n0 in
  let n := purchasesOf t ops w0 0 in
  (n <= exactPurchases t)%nat ->
  Stats.get t (upgradeCosts (gameState (runOps ops w0))) = costAfter n (initialCost t)
  /\ Double.costAfter n (initialCost t) == costAfter n (initialCost t)
  /\ ~ (Double.costAfter (S (exactPurchases t)) (initialCost t)
        == costAfter (S (exactPurchases t)) (initialCost t))
  /\ costAfter n (initialCost t) <= closedFormCost n (initialCost t)
  /\ initialCost HandSpeed = 50 /\ initialCost Algorithm = 30
  /\ initialCost Iteration = 40
  /\ map (fun k => costAfter k 50) (seq 0 4) = map (fun k => closedFormCost k 50) (seq 0 4)
  /\ map (fun k => costAfter k 30) (seq 0 3) = map (fun k => closedFormCost k 30) (seq 0 3)
  /\ map (fun k => costAfter k 40) (seq 0 6) = map (fun k => closedFormCost k 40) (seq 0 6).
Proof.
  cbv zeta. intros Hn. split; [now apply runOps_cost|]. split; [|split; [|split]].
  - apply Qeq_bool_iff.
    pose proof (costAfter_exact_table t) as T. rewrite forallb_forall in T.
    apply (T (purchasesOf t ops _ 0)). apply in_seq. lia.
  - intros H. apply Qeq_bool_iff in H. destruct t; vm_compute in H; discriminate H.
  - destruct (purchasesOf t ops _ 0) as [|k].
    + destruct t; vm_compute; discriminate.
    + apply costAfter_le_closedForm.
  - repeat split; vm_compute; reflexivity.
Qed.

Lemma upgrade_cost_iterated_floor_witness :
  let w0 := mkWorld createDefaultGameState None [] (always high) 0 in
  purchasesOf Algorithm threePurchases w0 0 = 3%nat
  /\ Stats.get Algorithm (upgradeCosts (gameState (runOps threePurchases w0))) == 100
  /\ Double.costAfter 3 30 == 100.
Proof.
  cbv zeta.
  assert (H3 : purchasesOf Algorithm threePurchases
                 (mkWorld createDefaultGameState None [] (always high) 0) 0 = 3%nat)
    by (vm_compute; reflexivity).
  assert (Hle : (purchasesOf Algorithm threePurchases
                   (mkWorld createDefaultGameState None [] (always high) 0) 0
                 <= exactPurchases Algorithm)%nat)
    by (rewrite H3; vm_compute; lia).
  destruct (upgrade_cost_iterated_floor Algorithm threePurchases None [] (always high) 0 Hle)
    as (H1 & H2 & _).
  rewrite H3 in H1, H2.
  split; [exact H3|]. split.
  - rewrite H1. vm_compute. reflexivity.
  - change (initialCost Algorithm) with 30 in H2. rewrite H2. vm_compute. reflexivity.
Defined.

(** X19: along a run from the default state, as long as fewer than 80
    (hand speed), 83 (algorithm) or 82 (iteration) purchases of the stat
    were made, a purchase that succeeds makes the next one strictly
    dearer: the new cost is [floor(cost * 1.5)], which the machine computes
    exactly, more than [cost] and within one of [cost * 1.5]; a purchase
    that fails leaves the cost as it is. *)
Theorem purchase_raises_cost (t : UpgradeType) (ops : list Op) (g : option GameState)
    (sh : list Notification) (rs : nat -> Rand) (n0 : nat) :
  let w0 := mkWorld createDefaultGameState g sh rs n0 in
  let w := runOps ops w0 in
  let cost := Stats.get t (upgradeCosts (gameState w)) in
  let cost' := Stats.get t (upgradeCosts (gameState (exec (buyUpgrade t) w))) in
  (purchasesOf t ops w0 0 < exactPurchases t)%nat ->
  if result (buyUpgrade t) w
  then cost < cost' /\ cost * 1.5 - 1 < cost' /\ cost' <= cost * 1.5
       /\ cost' == Double.scaleCost cost
  else cost' = cost.
Proof.
  cbv zeta. intros Hn.
  pose proof (runOps_wellFormed ops (mkWorld createDefaultGameState g sh rs n0)
                default_wellFormed) as H.
  pose proof (runOps_cost t ops (mkWorld createDefaultGameState g sh rs n0) 0 eq_refl) as Hc0.
  set (w := runOps ops _) in *.
  rewrite buyUpgrade_upgradeCosts.
  destruct (result (buyUpgrade t) w); [|reflexivity].
  rewrite Stats_get_set, UpgradeType_eqb_refl.
  split; [|split; [|split]].
  4: { rewrite Hc0. rewrite (scaleCost_exact t _ Hn). reflexivity. }
  all: unfold scaleCost;
    destruct (floor_bounds (Stats.get t (upgradeCosts (gameState w)) * 1.5)) as (F1 & F2);
    assert (Hc : 30 <= Stats.get t (upgradeCosts (gameState w)))
      by (split_wellFormed H; destruct t; simpl; lra);
    lra.
Qed.

Lemma purchase_raises_cost_witness :
  let w := runOps (repeat (Interact FileSave) 11)
             (mkWorld createDefaultGameState None [] (always high) 0) in
  let cost := Stats.get Algorithm (upgradeCosts (gameState w)) in
  let cost' := Stats.get Algorithm (upgradeCosts (gameState (exec (buyUpgrade Algorithm) w))) in
  result (buyUpgrade Algorithm) w = true
  /\ cost < cost' /\ cost * 1.5 - 1 < cost' /\ cost' <= cost * 1.5
  /\ cost' == Double.scaleCost cost.
Proof.
  assert (Hn : (purchasesOf Algorithm (repeat (Interact FileSave) 11)
                  (mkWorld createDefaultGameState None [] (always high) 0) 0
                < exactPurchases Algorithm)%nat) by (vm_compute; lia).
  pose proof (purchase_raises_cost Algorithm (repeat (Interact FileSave) 11)
                None [] (always high) 0 Hn) as H.
  cbv zeta in H |- *.
  set (w := runOps _ _) in *.
  change (result (buyUpgrade Algorithm) w) with true in H. cbv iota in H.
  split; [reflexivity|exact H].
Defined.

(** ** Level-up on doubles *)

Lemma Double_levelUpBody_fields (w : World) :
  let s := gameState w in
  let s' := gameState (exec Double.levelUpBody w) in
  level_of s' = add64 (level_of s) 1
  /\ experience_of s' = sub64 (experience_of s) (experienceToNext_of s)
  /\ experienceToNext_of s' = add64 100 (mul64 (sub64 (add64 (level_of s) 1) 1) 50).
Proof.
  destruct_world w. destruct c as [nm l e t]. run64.
  destruct se as [a [|]]; repeat split; reflexivity.
Qed.

Lemma whole_comp (x y : Q) : x == y -> whole y -> whole x.
Proof. intros E [z Hz]. exists z. now rewrite E. Qed.

(** One turn of the loop on a state of [levelUpExact]: every operation is
    exact, the state stays in [levelUpExact], and the experience drops by
    at least one. *)
Lemma Double_levelUpBody_exact (w : World) :
  let s := gameState w in
  let s' := gameState (exec Double.levelUpBody w) in
  levelUpExact s -> levelUpCondition w = true ->
  levelUpExact s'
  /\ level_of s' == level_of s + 1
  /\ experience_of s' == experience_of s - experienceToNext_of s
  /\ experienceToNext_of s' == 100 + (level_of s + 1 - 1) * 50.
Proof.
  cbv zeta. intros (WL & WE & WT & L0 & T0 & T1 & L1 & LE) Hc.
  apply levelUpCondition_true in Hc.
  destruct (Double_levelUpBody_fields w) as (FL & FE & FT). cbv zeta in FL, FE, FT.
  set (l := level_of (gameState w)) in *. set (e := experience_of (gameState w)) in *.
  set (t := experienceToNext_of (gameState w)) in *.
  unfold two53 in *.
  assert (EL : add64 l 1 == l + 1).
  { apply add64_whole; [exact WL|apply (whole_inject 1)|]. unfold two53. lra. }
  assert (EE : sub64 e t == e - t).
  { apply sub64_whole; [exact WE|exact WT|]. unfold two53. lra. }
  assert (E1 : sub64 (add64 l 1) 1 == l).
  { rewrite EL. rewrite sub64_whole.
    - ring.
    - apply whole_plus; [exact WL|apply (whole_inject 1)].
    - apply (whole_inject 1).
    - unfold two53. lra. }
  assert (E2 : mul64 (sub64 (add64 l 1) 1) 50 == l * 50).
  { rewrite E1. apply mul64_whole; [exact WL|apply (whole_inject 50)|]. unfold two53. lra. }
  assert (ET : add64 100 (mul64 (sub64 (add64 l 1) 1) 50) == 100 + l * 50).
  { rewrite E2. apply add64_whole.
    - apply (whole_inject 100).
    - apply whole_mult; [exact WL|apply (whole_inject 50)].
    - unfold two53. lra. }
  rewrite FL, FE, FT.
  split; [|split; [exact EL|split; [exact EE|rewrite ET; ring]]].
  unfold levelUpExact. rewrite FL, FE, FT.
  split; [eapply whole_comp; [exact EL|apply whole_plus; [exact WL|apply (whole_inject 1)]]|].
  split; [eapply whole_comp; [exact EE|apply whole_minus; assumption]|].
  split; [eapply whole_comp; [exact ET|
          apply whole_plus; [apply (whole_inject 100)|apply whole_mult; [exact WL|apply (whole_inject 50)]]]|].
  rewrite ET, EE, EL. unfold two53. repeat split; lra.
Qed.

Lemma Double_checkLevelUp_enough (fuel : nat) (w : World) :
  levelUpExact (gameState w) ->
  experience_of (gameState w) < inject_Z (Z.of_nat fuel) ->
  exists w', Double.checkLevelUp fuel w = Some w'.
Proof.
  unfold Double.checkLevelUp.
  revert w. induction fuel as [|n IH]; intros w Hx He.
  - simpl. destruct (levelUpCondition w) eqn:E; [|eauto].
    exfalso. apply levelUpCondition_true in E.
    destruct Hx as (_ & _ & _ & _ & T0 & _). change (inject_Z (Z.of_nat 0)) with 0 in He. lra.
  - rewrite while_S. destruct (levelUpCondition w) eqn:E; [|eauto].
    destruct (Double_levelUpBody_exact w Hx E) as (Hx' & _ & EE & _).
    apply IH; [exact Hx'|].
    apply levelUpCondition_true in E.
    destruct Hx as (_ & _ & _ & _ & T0 & _).
    rewrite EE. rewrite Nat2Z.inj_succ in He. unfold Z.succ in He.
    rewrite inject_Z_plus in He. change (inject_Z 1) with 1 in He. lra.
Qed.

Section WhileIterates.
Variables (cond : World -> bool) (body : M unit).

(** A loop that leaves after [k] turns does so on any larger allowance. *)
Lemma while_enough (k : nat) (w : World) :
  (forall j : nat, (j < k)%nat -> cond (Nat.iter j (exec body) w) = true) ->
  cond (Nat.iter k (exec body) w) = false ->
  forall fuel : nat, (k <= fuel)%nat ->
    while fuel cond body w = Some (Nat.iter k (exec body) w).
Proof.
  revert w. induction k as [|k IH]; intros w Hj Hk fuel Hf.
  - simpl in Hk. destruct fuel; simpl; now rewrite Hk.
  - destruct fuel as [|fuel]; [lia|].
    rewrite while_S. pose proof (Hj O ltac:(lia)) as H0. simpl in H0. rewrite H0.
    rewrite Nat.iter_succ_r. apply IH; [|now rewrite <- Nat.iter_succ_r|lia].
    intros j Hlt. rewrite <- Nat.iter_succ_r. apply Hj. lia.
Qed.

(** A loop that never meets a false condition never leaves. *)
Lemma while_never (P : World -> Prop) :
  (forall v, P v -> cond v = true /\ P (exec body v)) ->
  forall (fuel : nat) (w : World), P w -> while fuel cond body w = None.
Proof.
  intros Hstep. induction fuel as [|n IH]; intros w Hw;
    destruct (Hstep w Hw) as [Hc Hn]; simpl; rewrite Hc; [reflexivity|].
  now apply IH.
Qed.
End WhileIterates.

Lemma Double_levelUp_iter (k : nat) (w : World) :
  levelUpExact (gameState w) ->
  (forall j : nat, (j < k)%nat ->
     levelUpCondition (Nat.iter j (exec Double.levelUpBody) w) = true) ->
  levelUpExact (gameState (Nat.iter k (exec Double.levelUpBody) w))
  /\ level_of (gameState (Nat.iter k (exec Double.levelUpBody) w))
     == level_of (gameState w) + inject_Z (Z.of_nat k).
Proof.
  intros Hx. induction k as [|k IH]; intros Hj.
  - simpl. split; [exact Hx|]. change (inject_Z 0) with 0. ring.
  - destruct IH as (Ix & Il); [intros j Hlt; apply Hj; lia|].
    rewrite Nat.iter_succ.
    destruct (Double_levelUpBody_exact _ Ix (Hj k ltac:(lia))) as (Hx' & EL & _).
    split; [exact Hx'|].
    rewrite EL, Il, Nat2Z.inj_succ. unfold Z.succ. rewrite inject_Z_plus.
    change (inject_Z 1) with 1. ring.
Qed.

(** On a state of [levelUpExact] the loop leaves after some [k] turns. *)
Lemma Double_checkLevelUp_total (w : World) :
  levelUpExact (gameState w) ->
  exists k : nat,
    (forall fuel : nat, (k <= fuel)%nat ->
       Double.checkLevelUp fuel w = Some (Nat.iter k (exec Double.levelUpBody) w))
    /\ (forall j : nat, (j < k)%nat ->
          levelUpCondition (Nat.iter j (exec Double.levelUpBody) w) = true)
    /\ levelUpCondition (Nat.iter k (exec Double.levelUpBody) w) = false.
Proof.
  intros Hx.
  set (fuel0 := S (Z.to_nat (Qfloor (experience_of (gameState w))))).
  destruct (Double_checkLevelUp_enough fuel0 w Hx) as [w' Hw'].
  { unfold fuel0. destruct (floor_bounds (experience_of (gameState w))) as [F1 F2].
    rewrite Nat2Z.inj_succ. unfold Z.succ. rewrite inject_Z_plus.
    change (inject_Z 1) with 1.
    destruct (Z.le_gt_cases 0 (Qfloor (experience_of (gameState w)))) as [P|P].
    - rewrite Z2Nat.id by exact P. exact F2.
    - assert (inject_Z (Qfloor (experience_of (gameState w))) < 0)
        by (change 0 with (inject_Z 0); now rewrite <- Zlt_Qlt).
      assert (0 <= inject_Z (Z.of_nat (Z.to_nat (Qfloor (experience_of (gameState w))))))
        by (change 0 with (inject_Z 0); rewrite <- Zle_Qle; lia).
      lra. }
  unfold Double.checkLevelUp in Hw'.
  destruct (while_iterates _ _ _ _ _ Hw') as (k & Hk & Hj).
  pose proof (while_exit _ _ _ _ _ Hw') as Hexit. rewrite Hk in Hexit.
  exists k. split; [|split; [exact Hj|exact Hexit]].
  intros fuel Hf. unfold Double.checkLevelUp.
  now apply while_enough.
Qed.

(** C1, as stated, fails for a large grant: from the default state with
    [1e40] experience points the subtraction of the threshold is absorbed
    by the rounding, the level stops growing at [2^53], and
    [checkLevelUp] never returns. *)
Lemma large_grant_never_returns :
  ~ (exists (fuel : nat) (w' : World), Double.checkLevelUp fuel hugeGrantWorld = Some w').
Proof.
  intros (fuel & w' & H).
  set (D := lit (inject_Z (10 ^ 40))).
  assert (N : Double.checkLevelUp fuel hugeGrantWorld = None).
  { unfold Double.checkLevelUp.
    apply (while_never _ _
             (fun v => experience_of (gameState v) == D
                       /\ 1 <= level_of (gameState v) <= two53
                       /\ 0 <= experienceToNext_of (gameState v) <= pow2 60)).
    - intros v (HE & (L0 & L1) & (T0 & T1)).
      assert (D60 : pow2 60 <= D) by (vm_compute; discriminate).
      split.
      + apply levelUpCondition_true. rewrite HE. lra.
      + destruct (Double_levelUpBody_fields v) as (FL & FE & FT). cbv zeta in FL, FE, FT.
        rewrite FL, FE, FT.
        set (l := level_of (gameState v)) in *.
        set (e := experience_of (gameState v)) in *.
        set (t := experienceToNext_of (gameState v)) in *.
        assert (R0 : round64 0 == 0) by (vm_compute; reflexivity).
        assert (R2 : round64 2 == 2) by (vm_compute; reflexivity).
        assert (R53 : round64 two53 == two53) by (vm_compute; reflexivity).
        assert (R53' : round64 (two53 + 1) == two53) by (vm_compute; reflexivity).
        assert (R59 : round64 (pow2 59) == pow2 59) by (vm_compute; reflexivity).
        assert (R60 : round64 (pow2 60) == pow2 60) by (vm_compute; reflexivity).
        assert (C59 : two53 * 50 <= pow2 59) by (vm_compute; discriminate).
        assert (C60 : 100 + pow2 59 <= pow2 60) by (vm_compute; discriminate).
        assert (RD : round64 D == D) by (vm_compute; reflexivity).
        assert (RD' : round64 (D - pow2 60) == D) by (vm_compute; reflexivity).
        assert (BL : 2 <= add64 l 1 <= two53).
        { unfold add64.
          pose proof (round64_mono 2 (l + 1) ltac:(lra)) as M1.
          pose proof (round64_mono (l + 1) (two53 + 1) ltac:(lra)) as M2.
          lra. }
        assert (BS : 0 <= sub64 (add64 l 1) 1 <= two53).
        { unfold sub64.
          pose proof (round64_mono 0 (add64 l 1 - 1) ltac:(lra)) as M1.
          pose proof (round64_mono (add64 l 1 - 1) two53 ltac:(lra)) as M2.
          lra. }
        assert (BM : 0 <= mul64 (sub64 (add64 l 1) 1) 50 <= pow2 59).
        { unfold mul64.
          pose proof (round64_mono 0 (sub64 (add64 l 1) 1 * 50) ltac:(lra)) as M1.
          pose proof (round64_mono (sub64 (add64 l 1) 1 * 50) (pow2 59) ltac:(lra)) as M2.
          lra. }
        assert (BT : 0 <= add64 100 (mul64 (sub64 (add64 l 1) 1) 50) <= pow2 60).
        { set (m := mul64 (sub64 (add64 l 1) 1) 50) in *. unfold add64.
          pose proof (round64_mono 0 (100 + m) ltac:(lra)) as M1.
          pose proof (round64_mono (100 + m) (pow2 60) ltac:(lra)) as M2.
          lra. }
        split; [|split; [lra|exact BT]].
        unfold sub64. rewrite HE.
        pose proof (round64_mono (D - pow2 60) (D - t) ltac:(lra)) as M1.
        pose proof (round64_mono (D - t) D ltac:(lra)) as M2.
        lra.
    - split; [reflexivity|]. split; split; vm_compute; discriminate. }
  congruence.
Qed.

(** C1, amended: on a state of [levelUpExact] (level, experience and
    threshold whole numbers, the threshold positive, the level at least
    -1 and, with the experience added, at most [2^47]), [checkLevelUp]
    returns, and the state it returns has [experience < experienceToNext].
    The call is the loop body run [k] times, each time with the threshold
    reached, the threshold subtracted exactly and one level granted; [k]
    can exceed one: from level 1 with 300 experience two levels are gained
    in one call. *)
Theorem checkLevelUp_renormalises (w : World) :
  finiteState (gameState w) = true ->
  levelUpExact (gameState w) ->
  exists (k : nat) (w' : World),
    (forall fuel : nat, (k <= fuel)%nat -> Double.checkLevelUp fuel w = Some w')
    /\ experience_of (gameState w') < experienceToNext_of (gameState w')
    /\ w' = Nat.iter k (exec Double.levelUpBody) w
    /\ level_of (gameState w') == level_of (gameState w) + inject_Z (Z.of_nat k)
    /\ (forall j : nat, (j < k)%nat ->
          let v := Nat.iter j (exec Double.levelUpBody) w in
          let v' := exec Double.levelUpBody v in
          experienceToNext_of (gameState v) <= experience_of (gameState v)
          /\ experience_of (gameState v')
             == experience_of (gameState v) - experienceToNext_of (gameState v)
          /\ level_of (gameState v') == level_of (gameState v) + 1
          /\ 1 <= experienceToNext_of (gameState v'))
    /\ (let big := mkWorld (set_experience 300 createDefaultGameState)
                     (globalState w) (shown w) (randomSource w) (randomsDrawn w) in
        exists b, Double.checkLevelUp 2 big = Some b
                  /\ level_of (gameState b) == 3
                  /\ experience_of (gameState b) == 50
                  /\ experienceToNext_of (gameState b) == 200).
Proof.
  intros _ Hx.
  destruct (Double_checkLevelUp_total w Hx) as (k & Hk & Hj & Hexit).
  destruct (Double_levelUp_iter k w Hx Hj) as (Ix & Il).
  exists k, (Nat.iter k (exec Double.levelUpBody) w).
  split; [exact Hk|]. split; [now apply levelUpCondition_false|].
  split; [reflexivity|]. split; [exact Il|]. split.
  - intros j Hlt. cbv zeta.
    destruct (Double_levelUp_iter j w Hx) as (Jx & _); [intros i Hi; apply Hj; lia|].
    destruct (Double_levelUpBody_exact _ Jx (Hj j Hlt)) as (Jx' & EL & EE & _).
    split; [apply levelUpCondition_true, Hj, Hlt|].
    split; [exact EE|]. split; [exact EL|].
    destruct Jx' as (_ & _ & _ & _ & T0 & _). exact T0.
  - cbv zeta. eexists. split; [vm_compute; reflexivity|].
    repeat split; vm_compute; reflexivity.
Qed.

Lemma checkLevelUp_renormalises_witness :
  let w := mkWorld (set_experience 300 createDefaultGameState) None [] (always half) 0 in
  exists (k : nat) (w' : World),
    Double.checkLevelUp k w = Some w'
    /\ experience_of (gameState w') < experienceToNext_of (gameState w').
Proof.
  cbv zeta.
  destruct (checkLevelUp_renormalises
              (mkWorld (set_experience 300 createDefaultGameState) None [] (always half) 0)
              eq_refl)
    as (k & w' & H1 & H2 & _).
  - unfold levelUpExact, two53.
    split; [exists 1%Z; reflexivity|]. split; [exists 300%Z; reflexivity|].
    split; [exists 100%Z; reflexivity|]. repeat split; vm_compute; discriminate.
  - exists k, w'. split; [apply H1; lia|exact H2].
Defined.

(** ** The tick on doubles *)

Lemma Double_accrual_effect (w : World) :
  let s := gameState w in
  let s' := gameState (exec Double.accrual w) in
  let rate := result Double.calculateLocPerSecond w in
  linesOfCode_of s' = add64 (linesOfCode_of s) rate
  /\ Statistics.totalLinesGenerated (statistics s')
     = add64 (Statistics.totalLinesGenerated (statistics s)) rate
  /\ Statistics.totalPlayTime (statistics s')
     = add64 (Statistics.totalPlayTime (statistics s)) 1
  /\ Statistics.totalBugsDefeated (statistics s') = Statistics.totalBugsDefeated (statistics s)
  /\ Statistics.keystrokes (statistics s') = Statistics.keystrokes (statistics s)
  /\ Statistics.filesOpened (statistics s') = Statistics.filesOpened (statistics s)
  /\ Statistics.filesSaved (statistics s') = Statistics.filesSaved (statistics s)
  /\ bugFragments_of s' = bugFragments_of s
  /\ character s' = character s /\ stats s' = stats s
  /\ upgradeCosts s' = upgradeCosts s /\ equipment s' = equipment s
  /\ battle s' = battle s /\ settings s' = settings s
  /\ sameOutsideState w (exec Double.accrual w).
Proof.
  destruct_world w. run64. repeat split; reflexivity.
Qed.

Lemma Double_processBattle_idle (w : World) :
  isInBattle_of (gameState w) = false \/ currentBug_of (gameState w) = None ->
  exec Double.processBattle w = w.
Proof.
  unfold Double.processBattle, exec, bind, getState.
  destruct (isInBattle_of _), (currentBug_of _); simpl;
    intros [H|H]; try discriminate H; reflexivity.
Qed.

Lemma Double_processBattle_frame (w : World) :
  let s := gameState w in
  let s' := gameState (exec Double.processBattle w) in
  Statistics.totalLinesGenerated (statistics s') = Statistics.totalLinesGenerated (statistics s)
  /\ Statistics.totalPlayTime (statistics s') = Statistics.totalPlayTime (statistics s)
  /\ level_of s' = level_of s
  /\ experienceToNext_of s' = experienceToNext_of s
  /\ stats s' = stats s /\ upgradeCosts s' = upgradeCosts s
  /\ equipment s' = equipment s /\ settings s' = settings s
  /\ globalState (exec Double.processBattle w) = globalState w
  /\ randomSource (exec Double.processBattle w) = randomSource w
  /\ randomsDrawn (exec Double.processBattle w) = randomsDrawn w.
Proof.
  destruct_world w. destruct ib, cb as [b|]; try (repeat split; reflexivity).
  run64. destruct (Qle_bool _ 0); [|repeat split; reflexivity].
  destruct se as [a [|]]; repeat split; reflexivity.
Qed.

Lemma Double_processBattle_survives (w : World) (b : Bug.t) :
  let s := gameState w in
  let health' :=
    sub64 (Bug.health b) (Qmax 1 (sub64 (Stats.algorithm (stats s)) (Bug.iteration b))) in
  isInBattle_of s = true -> currentBug_of s = Some b -> 0 < health' ->
  exec Double.processBattle w
  = mkWorld (set_currentBug (Some (Bug.with_health health' b)) s)
      (globalState w) (shown w) (randomSource w) (randomsDrawn w).
Proof.
  cbv zeta. intros Hin Hbug Hpos. apply Qle_bool_false in Hpos.
  destruct_world w. run64_in Hin. run64_in Hbug. run64_in Hpos. subst ib cb.
  run64. rewrite Hpos. reflexivity.
Qed.

Lemma Double_processBattle_defeats (w : World) (b : Bug.t) :
  let s := gameState w in
  let w' := exec Double.processBattle w in
  let s' := gameState w' in
  let health' :=
    sub64 (Bug.health b) (Qmax 1 (sub64 (Stats.algorithm (stats s)) (Bug.iteration b))) in
  let totalFragments :=
    add64 (Reward.bugFragments (Bug.reward b))
      (inject_Z (Qfloor (mul64 (mul64 (Reward.bugFragments (Bug.reward b))
                                  (Stats.iteration (stats s)))
                           (lit 0.1)))) in
  isInBattle_of s = true -> currentBug_of s = Some b -> health' <= 0 ->
  linesOfCode_of s' = add64 (linesOfCode_of s) (Reward.linesOfCode (Bug.reward b))
  /\ bugFragments_of s' = add64 (bugFragments_of s) totalFragments
  /\ experience_of s' = add64 (experience_of s) (Reward.experience (Bug.reward b))
  /\ Statistics.totalBugsDefeated (statistics s')
     = add64 (Statistics.totalBugsDefeated (statistics s)) 1
  /\ currentBug_of s' = None
  /\ isInBattle_of s' = false
  /\ shown w'
     = shown w ++
       (if Settings.showNotifications (settings s)
        then [BugDefeated (Bug.name b) (Reward.linesOfCode (Bug.reward b)) totalFragments]
        else []).
Proof.
  cbv zeta. intros Hin Hbug Hneg. apply Qle_bool_iff in Hneg.
  destruct_world w. run64_in Hin. run64_in Hbug. run64_in Hneg. subst ib cb.
  run64. rewrite Hneg.
  destruct se as [a [|]]; repeat split; try reflexivity.
  symmetry. apply app_nil_r.
Qed.

Lemma Double_spawnRandomBug_effect (w : World) :
  let w' := exec Double.spawnRandomBug w in
  sameOutsideBattle w w'
  /\ isInBattle_of (gameState w') = true
  /\ (exists bug, currentBug_of (gameState w') = Some bug
                  /\ Bug.health bug = Bug.maxHealth bug)
  /\ randomsDrawn w' = S (randomsDrawn w).
Proof.
  cbv zeta. unfold sameOutsideBattle, Double.spawnRandomBug, Double.createBug, Math_random,
    exec, bind, getState, modify, ret. simpl.
  repeat split; try reflexivity. eexists. split; reflexivity.
Qed.

Lemma Double_spawnCheck_frame (w : World) : sameOutsideBattle w (exec Double.spawnCheck w).
Proof.
  unfold Double.spawnCheck, when, exec, bind, getState. cbn beta iota zeta.
  destruct (isInBattle_of _); [repeat split|]. cbn [negb].
  unfold Math_random at 1. cbn beta iota zeta.
  destruct (Qltb _ _).
  - match goal with |- sameOutsideBattle _ (snd (Double.spawnRandomBug ?v)) =>
      destruct (Double_spawnRandomBug_effect v) as (H & _)
    end.
    unfold exec in H. exact H.
  - repeat split.
Qed.

Lemma Double_spawnCheck_in_battle (w : World) :
  isInBattle_of (gameState w) = true -> exec Double.spawnCheck w = w.
Proof.
  intros H. unfold Double.spawnCheck, when, exec, bind, getState. cbn beta iota zeta.
  now rewrite H.
Qed.

Lemma Double_spawnCheck_idle (w : World) :
  isInBattle_of (gameState w) = false ->
  let r := rval (randomSource w (randomsDrawn w)) in
  let drawn := mkWorld (gameState w) (globalState w) (shown w)
                 (randomSource w) (S (randomsDrawn w)) in
  exec Double.spawnCheck w
  = if Qltb r (lit 0.1) then exec Double.spawnRandomBug drawn else drawn.
Proof.
  intros H. cbv zeta. unfold Double.spawnCheck, when, exec, bind, getState. cbn beta iota zeta.
  rewrite H. cbn [negb]. unfold Math_random at 1. cbn beta iota zeta.
  destruct (Qltb _ _); reflexivity.
Qed.

Lemma Double_levelUpBody_frame (w : World) :
  sameOutsideLevelUp w (exec Double.levelUpBody w).
Proof.
  destruct_world w. run64. destruct se as [a [|]]; repeat split; reflexivity.
Qed.

Lemma Double_checkLevelUp_frame (fuel : nat) (w w' : World) :
  Double.checkLevelUp fuel w = Some w' -> sameOutsideLevelUp w w'.
Proof.
  unfold Double.checkLevelUp. intros H.
  apply (while_invariant _ _ (sameOutsideLevelUp w) _ _ _) in H; [exact H| |repeat split].
  intros v Hv _. eapply sameOutsideLevelUp_trans; [exact Hv|apply Double_levelUpBody_frame].
Qed.

Lemma Double_afterLevelUp_effect (w : World) :
  let w' := exec Double.afterLevelUp w in
  gameState w' = gameState w
  /\ shown w' = shown w
  /\ randomSource w' = randomSource w /\ randomsDrawn w' = randomsDrawn w
  /\ globalState w'
     = if Settings.autoSave (settings (gameState w))
       then Some (gameState w) else globalState w.
Proof.
  cbv zeta. unfold Double.afterLevelUp, saveGameState, when, exec, bind, getState, ret.
  cbn beta iota zeta.
  destruct (Settings.autoSave _); repeat split; reflexivity.
Qed.

Lemma exec_beforeLevelUp (w : World) :
  exec Double.beforeLevelUp w
  = exec Double.spawnCheck (exec Double.processBattle (exec Double.accrual w)).
Proof. unfold Double.beforeLevelUp. now rewrite !exec_bind. Qed.

(** What a tick that returns is made of. *)
Lemma Double_updateGameState_inv (fuel : nat) (w w' : World) :
  Double.updateGameState fuel w = Some w' ->
  exists wd,
    Double.checkLevelUp fuel
      (exec Double.spawnCheck (exec Double.processBattle (exec Double.accrual w))) = Some wd
    /\ w' = exec Double.afterLevelUp wd.
Proof.
  unfold Double.updateGameState. rewrite exec_beforeLevelUp.
  destruct (Double.checkLevelUp fuel _) as [wd|]; [|discriminate].
  intros [= <-]. now exists wd.
Qed.

Lemma Double_updateGameState_counters (fuel : nat) (w w' : World) :
  Double.updateGameState fuel w = Some w' ->
  let s := gameState w in
  let s' := gameState w' in
  let rate := result Double.calculateLocPerSecond w in
  Statistics.totalLinesGenerated (statistics s')
  = add64 (Statistics.totalLinesGenerated (statistics s)) rate
  /\ Statistics.totalPlayTime (statistics s')
     = add64 (Statistics.totalPlayTime (statistics s)) 1
  /\ (isInBattle_of s = false -> linesOfCode_of s' = add64 (linesOfCode_of s) rate).
Proof.
  intros H. cbv zeta.
  destruct (Double_updateGameState_inv _ _ _ H) as (wd & Hd & ->).
  destruct (Double_accrual_effect w)
    as (A0 & A1 & A2 & _ & _ & _ & _ & _ & _ & _ & _ & _ & A3 & _).
  set (wa := exec Double.accrual w) in *.
  destruct (Double_processBattle_frame wa) as (B1 & B2 & _).
  pose proof (Double_processBattle_idle wa) as Bi.
  set (wb := exec Double.processBattle wa) in *.
  destruct (Double_spawnCheck_frame wb) as (_ & C0 & _ & _ & _ & C & _).
  set (wc := exec Double.spawnCheck wb) in *.
  destruct (Double_checkLevelUp_frame _ _ _ Hd) as (D0 & _ & _ & D & _).
  destruct (Double_afterLevelUp_effect wd) as (E & _).
  rewrite E, D, C, B1, B2. split; [exact A1|]. split; [exact A2|].
  intros Hidle. unfold linesOfCode_of in *. rewrite D0, C0.
  rewrite Bi; [exact A0|].
  left. unfold isInBattle_of in *. now rewrite A3.
Qed.

(** A tick whose level-up check finds the experience below the threshold
    returns on any allowance. *)
Lemma Double_updateGameState_no_level (fuel : nat) (w : World) :
  levelUpCondition (exec Double.beforeLevelUp w) = false ->
  Double.updateGameState fuel w
  = Some (exec Double.afterLevelUp (exec Double.beforeLevelUp w)).
Proof.
  intros H. unfold Double.updateGameState, Double.checkLevelUp.
  destruct fuel; simpl; now rewrite H.
Qed.

(** C8, as stated, fails: with a hand speed of 3 and an owned IDE extension
    of level 2 the machine computes a production of 3.5999999999999996,
    the double [2026619832316723 / 2^49], and not [3 * (1 + 2 * 0.1)]. *)
Lemma production_rounded_refuted :
  let s := mkGameState (character createDefaultGameState) (resources createDefaultGameState)
             (Stats.mk 3 5 3) (upgradeCosts createDefaultGameState)
             (Equipment.mk (Item.mk 1 false) (Item.mk 2 true) (Item.mk 1 false) (Item.mk 1 false))
             (statistics createDefaultGameState) (battle createDefaultGameState)
             (settings createDefaultGameState) in
  let w := mkWorld s None [] (always half) 0 in
  let added := linesOfCode_of (gameState (exec Double.accrual w)) - linesOfCode_of s in
  added == 2026619832316723 # 562949953421312
  /\ ~ (added == 3 * (1 + 2 * 0.1)).
Proof.
  cbv zeta. split; [vm_compute; reflexivity|].
  intros H. vm_compute in H. discriminate H.
Qed.

(** C8, amended: the accrual that opens a tick adds the production to
    [linesOfCode] and to [totalLinesGenerated] and one to [totalPlayTime],
    each sum being the double nearest to it, and touches nothing else.  The
    production is [handSpeed] when the IDE extension is not owned and the
    machine's product [handSpeed * (1 + level * 0.1)] when it is, every
    operation rounded.  The two counters keep these values to the end of
    a tick that returns, and so does [linesOfCode] when no encounter is in
    progress.  On whole numbers up to [2^53], without the extension, the
    sums are exact.  From the default state a tick returns and ends with
    1 line of code, 1 line generated and a play time of 1, whatever
    [Math.random] returns. *)
Theorem accrual_adds_production (w : World) :
  let s := gameState w in
  let ide := Equipment.ideExtension (equipment s) in
  let hs := Stats.handSpeed (stats s) in
  let rate :=
    if Item.owned ide then mul64 hs (add64 1 (mul64 (Item.level ide) (lit 0.1))) else hs in
  let lines := linesOfCode_of s in
  let total := Statistics.totalLinesGenerated (statistics s) in
  let time := Statistics.totalPlayTime (statistics s) in
  finiteState s = true ->
  result Double.calculateLocPerSecond w = rate
  /\ (let wa := exec Double.accrual w in
      exec Double.beforeLevelUp w = exec Double.spawnCheck (exec Double.processBattle wa)
      /\ linesOfCode_of (gameState wa) = add64 lines rate
      /\ Statistics.totalLinesGenerated (statistics (gameState wa)) = add64 total rate
      /\ Statistics.totalPlayTime (statistics (gameState wa)) = add64 time 1
      /\ Statistics.totalBugsDefeated (statistics (gameState wa))
         = Statistics.totalBugsDefeated (statistics s)
      /\ Statistics.keystrokes (statistics (gameState wa))
         = Statistics.keystrokes (statistics s)
      /\ Statistics.filesOpened (statistics (gameState wa))
         = Statistics.filesOpened (statistics s)
      /\ Statistics.filesSaved (statistics (gameState wa))
         = Statistics.filesSaved (statistics s)
      /\ bugFragments_of (gameState wa) = bugFragments_of s
      /\ character (gameState wa) = character s /\ stats (gameState wa) = stats s
      /\ upgradeCosts (gameState wa) = upgradeCosts s
      /\ equipment (gameState wa) = equipment s
      /\ battle (gameState wa) = battle s /\ settings (gameState wa) = settings s
      /\ sameOutsideState w wa)
  /\ (forall (fuel : nat) (w' : World),
        Double.updateGameState fuel w = Some w' ->
        Statistics.totalLinesGenerated (statistics (gameState w')) = add64 total rate
        /\ Statistics.totalPlayTime (statistics (gameState w')) = add64 time 1
        /\ (isInBattle_of s = false -> linesOfCode_of (gameState w') = add64 lines rate))
  /\ (Item.owned ide = false -> whole hs ->
      (whole lines -> - two53 <= lines + hs <= two53 -> add64 lines rate == lines + hs)
      /\ (whole total -> - two53 <= total + hs <= two53 -> add64 total rate == total + hs))
  /\ (whole time -> - two53 <= time + 1 <= two53 -> add64 time 1 == time + 1)
  /\ (forall fuel : nat,
        exists d : World,
          Double.updateGameState fuel
            (mkWorld createDefaultGameState (globalState w) (shown w)
               (randomSource w) (randomsDrawn w)) = Some d
          /\ linesOfCode_of (gameState d) == 1
          /\ Statistics.totalLinesGenerated (statistics (gameState d)) == 1
          /\ Statistics.totalPlayTime (statistics (gameState d)) == 1).
Proof.
  cbv zeta. intros _.
  assert (R : result Double.calculateLocPerSecond w
              = if Item.owned (Equipment.ideExtension (equipment (gameState w)))
                then mul64 (Stats.handSpeed (stats (gameState w)))
                       (add64 1 (mul64 (Item.level (Equipment.ideExtension
                                                      (equipment (gameState w)))) (lit 0.1)))
                else Stats.handSpeed (stats (gameState w))) by reflexivity.
  rewrite <- R. split; [reflexivity|]. split; [|split; [|split; [|split]]].
  - split; [apply exec_beforeLevelUp|]. apply Double_accrual_effect.
  - intros fuel w' H. exact (Double_updateGameState_counters fuel w w' H).
  - intros Hown Whs. rewrite R, Hown. split; intros W B; now apply add64_whole.
  - intros W B. apply add64_whole; [exact W|apply (whole_inject 1)|exact B].
  - intros fuel. set (w0 := mkWorld createDefaultGameState _ _ _ _).
    assert (Hc : levelUpCondition (exec Double.beforeLevelUp w0) = false).
    { rewrite exec_beforeLevelUp.
      destruct (Double_accrual_effect w0)
        as (_ & _ & _ & _ & _ & _ & _ & _ & A & _ & _ & _ & A3 & _).
      set (wa := exec Double.accrual w0) in *.
      rewrite (Double_processBattle_idle wa)
        by (left; unfold isInBattle_of; now rewrite A3).
      destruct (Double_spawnCheck_frame wa) as (C & _).
      unfold levelUpCondition, experienceToNext_of, experience_of. rewrite C, A.
      reflexivity. }
    pose proof (Double_updateGameState_no_level fuel w0 Hc) as Ht.
    eexists. split; [exact Ht|].
    destruct (Double_updateGameState_counters fuel w0 _ Ht) as (T & P & L).
    rewrite T, P, (L eq_refl). repeat split; vm_compute; reflexivity.
Qed.

Lemma accrual_adds_production_witness :
  let w := mkWorld createDefaultGameState None [] (always half) 0 in
  exists d : World,
    Double.updateGameState 0 w = Some d
    /\ linesOfCode_of (gameState d) == 1
    /\ Statistics.totalLinesGenerated (statistics (gameState d)) == 1
    /\ Statistics.totalPlayTime (statistics (gameState d)) == 1.
Proof.
  destruct (accrual_adds_production (mkWorld createDefaultGameState None [] (always half) 0)
              eq_refl) as (_ & _ & _ & _ & _ & H).
  exact (H O).
Defined.

Lemma while_skip (cond : World -> bool) (body : M unit) (fuel : nat) (w : World) :
  cond w = false -> while fuel cond body w = Some w.
Proof. intros H. destruct fuel; simpl; now rewrite H. Qed.

(** Everything after the combat resolution leaves resources, statistics
    and, short of a spawn, the battle slot alone. *)
Lemma Double_after_combat_frame (fuel : nat) (wb wd : World) :
  Double.checkLevelUp fuel (exec Double.spawnCheck wb) = Some wd ->
  let w' := exec Double.afterLevelUp wd in
  resources (gameState w') = resources (gameState wb)
  /\ statistics (gameState w') = statistics (gameState wb)
  /\ battle (gameState w') = battle (gameState (exec Double.spawnCheck wb))
  /\ experience_of (gameState w') < experienceToNext_of (gameState w')
  /\ (experience_of (gameState wb) < experienceToNext_of (gameState wb) ->
      character (gameState w') = character (gameState wb)).
Proof.
  intros Hd. cbv zeta.
  destruct (Double_spawnCheck_frame wb) as (C0 & C1 & _ & _ & _ & C2 & _).
  set (wc := exec Double.spawnCheck wb) in *.
  destruct (Double_checkLevelUp_frame _ _ _ Hd) as (D1 & _ & _ & D2 & D3 & _).
  destruct (Double_afterLevelUp_effect wd) as (E & _).
  rewrite E. split; [congruence|]. split; [congruence|]. split; [congruence|].
  unfold Double.checkLevelUp in Hd. split.
  - apply levelUpCondition_false. eapply while_exit; exact Hd.
  - intros Hlt.
    assert (Hc : levelUpCondition wc = false).
    { apply levelUpCondition_false. unfold experience_of, experienceToNext_of in *.
      now rewrite C0. }
    rewrite (while_skip _ _ fuel wc Hc) in Hd. injection Hd as <-. exact C0.
Qed.

Lemma Qmax_comp (x y : Q) : x == y -> Qmax 1 x == Qmax 1 y.
Proof.
  intros E.
  destruct (Q.max_spec 1 x) as [[A ->]|[A ->]];
    destruct (Q.max_spec 1 y) as [[B ->]|[B ->]]; lra.
Qed.

(** C4, as stated, fails in three ways.  The slot need not be empty at
    the end of the tick: after the defeat the spawn check of the same tick
    draws 0.0625 and installs a fresh encounter.  The experience need not be
    the old one plus the reward: with 99 experience the 5 points of the
    reward are turned into a level by the same tick, which ends with 4.
    And on large numbers the machine's product rounds before the floor:
    a reward of 9007199254740989 fragments at an iteration of 1 brings a
    bonus of 900719925474099, one more than the floor of the tenth. *)
Lemma same_tick_slot_and_experience_refuted :
  (exists w', Double.updateGameState 0 (battleWorld (always lowDouble)) = Some w'
              /\ Statistics.totalBugsDefeated (statistics (gameState w')) == 1
              /\ currentBug_of (gameState w') <> None
              /\ isInBattle_of (gameState w') = true)
  /\ (exists w', Double.updateGameState 1 (killLevelUpWorld (always highDouble)) = Some w'
                 /\ Statistics.totalBugsDefeated (statistics (gameState w')) == 1
                 /\ experience_of (gameState w') == 4
                 /\ ~ (experience_of (gameState w') == 99 + 5))
  /\ ~ (inject_Z (Qfloor (mul64 (mul64 9007199254740989 1) (lit 0.1)))
        == inject_Z (Qfloor (9007199254740989 * 1 * 0.1))).
Proof.
  split; [|split].
  - eexists. split; [vm_compute; reflexivity|].
    split; [vm_compute; reflexivity|]. split; [discriminate|reflexivity].
  - eexists. split; [vm_compute; reflexivity|].
    split; [vm_compute; reflexivity|]. split; [vm_compute; reflexivity|].
    intros H. vm_compute in H. discriminate H.
  - intros H. vm_compute in H. discriminate H.
Qed.

(** C4, amended: in a tick that starts with an active encounter [b], the
    combat resolution (which follows the accrual) takes
    [max(1, algorithm - b.iteration)] from the encounter's health.  If the
    health is then at most 0 the same resolution grants the rewards (lines
    of code, fragments with the [iteration] bonus, experience, one more bug
    defeated) and empties the slot.  At the end of a tick that returns,
    lines of code, fragments and the counter have these values; the
    experience has been through the level-up check, so it is below the
    threshold, and it is the old one plus the reward when that sum was
    below the threshold already; the slot is still empty unless the spawn
    check of the same tick draws below 0.1 and installs a fresh encounter.
    Otherwise the encounter stays, with the reduced health.  Every sum and
    difference is the machine's, exact on whole numbers up to [2^53]; the
    bonus is [floor(reward * iteration * 0.1)] for whole numbers with
    [reward * iteration] up to [2^50].  The tick returns when the state
    the level-up check starts from is one of [levelUpExact]. *)
Theorem combat_resolution (w : World) (b : Bug.t) :
  let s := gameState w in
  finiteState s = true ->
  isInBattle_of s = true ->
  currentBug_of s = Some b ->
  let alg := Stats.algorithm (stats s) in
  let it := Stats.iteration (stats s) in
  let damage := Qmax 1 (sub64 alg (Bug.iteration b)) in
  let health' := sub64 (Bug.health b) damage in
  let rw := Bug.reward b in
  let bonus :=
    inject_Z (Qfloor (mul64 (mul64 (Reward.bugFragments rw) it) (lit 0.1))) in
  let totalFragments := add64 (Reward.bugFragments rw) bonus in
  let wa := exec Double.accrual w in
  let wb := exec Double.processBattle wa in
  let wc := exec Double.spawnCheck wb in
  let sb := gameState wb in
  let r := rval (randomSource w (randomsDrawn w)) in
  exec Double.beforeLevelUp w = wc
  /\ (whole alg -> whole (Bug.iteration b) -> whole (Bug.health b) ->
      - two53 <= alg - Bug.iteration b <= two53 ->
      - two53 <= Bug.health b - Qmax 1 (alg - Bug.iteration b) <= two53 ->
      health' == Bug.health b - Qmax 1 (alg - Bug.iteration b))
  /\ (whole (Reward.bugFragments rw) -> whole it ->
      0 <= Reward.bugFragments rw * it <= 1125899906842624 ->
      bonus = inject_Z (Qfloor (Reward.bugFragments rw * it * 0.1)))
  /\ (levelUpExact (gameState wc) ->
      exists (k : nat) (w' : World),
        forall fuel : nat, (k <= fuel)%nat -> Double.updateGameState fuel w = Some w')
  /\ if Qle_bool health' 0 then
       linesOfCode_of sb = add64 (linesOfCode_of (gameState wa)) (Reward.linesOfCode rw)
       /\ bugFragments_of sb = add64 (bugFragments_of s) totalFragments
       /\ experience_of sb = add64 (experience_of s) (Reward.experience rw)
       /\ Statistics.totalBugsDefeated (statistics sb)
          = add64 (Statistics.totalBugsDefeated (statistics s)) 1
       /\ currentBug_of sb = None
       /\ isInBattle_of sb = false
       /\ forall (fuel : nat) (w' : World),
            Double.updateGameState fuel w = Some w' ->
            let s' := gameState w' in
            linesOfCode_of s' = linesOfCode_of sb
            /\ bugFragments_of s' = bugFragments_of sb
            /\ Statistics.totalBugsDefeated (statistics s')
               = Statistics.totalBugsDefeated (statistics sb)
            /\ experience_of s' < experienceToNext_of s'
            /\ (experience_of sb < experienceToNext_of s ->
                experience_of s' = experience_of sb /\ level_of s' = level_of s)
            /\ (if Qltb r (lit 0.1)
                then exists fresh, currentBug_of s' = Some fresh
                                   /\ Bug.health fresh = Bug.maxHealth fresh
                                   /\ isInBattle_of s' = true
                else currentBug_of s' = None /\ isInBattle_of s' = false)
     else
       currentBug_of sb = Some (Bug.with_health health' b)
       /\ isInBattle_of sb = true
       /\ resources sb = resources (gameState wa)
       /\ character sb = character s
       /\ statistics sb = statistics (gameState wa)
       /\ forall (fuel : nat) (w' : World),
            Double.updateGameState fuel w = Some w' ->
            currentBug_of (gameState w') = Some (Bug.with_health health' b)
            /\ isInBattle_of (gameState w') = true.
Proof.
  cbv zeta. intros _ Hin Hbug.
  split; [apply exec_beforeLevelUp|].
  split.
  { intros Wa Wi Wh B1 B2.
    assert (E1 : sub64 (Stats.algorithm (stats (gameState w))) (Bug.iteration b)
                 == Stats.algorithm (stats (gameState w)) - Bug.iteration b)
      by (apply sub64_whole; assumption).
    pose proof (Qmax_comp _ _ E1) as E2.
    rewrite E2. apply sub64_whole; [exact Wh| |exact B2].
    apply whole_max; [apply (whole_inject 1)|now apply whole_minus]. }
  split.
  { intros Wr Wi B.
    assert (E1 : mul64 (Reward.bugFragments (Bug.reward b)) (Stats.iteration (stats (gameState w)))
                 == Reward.bugFragments (Bug.reward b) * Stats.iteration (stats (gameState w))).
    { apply mul64_whole; [exact Wr|exact Wi|]. unfold two53. lra. }
    f_equal. rewrite <- (floor_mul64_tenth _ (whole_mult _ _ Wr Wi) B).
    apply Qfloor_comp. now rewrite E1. }
  split.
  { intros Hx.
    destruct (Double_checkLevelUp_total _ Hx) as (k & Hk & _).
    exists k. eexists. intros fuel Hf.
    unfold Double.updateGameState. rewrite exec_beforeLevelUp, (Hk fuel Hf). reflexivity. }
  destruct (Double_accrual_effect w)
    as (A1 & _ & _ & A4 & _ & _ & _ & A8 & A9 & A10 & _ & _ & A13 & _ & (_ & _ & AR & AD)).
  set (wa := exec Double.accrual w) in *.
  assert (Hin' : isInBattle_of (gameState wa) = true)
    by (unfold isInBattle_of in *; now rewrite A13).
  assert (Hbug' : currentBug_of (gameState wa) = Some b)
    by (unfold currentBug_of in *; now rewrite A13).
  destruct (Double_processBattle_frame wa)
    as (_ & _ & BL & BT & _ & _ & _ & _ & _ & BR & BD).
  destruct (Qle_bool _ 0) eqn:E.
  - apply Qle_bool_iff in E.
    destruct (Double_processBattle_defeats wa b Hin' Hbug') as (P1 & P2 & P3 & P4 & P5 & P6 & _).
    { now rewrite A10. }
    rewrite A10 in P2. unfold experience_of in P3. rewrite A9 in P3.
    rewrite A8 in P2. rewrite A4 in P4.
    repeat match goal with |- _ /\ _ => split end; try assumption.
    intros fuel w' Ht.
    destruct (Double_updateGameState_inv _ _ _ Ht) as (wd & Hd & ->).
    change (exec Double.accrual w) with wa in Hd.
    destruct (Double_after_combat_frame fuel _ wd Hd) as (F1 & F2 & F3 & F4 & F5).
    cbv zeta.
    split; [unfold linesOfCode_of; now rewrite F1|].
    split; [unfold bugFragments_of; now rewrite F1|].
    split; [now rewrite F2|]. split; [exact F4|]. split.
    + intros Hlt.
      assert (F5' : character (gameState (exec Double.afterLevelUp wd))
                    = character (gameState (exec Double.processBattle wa))).
      { apply F5. unfold experienceToNext_of in *. rewrite BT.
        unfold experience_of in *. now rewrite A9. }
      unfold experience_of, level_of in *. rewrite F5'. split; [reflexivity|].
      rewrite BL. now rewrite A9.
    + pose proof (Double_spawnCheck_idle _ P6) as Hs. cbv zeta in Hs.
      rewrite BR, BD, AR, AD in Hs.
      unfold currentBug_of, isInBattle_of in *. rewrite F3, Hs.
      destruct (Qltb _ (lit 0.1)).
      * match goal with |- context [exec Double.spawnRandomBug ?v] =>
          destruct (Double_spawnRandomBug_effect v) as (_ & Hflag & (fresh & Hf1 & Hf2) & _)
        end.
        exists fresh. unfold currentBug_of, isInBattle_of in *. repeat split; assumption.
      * simpl. split; assumption.
  - apply Qle_bool_false in E.
    assert (E' : 0 < sub64 (Bug.health b)
                       (Qmax 1 (sub64 (Stats.algorithm (stats (gameState wa)))
                                  (Bug.iteration b))))
      by now rewrite A10.
    pose proof (Double_processBattle_survives wa b Hin' Hbug' E') as Hp.
    rewrite A10 in Hp.
    assert (Hflag : isInBattle_of (gameState (exec Double.processBattle wa)) = true)
      by (rewrite Hp; exact Hin').
    split; [rewrite Hp; reflexivity|]. split; [exact Hflag|].
    split; [rewrite Hp; reflexivity|]. split; [rewrite Hp; exact A9|].
    split; [rewrite Hp; reflexivity|].
    intros fuel w' Ht.
    destruct (Double_updateGameState_inv _ _ _ Ht) as (wd & Hd & ->).
    change (exec Double.accrual w) with wa in Hd.
    destruct (Double_after_combat_frame fuel _ wd Hd) as (_ & _ & F3 & _).
    rewrite (Double_spawnCheck_in_battle _ Hflag) in F3.
    unfold currentBug_of, isInBattle_of in *. rewrite F3, Hp. simpl.
    split; [reflexivity|]. apply Hin.
Qed.

Lemma combat_resolution_witness :
  let w := battleWorld (always highDouble) in
  exists w',
    Double.updateGameState 0 w = Some w'
    /\ linesOfCode_of (gameState w') == 11
    /\ bugFragments_of (gameState w') == 1
    /\ experience_of (gameState w') == 5
    /\ Statistics.totalBugsDefeated (statistics (gameState w')) == 1
    /\ currentBug_of (gameState w') = None /\ isInBattle_of (gameState w') = false.
Proof.
  destruct (combat_resolution (battleWorld (always highDouble)) scenarioBug eq_refl eq_refl eq_refl)
    as (_ & _ & _ & _ & H).
  match type of H with (if ?c then _ else _) => change c with true in H end.
  cbv iota in H.
  destruct H as (H1 & H2 & H3 & H4 & _ & _ & H).
  assert (Ht : exists w', Double.updateGameState 0 (battleWorld (always highDouble)) = Some w')
    by (eexists; vm_compute; reflexivity).
  destruct Ht as (w' & Ht). exists w'. split; [exact Ht|].
  destruct (H O w' Ht) as (T1 & T2 & T3 & _ & T5 & T6).
  match type of T6 with (if ?c then _ else _) => change c with false in T6 end.
  cbv iota in T6.
  rewrite T1, T2, T3, H1, H2, H4.
  destruct T5 as (T5 & _); [rewrite H3; vm_compute; reflexivity|].
  rewrite T5, H3.
  repeat split; try (vm_compute; reflexivity); apply T6.
Defined.

(** ** Random numbers on doubles *)

(** The largest double below 1 is [1 - 2^-53]. *)
Lemma isDouble_below_one (r : Q) :
  isDouble r -> 0 <= r -> r < 1 -> r <= (9007199254740991 # 9007199254740992).
Proof.
  unfold isDouble. intros D R0 R1.
  destruct (Qlt_le_dec r (1 # 2)) as [H|H]; [lra|].
  assert (M : magnitude r = (-1)%Z).
  { apply magnitude_unique; [exact H|exact R1]. }
  rewrite round64_pos in D by lra. unfold roundPositive in D.
  assert (E : ulpExponent r = (-53)%Z) by (unfold ulpExponent; rewrite M; reflexivity).
  rewrite E in D. set (m := roundHalfEven (r / pow2 (-53))) in *.
  assert (P : pow2 (-53) == (1 # 9007199254740992)) by reflexivity.
  rewrite P in D.
  assert (Hm : inject_Z m < inject_Z (2 ^ 53)).
  { change (inject_Z (2 ^ 53)) with 9007199254740992. lra. }
  rewrite <- Zlt_Qlt in Hm.
  assert (Hm' : inject_Z m <= inject_Z (2 ^ 53 - 1)) by (rewrite <- Zle_Qle; lia).
  change (inject_Z (2 ^ 53 - 1)) with 9007199254740991 in Hm'. lra.
Qed.

(** The floor of a rounded number is the floor of the number or the next
    integer. *)
Lemma floor_round64 (x : Q) :
  - two53 < x < two53 ->
  Qfloor (round64 x) = Qfloor x \/ Qfloor (round64 x) = (Qfloor x + 1)%Z.
Proof.
  intros [B1 B2]. destruct (floor_bounds x) as [F1 F2]. set (f := Qfloor x) in *.
  assert (Bf : (- 2 ^ 53 <= f < 2 ^ 53)%Z).
  { unfold two53 in *. split.
    - apply Z.lt_succ_r. rewrite Zlt_Qlt. unfold Z.succ. rewrite inject_Z_plus.
      change (inject_Z 1) with 1. change (inject_Z (- 2 ^ 53)) with (- 9007199254740992). lra.
    - rewrite Zlt_Qlt. change (inject_Z (2 ^ 53)) with 9007199254740992. lra. }
  assert (Da : isDouble (inject_Z f)) by (apply round64_Z; lia).
  assert (Db : isDouble (inject_Z (f + 1))) by (apply round64_Z; lia).
  destruct (round64_bracket (inject_Z f) x (inject_Z (f + 1)) Da Db) as [L U].
  { rewrite inject_Z_plus. change (inject_Z 1) with 1. lra. }
  rewrite inject_Z_plus in U. change (inject_Z 1) with 1 in U.
  destruct (floor_bounds (round64 x)) as [G1 G2]. set (g := Qfloor (round64 x)) in *.
  assert (f - 1 < g)%Z.
  { rewrite Zlt_Qlt. unfold Z.sub. rewrite inject_Z_plus, inject_Z_opp.
    change (inject_Z 1) with 1. lra. }
  assert (g < f + 2)%Z.
  { rewrite Zlt_Qlt. rewrite inject_Z_plus. change (inject_Z 2) with 2. lra. }
  lia.
Qed.

(** [Math.floor(Math.random() * n)] for [n] = 5 and 10: in range. *)
Lemma random_index_five (r : Q) :
  isDouble r -> 0 <= r -> r < 1 -> (0 <= Qfloor (mul64 r 5) <= 4)%Z.
Proof.
  intros D R0 R1. pose proof (isDouble_below_one r D R0 R1) as B.
  unfold mul64.
  pose proof (round64_mono 0 (r * 5) ltac:(lra)) as M1.
  pose proof (round64_mono (r * 5) ((9007199254740991 # 9007199254740992) * 5) ltac:(lra)) as M2.
  assert (E0 : round64 0 == 0) by (vm_compute; reflexivity).
  assert (E5 : round64 ((9007199254740991 # 9007199254740992) * 5)
               == 5 - (1 # 1125899906842624)) by (vm_compute; reflexivity).
  destruct (floor_bounds (round64 (r * 5))) as [F1 F2].
  split.
  - apply Z.lt_succ_r. rewrite Zlt_Qlt. unfold Z.succ. rewrite inject_Z_plus.
    change (inject_Z 1) with 1. change (inject_Z 0) with 0. lra.
  - apply Z.lt_succ_r. rewrite Zlt_Qlt. change (inject_Z (Z.succ 4)) with 5. lra.
Qed.

Lemma random_index_ten (r : Q) :
  isDouble r -> 0 <= r -> r < 1 -> (0 <= Qfloor (mul64 r 10) <= 9)%Z.
Proof.
  intros D R0 R1. pose proof (isDouble_below_one r D R0 R1) as B.
  unfold mul64.
  pose proof (round64_mono 0 (r * 10) ltac:(lra)) as M1.
  pose proof (round64_mono (r * 10) ((9007199254740991 # 9007199254740992) * 10) ltac:(lra)) as M2.
  assert (E0 : round64 0 == 0) by (vm_compute; reflexivity).
  assert (E10 : round64 ((9007199254740991 # 9007199254740992) * 10)
                == 10 - (1 # 562949953421312)) by (vm_compute; reflexivity).
  destruct (floor_bounds (round64 (r * 10))) as [F1 F2].
  split.
  - apply Z.lt_succ_r. rewrite Zlt_Qlt. unfold Z.succ. rewrite inject_Z_plus.
    change (inject_Z 1) with 1. change (inject_Z 0) with 0. lra.
  - apply Z.lt_succ_r. rewrite Zlt_Qlt. change (inject_Z (Z.succ 9)) with 10. lra.
Qed.

(** For a double, being below the literal [0.1] is being below a tenth. *)
Lemma below_lit_tenth (r : Q) : isDouble r -> Qltb r (lit 0.1) = Qltb r 0.1.
Proof.
  unfold isDouble. intros D.
  assert (L : 0.1 < lit 0.1) by (vm_compute; reflexivity).
  destruct (Qltb r 0.1) eqn:E.
  - apply Qltb_lt in E. apply Qltb_lt. lra.
  - unfold Qltb in E |- *. apply negb_false_iff in E. apply negb_false_iff.
    apply Qle_bool_iff in E. apply Qle_bool_iff.
    pose proof (round64_mono 0.1 r E) as M. unfold lit. lra.
Qed.

(** [Math.floor(a * 0.2)] on doubles is the floor of the exact fifth, for
    whole [a] up to [2^50]. *)
Lemma floor_mul64_fifth (a : Q) :
  whole a -> 0 <= a <= 1125899906842624 ->
  Qfloor (mul64 a (lit 0.2)) = Qfloor (a * 0.2).
Proof.
  intros [z Hz] [H1 H2]. unfold mul64.
  rewrite Hz in *.
  assert (Hz0 : (0 <= z)%Z) by (rewrite Zle_Qle; exact H1).
  assert (Hz1 : (z <= 1125899906842624)%Z) by (rewrite Zle_Qle; exact H2).
  set (k := (z / 5)%Z). set (r := (z mod 5)%Z).
  assert (Hzk : z = (5 * k + r)%Z) by (unfold k, r; apply Z.div_mod; lia).
  assert (Hr : (0 <= r < 5)%Z) by (unfold r; apply Z.mod_pos_bound; lia).
  assert (Hk : (0 <= k <= 225179981368525)%Z).
  { unfold k. split; [apply Z.div_pos; lia|].
    apply Z.div_le_upper_bound; lia. }
  assert (Ez : inject_Z z == 5 * inject_Z k + inject_Z r).
  { rewrite Hzk, inject_Z_plus, inject_Z_mult. reflexivity. }
  assert (Hr' : 0 <= inject_Z r <= 4).
  { split; [change 0 with (inject_Z 0)|change 4 with (inject_Z 4)];
      rewrite <- Zle_Qle; lia. }
  assert (Hk' : 0 <= inject_Z k).
  { change 0 with (inject_Z 0); rewrite <- Zle_Qle; lia. }
  assert (Fexact : Qfloor (inject_Z z * 0.2) = k).
  { symmetry. apply Z.le_antisymm.
    - rewrite <- (Qfloor_Z k). apply Qfloor_resp_le. lra.
    - apply Z.lt_succ_r. rewrite Zlt_Qlt. unfold Z.succ. rewrite inject_Z_plus.
      change (inject_Z 1) with 1.
      destruct (floor_bounds (inject_Z z * 0.2)) as [F1 F2]. lra. }
  rewrite Fexact.
  set (y := inject_Z z * lit 0.2).
  assert (Hy : inject_Z k <= y <= inject_Z k + (15 # 16)).
  { unfold y. rewrite lit_fifth.
    assert (Ed : 3602879701896397 / 18014398509481984 == 0.2 + (1 # 90071992547409920))
      by reflexivity.
    rewrite Ed. split; lra. }
  assert (Da : isDouble (inject_Z k)).
  { unfold isDouble. apply round64_Z. lia. }
  assert (Db : isDouble (inject_Z k + (15 # 16))).
  { unfold isDouble.
    assert (E : inject_Z k + (15 # 16) == inject_Z (16 * k + 15) * pow2 (-4)).
    { rewrite inject_Z_plus, inject_Z_mult. change (pow2 (-4)) with (1 # 16).
      change (inject_Z 16) with 16. change (inject_Z 15) with 15. field. }
    rewrite E. apply round64_exact; lia. }
  destruct (round64_bracket _ _ _ Da Db Hy) as [B1 B2].
  apply Z.le_antisymm.
  - apply Z.lt_succ_r. rewrite Zlt_Qlt. unfold Z.succ. rewrite inject_Z_plus.
    change (inject_Z 1) with 1.
    destruct (floor_bounds (round64 y)) as [F1 F2]. lra.
  - rewrite <- (Qfloor_Z k) at 1. apply Qfloor_resp_le. exact B1.
Qed.

(** Half a whole number is a double. *)
Lemma div64_two (l : Q) : whole l -> - two53 < l < two53 -> div64 l 2 == l / 2.
Proof.
  intros W B. unfold div64.
  assert (E : l / 2 == l * (1 # 2)) by (field).
  rewrite E. now apply round64_half.
Qed.

(** ** Spawning, on doubles *)

(** X12: [spawnRandomBug] always fills the slot with a full-health
    encounter.  Its type is [bugTypes[i]] for [i = floor(random * 5)], the
    product rounded as the machine rounds it: [i] is in range for every
    double [Math.random] can return, and it is the floor of the exact
    product or, when the rounding reaches the next integer, one more (3
    for the double 0.6).  The name is the display name of the type; the
    rewards are [10 b], [b] and [5 b] for a whole [b >= 1], even below level
    2.  For a whole level up to [2^40] every figure of the encounter is the
    exact one: health [10 + 5 level], algorithm [5 + 2 level], iteration
    [floor(algorithm * 0.2)], [b = max(1, floor(level / 2))]. *)
Theorem spawned_encounter (w : World) :
  let l := level_of (gameState w) in
  let r := rval (randomSource w (randomsDrawn w)) in
  let i := Qfloor (mul64 r 5) in
  let b := Qmax 1 (inject_Z (Qfloor (div64 l 2))) in
  let w' := exec Double.spawnRandomBug w in
  finiteState (gameState w) = true ->
  isDouble r ->
  exists bug,
    currentBug_of (gameState w') = Some bug
    /\ isInBattle_of (gameState w') = true
    /\ (0 <= i <= 4)%Z
    /\ (i = Qfloor (r * 5) \/ i = (Qfloor (r * 5) + 1)%Z)
    /\ nth_error bugTypes (Z.to_nat i) = Some (Bug.type bug)
    /\ Bug.name bug = getBugDisplayName (Bug.type bug)
    /\ Bug.health bug = add64 10 (mul64 l 5)
    /\ Bug.maxHealth bug = Bug.health bug
    /\ Bug.algorithm bug = add64 5 (mul64 l 2)
    /\ Bug.iteration bug = inject_Z (Qfloor (mul64 (Bug.algorithm bug) (lit 0.2)))
    /\ Bug.reward bug = Reward.mk (mul64 b 10) b (mul64 b 5)
    /\ 1 <= b
    /\ whole b
    /\ (whole l -> 0 <= l <= 1099511627776 ->
        Bug.health bug == 10 + l * 5
        /\ Bug.algorithm bug == 5 + l * 2
        /\ Bug.iteration bug == inject_Z (Qfloor ((5 + l * 2) * 0.2))
        /\ b == Qmax 1 (inject_Z (Qfloor (l / 2)))
        /\ Reward.linesOfCode (Bug.reward bug) == b * 10
        /\ Reward.experience (Bug.reward bug) == b * 5)
    /\ randomsDrawn w' = S (randomsDrawn w)
    /\ sameOutsideBattle w w'.
Proof.
  cbv zeta. intros _ D.
  destruct (Double_spawnRandomBug_effect w) as (F & _ & _ & Dn).
  destruct (Rand_range (randomSource w (randomsDrawn w))) as (R0 & R1).
  set (r := rval (randomSource w (randomsDrawn w))) in *.
  pose proof (random_index_five r D R0 R1) as I.
  set (l := level_of (gameState w)).
  assert (Wb : whole (Qmax 1 (inject_Z (Qfloor (div64 l 2)))))
    by (apply whole_max; apply whole_inject).
  assert (Hb : 1 <= Qmax 1 (inject_Z (Qfloor (div64 l 2)))) by apply Q.le_max_l.
  eexists. split; [reflexivity|]. split; [reflexivity|].
  split; [exact I|]. split.
  { unfold mul64. apply floor_round64. unfold two53. split; lra. }
  split.
  { simpl Bug.type. unfold bugTypes_at.
    change (inject_Z (Z.of_nat (length bugTypes))) with 5. fold r.
    apply nth_error_nth'. simpl length.
    change (inject_Z (Z.of_nat 5)) with 5. lia. }
  repeat match goal with |- _ = _ /\ _ => split; [reflexivity|] end.
  split; [exact Hb|]. split; [exact Wb|].
  split; [|split; [exact Dn|exact F]].
  intros Wl [L0 L1]. simpl. fold l.
  assert (E5 : mul64 l 5 == l * 5).
  { apply mul64_whole; [exact Wl|apply (whole_inject 5)|]. unfold two53. lra. }
  assert (E2 : mul64 l 2 == l * 2).
  { apply mul64_whole; [exact Wl|apply (whole_inject 2)|]. unfold two53. lra. }
  assert (EH : add64 10 (mul64 l 5) == 10 + l * 5).
  { rewrite E5. apply add64_whole;
      [apply (whole_inject 10)|apply whole_mult; [exact Wl|apply (whole_inject 5)]|].
    unfold two53. lra. }
  assert (EA : add64 5 (mul64 l 2) == 5 + l * 2).
  { rewrite E2. apply add64_whole;
      [apply (whole_inject 5)|apply whole_mult; [exact Wl|apply (whole_inject 2)]|].
    unfold two53. lra. }
  assert (WA : whole (5 + l * 2)).
  { apply whole_plus; [apply (whole_inject 5)|apply whole_mult; [exact Wl|apply (whole_inject 2)]]. }
  assert (ED : div64 l 2 == l / 2).
  { apply div64_two; [exact Wl|]. unfold two53. lra. }
  assert (EB : Qmax 1 (inject_Z (Qfloor (div64 l 2))) == Qmax 1 (inject_Z (Qfloor (l / 2)))).
  { apply Qmax_comp. now rewrite (Qfloor_comp _ _ ED). }
  assert (Bb : Qmax 1 (inject_Z (Qfloor (div64 l 2))) <= 1099511627776).
  { rewrite EB. destruct (Q.max_spec 1 (inject_Z (Qfloor (l / 2)))) as [[_ ->]|[_ ->]]; [|lra].
    destruct (floor_bounds (l / 2)) as [F1 _].
    apply Qle_trans with (l / 2); [exact F1|].
    apply Qle_shift_div_r; [reflexivity|]. lra. }
  split; [exact EH|]. split; [exact EA|]. split.
  { assert (Ea : mul64 (add64 5 (mul64 l 2)) (lit 0.2) == mul64 (5 + l * 2) (lit 0.2))
      by (now rewrite EA).
    rewrite (Qfloor_comp _ _ Ea).
    rewrite floor_mul64_fifth; [reflexivity|exact WA|]. split; lra. }
  split; [exact EB|].
  split; (apply mul64_whole; [exact Wb|apply whole_inject|]; unfold two53; lra).
Qed.

Lemma spawned_encounter_witness :
  let w := mkWorld createDefaultGameState None [] (always half) 0 in
  exists bug,
    currentBug_of (gameState (exec Double.spawnRandomBug w)) = Some bug
    /\ Bug.type bug = InfiniteLoop
    /\ Bug.health bug == 15.
Proof.
  destruct (spawned_encounter (mkWorld createDefaultGameState None [] (always half) 0)
              eq_refl)
    as (bug & H1 & _ & _ & _ & H2 & _ & _ & _ & _ & _ & _ & _ & _ & H3 & _).
  - vm_compute. reflexivity.
  - exists bug. split; [exact H1|]. split.
    + change (Z.to_nat (Qfloor (mul64 (rval (always half 0%nat)) 5))) with 2%nat in H2.
      simpl in H2. now injection H2.
    + destruct H3 as (H3 & _); [exists 1%Z; reflexivity|split; discriminate|].
      rewrite H3. reflexivity.
Defined.

(** ** The interaction hooks, on doubles *)

(** X13: what each interaction does.  A keystroke counts itself and, when
    the number drawn is below 0.1, adds the bonus (1, or the machine's
    [1 * (1 + level * 0.2)] of an owned keyboard); opening a file only
    counts itself; saving a file counts itself, adds 5 plus
    [floor(random * 10)] lines of code, a whole number between 5 and 14,
    and 2 experience points.  Every sum is the machine's, and the floor is
    that of the rounded product: the floor of the exact one or, when the
    rounding reaches the next integer, one more (7 for the double 0.7).
    None of the hooks touches the level or the threshold, even when the
    experience reaches it, nor the stats, costs, fragments, battle slot,
    settings, store or notifications. *)
Theorem interaction_effects (k : InteractionType) (w : World) :
  let s := gameState w in
  let w' := exec (Double.onEditorInteraction k) w in
  let s' := gameState w' in
  let r := rval (randomSource w (randomsDrawn w)) in
  let kb := Equipment.keyboard (equipment s) in
  finiteState s = true ->
  isDouble r ->
  (level_of s' = level_of s /\ experienceToNext_of s' = experienceToNext_of s
   /\ stats s' = stats s /\ upgradeCosts s' = upgradeCosts s
   /\ equipment s' = equipment s /\ battle s' = battle s /\ settings s' = settings s
   /\ bugFragments_of s' = bugFragments_of s
   /\ globalState w' = globalState w /\ shown w' = shown w)
  /\ match k with
     | Keystroke =>
         statistics s'
         = Statistics.with_keystrokes (add64 (Statistics.keystrokes (statistics s)) 1)
             (statistics s)
         /\ experience_of s' = experience_of s
         /\ linesOfCode_of s'
            = (if Qltb r 0.1
               then add64 (linesOfCode_of s)
                      (if Item.owned kb
                       then mul64 1 (add64 1 (mul64 (Item.level kb) (lit 0.2)))
                       else 1)
               else linesOfCode_of s)
     | FileOpen =>
         statistics s'
         = Statistics.with_filesOpened (add64 (Statistics.filesOpened (statistics s)) 1)
             (statistics s)
         /\ experience_of s' = experience_of s
         /\ linesOfCode_of s' = linesOfCode_of s
     | FileSave =>
         let bonus := Qfloor (mul64 r 10) in
         statistics s'
         = Statistics.with_filesSaved (add64 (Statistics.filesSaved (statistics s)) 1)
             (statistics s)
         /\ experience_of s' = add64 (experience_of s) 2
         /\ linesOfCode_of s' = add64 (linesOfCode_of s) (add64 5 (inject_Z bonus))
         /\ (0 <= bonus <= 9)%Z
         /\ (bonus = Qfloor (r * 10) \/ bonus = (Qfloor (r * 10) + 1)%Z)
         /\ (whole (linesOfCode_of s) -> - two53 <= linesOfCode_of s <= two53 - 14 ->
             linesOfCode_of s' == linesOfCode_of s + 5 + inject_Z bonus)
         /\ (whole (experience_of s) -> - two53 <= experience_of s <= two53 - 2 ->
             experience_of s' == experience_of s + 2)
     end.
Proof.
  cbv zeta. intros _ D. split.
  - destruct_all w. destruct k; run64; try (repeat split; reflexivity).
    destruct (Qltb _ _); repeat split; reflexivity.
  - destruct (Rand_range (randomSource w (randomsDrawn w))) as (R0 & R1).
    destruct k.
    + rewrite <- (below_lit_tenth _ D).
      destruct_all w. run64. destruct (Qltb _ _); repeat split; reflexivity.
    + destruct_all w. run64. repeat split; reflexivity.
    + pose proof (random_index_ten _ D R0 R1) as I.
      split; [destruct_all w; run64; reflexivity|].
      split; [destruct_all w; run64; reflexivity|].
      split; [destruct_all w; run64; reflexivity|].
      split; [exact I|]. split.
      { unfold mul64. apply floor_round64. unfold two53. split; lra. }
      set (bonus := Qfloor (mul64 (rval (randomSource w (randomsDrawn w))) 10)) in *.
      assert (B : 0 <= inject_Z bonus <= 9).
      { split; [change 0 with (inject_Z 0)|change 9 with (inject_Z 9)];
          rewrite <- Zle_Qle; lia. }
      assert (E5 : add64 5 (inject_Z bonus) == 5 + inject_Z bonus).
      { apply add64_whole; [apply (whole_inject 5)|apply whole_inject|].
        unfold two53. lra. }
      split.
      * intros W L.
        assert (Hl : linesOfCode_of (gameState (exec (Double.onEditorInteraction FileSave) w))
                     = add64 (linesOfCode_of (gameState w)) (add64 5 (inject_Z bonus)))
          by (destruct_all w; run64; reflexivity).
        rewrite Hl, E5. rewrite add64_whole.
        -- ring.
        -- exact W.
        -- apply whole_plus; [apply (whole_inject 5)|apply whole_inject].
        -- unfold two53 in *. lra.
      * intros W L.
        assert (He : experience_of (gameState (exec (Double.onEditorInteraction FileSave) w))
                     = add64 (experience_of (gameState w)) 2)
          by (destruct_all w; run64; reflexivity).
        rewrite He. apply add64_whole; [exact W|apply (whole_inject 2)|].
        unfold two53 in *. lra.
Qed.

Lemma interaction_effects_witness :
  let w := mkWorld createDefaultGameState None [] (always half) 0 in
  let s' := gameState (exec (Double.onEditorInteraction FileSave) w) in
  linesOfCode_of s' == 10 /\ experience_of s' == 2.
Proof.
  assert (D : isDouble (rval (always half 0%nat))) by (vm_compute; reflexivity).
  destruct (interaction_effects FileSave
              (mkWorld createDefaultGameState None [] (always half) 0) eq_refl D)
    as (_ & _ & _ & _ & _ & _ & H1 & H2).
  cbv zeta. split.
  - rewrite H1; [vm_compute; reflexivity|exists 0%Z; reflexivity|split; discriminate].
  - rewrite H2; [reflexivity|exists 0%Z; reflexivity|split; discriminate].
Defined.

(** ** The figures of the game panel, on doubles *)

Lemma Double_calculateFragmentsPerBug_result (x : Q) (w : World) :
  result (Double.calculateFragmentsPerBug x) w
  = add64 x (inject_Z (Qfloor (mul64 (mul64 x (Stats.iteration (stats (gameState w))))
                                 (lit 0.1)))).
Proof. reflexivity. Qed.

Lemma Double_defeatBug_fragments (bug : Bug.t) (w : World) :
  bugFragments_of (gameState (exec (Double.defeatBug bug) w))
  = add64 (bugFragments_of (gameState w))
      (result (Double.calculateFragmentsPerBug (Reward.bugFragments (Bug.reward bug))) w).
Proof.
  destruct_all w. destruct bug as [bn bt bh bm ba bi [rl rf re]].
  run64. destruct sn; reflexivity.
Qed.

(** X14: [calculateFragmentsPerBug] reads the state without changing it
    and gives exactly what [defeatBug] adds to [bugFragments] for an
    encounter with that base reward.  The figure [getWebviewContent] puts
    into the page is the one for an encounter created at the current level,
    whatever its type.  The page's update script shows another figure: on
    whole numbers (level, algorithm and iteration up to [2^20]) it is the
    former plus [floor(baseReward * algorithm * 0.1)], so from an
    [algorithm] of 10 on it is more than a victory brings. *)
Theorem fragments_shown_and_fragments_granted (w : World) :
  let s := gameState w in
  let granted := result Double.panelFragmentsPerBug w in
  let b := Qmax 1 (inject_Z (Qfloor (level_of s / 2))) in
  (forall x : Q, exec (Double.calculateFragmentsPerBug x) w = w)
  /\ exec Double.panelFragmentsPerBug w = w
  /\ (forall bug : Bug.t,
        bugFragments_of (gameState (exec (Double.defeatBug bug) w))
        = add64 (bugFragments_of s)
            (result (Double.calculateFragmentsPerBug (Reward.bugFragments (Bug.reward bug))) w))
  /\ (forall type : BugType,
        bugFragments_of (gameState (exec (Double.defeatBug (result (Double.createBug type) w)) w))
        = add64 (bugFragments_of s) granted)
  /\ (whole (level_of s) -> whole (Stats.algorithm (stats s)) ->
      whole (Stats.iteration (stats s)) ->
      0 <= level_of s <= 1048576 -> 0 <= Stats.algorithm (stats s) <= 1048576 ->
      0 <= Stats.iteration (stats s) <= 1048576 ->
      granted == b + inject_Z (Qfloor (b * Stats.iteration (stats s) * 0.1))
      /\ Double.scriptFragmentsPerBug s
         == granted + inject_Z (Qfloor (b * Stats.algorithm (stats s) * 0.1))
      /\ 1 <= granted
      /\ (10 <= Stats.algorithm (stats s) -> granted < Double.scriptFragmentsPerBug s)).
Proof.
  cbv zeta. split; [reflexivity|]. split; [reflexivity|].
  split; [intros bug; apply Double_defeatBug_fragments|]. split.
  - intros type. rewrite Double_defeatBug_fragments. reflexivity.
  - intros Wl Wa Wi [L0 L1] [A0 A1] [I0 I1].
    change (result Double.panelFragmentsPerBug w)
      with (result (Double.calculateFragmentsPerBug
                      (Qmax 1 (inject_Z (Qfloor (div64 (level_of (gameState w)) 2))))) w).
    rewrite Double_calculateFragmentsPerBug_result. unfold Double.scriptFragmentsPerBug.
    set (l := level_of (gameState w)) in *.
    set (al := Stats.algorithm (stats (gameState w))) in *.
    set (it := Stats.iteration (stats (gameState w))) in *.
    assert (ED : div64 l 2 == l / 2).
    { apply div64_two; [exact Wl|]. unfold two53. lra. }
    assert (EB : Qmax 1 (inject_Z (Qfloor (div64 l 2))) == Qmax 1 (inject_Z (Qfloor (l / 2)))).
    { apply Qmax_comp. now rewrite (Qfloor_comp _ _ ED). }
    set (b64 := Qmax 1 (inject_Z (Qfloor (div64 l 2)))) in *.
    set (b := Qmax 1 (inject_Z (Qfloor (l / 2)))) in *.
    assert (Wb : whole b) by (apply whole_max; apply whole_inject).
    assert (Hb : 1 <= b <= 1048576).
    { split; [apply Q.le_max_l|].
      unfold b. destruct (Q.max_spec 1 (inject_Z (Qfloor (l / 2)))) as [[_ ->]|[_ ->]]; [|lra].
      destruct (floor_bounds (l / 2)) as [F1 _].
      apply Qle_trans with (l / 2); [exact F1|].
      apply Qle_shift_div_r; [reflexivity|]. lra. }
    assert (Bonus : forall x, whole x -> 0 <= x <= 1048576 ->
              inject_Z (Qfloor (mul64 (mul64 b64 x) (lit 0.1)))
              == inject_Z (Qfloor (b * x * 0.1))
              /\ 0 <= inject_Z (Qfloor (b * x * 0.1)) <= 109951162778
              /\ (10 <= x -> 1 <= inject_Z (Qfloor (b * x * 0.1)))).
    { intros x Wx [X0 X1].
      assert (P0 : 0 <= b * x) by (apply Qmult_le_0_compat; lra).
      assert (P1 : b * x <= 1048576 * 1048576).
      { apply Qle_trans with (1048576 * x).
        - apply Qmult_le_compat_r; lra.
        - apply Qmult_le_l; [reflexivity|lra]. }
      assert (E1 : mul64 b64 x == b * x).
      { rewrite EB. apply mul64_whole; [exact Wb|exact Wx|]. unfold two53. lra. }
      assert (E2 : Qfloor (mul64 (mul64 b64 x) (lit 0.1)) = Qfloor (b * x * 0.1)).
      { rewrite <- (floor_mul64_tenth (b * x)).
        - apply Qfloor_comp. now rewrite E1.
        - now apply whole_mult.
        - split; lra. }
      rewrite E2. split; [reflexivity|].
      destruct (floor_bounds (b * x * 0.1)) as [F1 F2]. split; [split|].
      - apply floor_nonneg. lra.
      - lra.
      - intros X10. apply (floor_at_least 1). change (inject_Z 1) with 1.
        assert (1 * 10 <= b * x).
        { apply Qle_trans with (1 * x); [lra|]. apply Qmult_le_compat_r; lra. }
        lra. }
    destruct (Bonus it Wi (conj I0 I1)) as (Ei & (Bi0 & Bi1) & _).
    destruct (Bonus al Wa (conj A0 A1)) as (Ea & (Ba0 & Ba1) & Ba).
    assert (G : add64 b64 (inject_Z (Qfloor (mul64 (mul64 b64 it) (lit 0.1))))
                == b + inject_Z (Qfloor (b * it * 0.1))).
    { rewrite Ei, EB. apply add64_whole; [exact Wb|apply whole_inject|].
      unfold two53. lra. }
    assert (S1 : add64 b64 (inject_Z (Qfloor (mul64 (mul64 b64 al) (lit 0.1))))
                 == b + inject_Z (Qfloor (b * al * 0.1))).
    { rewrite Ea, EB. apply add64_whole; [exact Wb|apply whole_inject|].
      unfold two53. lra. }
    assert (S2 : add64 (add64 b64 (inject_Z (Qfloor (mul64 (mul64 b64 al) (lit 0.1)))))
                   (inject_Z (Qfloor (mul64 (mul64 b64 it) (lit 0.1))))
                 == b + inject_Z (Qfloor (b * al * 0.1)) + inject_Z (Qfloor (b * it * 0.1))).
    { rewrite S1, Ei. apply add64_whole.
      - apply whole_plus; [exact Wb|apply whole_inject].
      - apply whole_inject.
      - unfold two53. lra. }
    rewrite G, S2. split; [reflexivity|]. split; [ring|]. split; [lra|].
    intros A10. specialize (Ba A10). lra.
Qed.
